(** * vscode-stats-bar: the polling and formatting loop of [StatsBar]

    A shallow embedding of [src/statsBar.ts] and [src/sysinfo/index.ts]:
    the metric source adapters, the per-kind formatters, and the display
    driver ([init], [start], [update], [getSysInfo], [onSettingUpdate],
    [cancelUpdate]) over an explicit model of the host (status bar items,
    interval timers) and of the platform calls the adapters make.

    Numbers.  An ECMAScript number is modelled by its exact value: a
    rational, or one of -0, NaN, +Infinity, -Infinity.  Every finite
    binary64 value is such a rational, and [toFixed] and [Math.round] are
    defined by ECMA-262 on that exact value.  Division, multiplication
    and [Number(string)] round their exact result to the nearest binary64
    number, ties to the even significand, as IEEE 754 has it ([round64]),
    with the sign of a zero result.  Strings are sequences of the code
    units below 256; the white space among these is TAB, LF, VT, FF, CR,
    SP and NBSP, and the digits are the ASCII ones. *)

From stdpp Require Import base gmap sets list strings pretty.
From Stdlib Require Import Ascii QArith Qround Qabs Qpower Lqa SpecFloat.

Set Default Proof Using "Type".
Close Scope Q_scope.

(** ** ECMAScript values *)

Module JS.

Inductive number : Type :=
  | Num (q : Q)
  | NegZero
  | NaN
  | Infinity
  | NegInfinity.

(** Values that end up in a template dictionary: [string | number], and
    [undefined] for a missing array entry. *)
Inductive value : Type :=
  | VUndefined
  | VNum (n : number)
  | VStr (s : string).

Definition zero : number := Num 0.

Definition ofZ (z : Z) : number := Num (inject_Z z).

(** [ToBoolean] on a number: false for 0 and NaN. *)
Definition truthy (x : number) : bool :=
  match x with
  | Num q => negb (Qeq_bool q 0)
  | NegZero | NaN => false
  | Infinity | NegInfinity => true
  end.

Definition Qneg (q : Q) : bool := (Qnum q <? 0)%Z.

(** The sign of a number, and the zero and the infinity of a sign. *)
Definition negative (x : number) : bool :=
  match x with
  | Num q => Qneg q
  | NegZero | NegInfinity => true
  | NaN | Infinity => false
  end.

Definition signed_zero (neg : bool) : number :=
  if neg then NegZero else Num 0.

Definition signed_infinity (neg : bool) : number :=
  if neg then NegInfinity else Infinity.

(** *** Binary64 rounding *)

(** The integer nearest to [q], the even one on a tie. *)
Definition round_half_even (q : Q) : Z :=
  let f := Qfloor q in
  match (q - inject_Z f ?= 1 # 2)%Q with
  | Lt => f
  | Gt => (f + 1)%Z
  | Eq => if Z.even f then f else (f + 1)%Z
  end.

(** For [a > 0], the integer [e] with [2^e <= a < 2^(e+1)]. *)
Definition ilog2 (a : Q) : Z :=
  let e := (Z.log2 (Qnum a) - Z.log2 (Z.pos (Qden a)))%Z in
  if Qle_bool (2 ^ e) a then e else (e - 1)%Z.

(** The binary64 number nearest to [q] (roundTiesToEven): significands
    have 53 bits, the unit in the last place is [2^u] with [u] not below
    -1074, a magnitude that rounds to [2^1024] or more is an infinity,
    and one that rounds to nothing is a zero, -0 below 0. *)
Definition round64 (q : Q) : number :=
  if Qeq_bool q 0 then Num 0
  else
    let a := Qabs q in
    let u := Z.max (ilog2 a - 52) (-1074) in
    let r := (inject_Z (round_half_even (a / 2 ^ u)) * 2 ^ u)%Q in
    if Qle_bool (2 ^ 1024) r
    then signed_infinity (Qneg q)
    else if Qneg q && Qeq_bool r 0 then NegZero
    else Num (Qred (if Qneg q then - r else r)).

(** Two numbers of the same value. *)
Definition same (x y : number) : bool :=
  match x, y with
  | Num a, Num b => Qeq_bool a b
  | NegZero, NegZero | NaN, NaN
  | Infinity, Infinity | NegInfinity, NegInfinity => true
  | _, _ => false
  end.

(** [x / y]: the sign of the result is the product of the signs. *)
Definition div (x y : number) : number :=
  let neg := xorb (negative x) (negative y) in
  match x, y with
  | NaN, _ | _, NaN => NaN
  | Num a, Num b =>
      match Qeq_bool a 0, Qeq_bool b 0 with
      | true, true => NaN
      | true, false => signed_zero neg
      | false, true => signed_infinity neg
      | false, false => round64 (a / b)
      end
  | Num a, NegZero => if Qeq_bool a 0 then NaN else signed_infinity neg
  | NegZero, Num b => if Qeq_bool b 0 then NaN else signed_zero neg
  | NegZero, NegZero => NaN
  | (Num _ | NegZero), (Infinity | NegInfinity) => signed_zero neg
  | (Infinity | NegInfinity), (Infinity | NegInfinity) => NaN
  | (Infinity | NegInfinity), (Num _ | NegZero) => signed_infinity neg
  end.

(** [x * y]. *)
Definition mul (x y : number) : number :=
  let neg := xorb (negative x) (negative y) in
  match x, y with
  | NaN, _ | _, NaN => NaN
  | Num a, Num b =>
      if Qeq_bool a 0 || Qeq_bool b 0 then signed_zero neg
      else round64 (a * b)
  | NegZero, (Num _ | NegZero) | Num _, NegZero => signed_zero neg
  | (Infinity | NegInfinity), Num b | Num b, (Infinity | NegInfinity) =>
      if Qeq_bool b 0 then NaN else signed_infinity neg
  | (Infinity | NegInfinity), NegZero | NegZero, (Infinity | NegInfinity) => NaN
  | (Infinity | NegInfinity), (Infinity | NegInfinity) => signed_infinity neg
  end.

(** [Math.round]: the nearest integer, ties towards +Infinity; -0 for
    a number below 0 that rounds to zero. *)
Definition round_half_up (q : Q) : Z := Qfloor (q + (1 # 2)).

Definition Math_round (x : number) : number :=
  match x with
  | Num q =>
      let n := round_half_up q in
      if Qneg q && (n =? 0)%Z then NegZero else ofZ n
  | other => other
  end.

(** *** [Number.prototype.toFixed] *)

Definition pow10 (f : nat) : Z := (10 ^ Z.of_nat f)%Z.

(** The integer [n] for which [n / 10^f - a] is closest to zero, the
    larger one on a tie ([a] is the absolute value). *)
Definition fixed_digits (f : nat) (a : Q) : Z :=
  round_half_up (a * inject_Z (pow10 f)).

Fixpoint zeros (k : nat) : string :=
  match k with
  | O => EmptyString
  | S k' => String "0"%char (zeros k')
  end.

(** The decimal representation of [n], padded with zeros to at least
    [f + 1] digits. *)
Definition padded (f : nat) (n : Z) : string :=
  let m := pretty (Z.to_N n) in
  zeros (S f - String.length m) +:+ m.

(** ... and split by a point before the last [f] digits. *)
Definition place_point (f : nat) (n : Z) : string :=
  let m := padded f n in
  let k := String.length m in
  match f with
  | O => m
  | _ => String.substring 0 (k - f) m +:+ "." +:+ String.substring (k - f) f m
  end.

(** [Number::toString] for [a >= 10^21].  With [n] the number of
    digits of the integer part, [digits_at a n k] is the integer [s] of
    [k] digits for which [s * 10^(n-k)] is the binary64 number [a] again,
    the one nearest to [a] when there are two; the least such [k] is
    taken, and 17 digits always do. *)
Definition digits_at (a : Q) (n k : nat) : option Z :=
  let p := (10 ^ Z.of_nat (n - k))%Z in
  let s1 := (Qfloor a / p)%Z in
  let ok (s : Z) :=
    (10 ^ Z.of_nat (k - 1) <=? s)%Z && (s <? 10 ^ Z.of_nat k)%Z &&
    same (round64 (inject_Z (s * p))) (round64 a) in
  let nearer (s t : Z) :=
    match (Qabs (inject_Z (s * p) - a) ?= Qabs (inject_Z (t * p) - a))%Q with
    | Lt => s
    | Gt => t
    | Eq => if Z.even s then s else t
    end in
  match ok s1, ok (s1 + 1)%Z with
  | true, true => Some (nearer s1 (s1 + 1)%Z)
  | true, false => Some s1
  | false, true => Some (s1 + 1)%Z
  | false, false => None
  end.

(** ... written as one digit, a point and the other digits when there
    are any, and the exponent [e+(n-1)]. *)
Definition exponential (a : Q) : string :=
  let n := String.length (pretty (Z.to_N (Qfloor a))) in
  let found :=
    head (omap (λ k, s ← digits_at a n k; Some (s, k)) (seq 1 17)) in
  let '(s, k) := default ((Qfloor a / 10 ^ Z.of_nat (n - 17))%Z, 17%nat) found in
  let m := pretty (Z.to_N s) in
  let mantissa :=
    match k with
    | 1%nat => m
    | _ => String.substring 0 1 m +:+ "." +:+ String.substring 1 (k - 1) m
    end in
  mantissa +:+ "e+" +:+ pretty (N.of_nat (n - 1)).

(** For [|x| >= 10^21] the result is that of [ToString], in exponent
    notation; -0 is written as 0. *)
Definition toFixed (f : nat) (x : number) : string :=
  match x with
  | NegZero => place_point f (fixed_digits f 0)
  | NaN => "NaN"
  | Infinity => "Infinity"
  | NegInfinity => "-Infinity"
  | Num q =>
      let s := if Qneg q then "-" else EmptyString in
      if Qle_bool (inject_Z (pow10 21)) (Qabs q)
      then s +:+ exponential (Qabs q)
      else s +:+ place_point f (fixed_digits f (Qabs q))
  end.

(** *** Strings: [trim], [split], [includes] *)

Definition code (c : ascii) : Z := Z.of_N (N_of_ascii c).

(** White space and line terminators below 256 (TAB, LF, VT, FF, CR,
    SP, NBSP). *)
Definition is_space (c : ascii) : bool :=
  ((9 <=? code c) && (code c <=? 13) || (code c =? 32) || (code c =? 160))%Z.

Definition is_digit (c : ascii) : bool :=
  ((48 <=? code c) && (code c <=? 57))%Z.

Fixpoint span {A} (p : A → bool) (l : list A) : list A * list A :=
  match l with
  | [] => ([], [])
  | x :: l' =>
      if p x then let '(a, b) := span p l' in (x :: a, b) else ([], l)
  end.

Definition chars (s : string) : list ascii := String.list_ascii_of_string s.
Definition str (l : list ascii) : string := String.string_of_list_ascii l.

Definition trim_chars (l : list ascii) : list ascii :=
  rev (span is_space (rev (span is_space l).2)).2.

Definition trim (s : string) : string := str (trim_chars (chars s)).

Fixpoint is_prefix (p l : list ascii) : bool :=
  match p, l with
  | [], _ => true
  | _ :: _, [] => false
  | a :: p', b :: l' => if Ascii.eqb a b then is_prefix p' l' else false
  end.

Fixpoint includes_chars (needle l : list ascii) : bool :=
  is_prefix needle l ||
  match l with
  | [] => false
  | _ :: l' => includes_chars needle l'
  end.

Definition includes (s needle : string) : bool :=
  includes_chars (chars needle) (chars s).

(** [split] by a non-empty separator: [cur] is the piece being read
    (reversed), [skip] the characters of a separator still to pass. *)
Fixpoint split_go (sep cur : list ascii) (skip : nat) (l : list ascii)
  : list (list ascii) :=
  match l with
  | [] => [rev cur]
  | c :: l' =>
      match skip with
      | S k => split_go sep cur k l'
      | O =>
          if is_prefix sep l
          then rev cur :: split_go sep [] (length sep - 1) l'
          else split_go sep (c :: cur) 0 l'
      end
  end.

Definition split (sep s : string) : list string :=
  str <$> split_go (chars sep) [] 0 (chars s).

(** *** [Number(string)] *)

Definition digit_val (c : ascii) : Z := (code c - 48)%Z.

(** The character of a decimal digit. *)
Definition digit_char (d : Z) : ascii := ascii_of_N (Z.to_N (48 + d)).

Definition hex_val (c : ascii) : option Z :=
  let n := code c in
  if is_digit c then Some (n - 48)%Z
  else if ((97 <=? n) && (n <=? 102))%Z then Some (n - 87)%Z
  else if ((65 <=? n) && (n <=? 70))%Z then Some (n - 55)%Z
  else None.

Definition digits_val (base : Z) (ds : list Z) : Z :=
  fold_left (λ acc d, base * acc + d)%Z ds 0%Z.

Definition decimal_val (ds : list ascii) : Z :=
  digits_val 10 (digit_val <$> ds).

(** [0x..], [0o..], [0b..]: digits in the given base, at least one. *)
Definition parse_radix (base : Z) (ds : list ascii) : option Z :=
  match ds with
  | [] => None
  | _ =>
      vs ← mapM (λ c, v ← hex_val c; if (v <? base)%Z then Some v else None) ds;
      Some (digits_val base vs)
  end.

(** The exponent part: nothing, or [e] or [E], a sign, digits. *)
Definition parse_exponent (l : list ascii) : option Z :=
  match l with
  | [] => Some 0%Z
  | c :: r =>
      if Ascii.eqb c "e" || Ascii.eqb c "E" then
        let '(sign, r) :=
          match r with
          | "+"%char :: t => (1%Z, t)
          | "-"%char :: t => ((-1)%Z, t)
          | _ => (1%Z, r)
          end in
        match span is_digit r with
        | ((_ :: _) as ds, []) => Some (sign * decimal_val ds)%Z
        | _ => None
        end
      else None
  end.

(** [digits . digits exponent], with digits on at least one side of the
    point. *)
Definition parse_decimal (l : list ascii) : option Q :=
  let '(ip, r) := span is_digit l in
  let '(fp, r) :=
    match r with
    | "."%char :: t => span is_digit t
    | _ => ([], r)
    end in
  match ip ++ fp with
  | [] => None
  | ds =>
      e ← parse_exponent r;
      Some (inject_Z (decimal_val ds) * Qpower 10 (e - Z.of_nat (length fp)))%Q
  end.

Definition parse_signed (l : list ascii) : number :=
  let '(neg, body) :=
    match l with
    | "+"%char :: t => (false, t)
    | "-"%char :: t => (true, t)
    | _ => (false, l)
    end in
  if decide (body = chars "Infinity")
  then (if neg then NegInfinity else Infinity)
  else
    match parse_decimal body with
    | Some q =>
        if neg && Qeq_bool q 0 then NegZero
        else round64 (if neg then - q else q)
    | None => NaN
    end.

(** The number of an integer literal. *)
Definition ofLiteral (z : Z) : number := round64 (inject_Z z).

(** [StringToNumber]: white space is trimmed, the empty string is 0,
    whatever is not a numeric literal is NaN, and the value of a literal
    is rounded to binary64. *)
Definition StringToNumber (s : string) : number :=
  match trim_chars (chars s) with
  | [] => Num 0
  | ("0"%char :: p :: ds) as l =>
      if Ascii.eqb p "x" || Ascii.eqb p "X" then from_option ofLiteral NaN (parse_radix 16 ds)
      else if Ascii.eqb p "o" || Ascii.eqb p "O" then from_option ofLiteral NaN (parse_radix 8 ds)
      else if Ascii.eqb p "b" || Ascii.eqb p "B" then from_option ofLiteral NaN (parse_radix 2 ds)
      else parse_signed l
  | l => parse_signed l
  end.

(** [Number(v)]. *)
Definition ToNumber (v : value) : number :=
  match v with
  | VUndefined => NaN
  | VNum n => n
  | VStr s => StringToNumber s
  end.

(** [Number(v)] for a possibly missing ([undefined]) number. *)
Definition orNaN (x : option number) : number := default NaN x.

End JS.

Export JS.

(** ** Binary64

    The numbers a JavaScript engine computes with, to check the sample
    readings against: [ofZ] and [div] give the binary64 number next to
    an integer and to a quotient, and [toNumber] its exact value. *)

Module Binary64.

Definition prec : Z := 53.
Definition emax : Z := 1024.

Definition ofZ (n : Z) : spec_float := binary_normalize prec emax n 0 false.
Definition div (x y : spec_float) : spec_float := SFdiv prec emax x y.
Definition mul (x y : spec_float) : spec_float := SFmul prec emax x y.

Definition toNumber (f : spec_float) : number :=
  match f with
  | S754_zero s => signed_zero s
  | S754_infinity false => Infinity
  | S754_infinity true => NegInfinity
  | S754_nan => NaN
  | S754_finite s m e =>
      Num (Qred ((if s then -1 else 1) * inject_Z (Z.pos m) * Qpower 2 e))
  end.

End Binary64.

(** ** Exceptions

    A computation either returns or throws; [await] of a rejected promise
    throws at the point of the [await]. *)

Inductive exc (A : Type) : Type :=
  | Ok (a : A)
  | Throw (err : string).
Arguments Ok {A} a.
Arguments Throw {A} err.

#[global] Instance exc_ret : MRet exc := λ A a, Ok a.
#[global] Instance exc_bind : MBind exc := λ A B f m,
  match m with
  | Ok a => f a
  | Throw e => Throw e
  end.

(** [try { body } catch (err) { handler }]. *)
Definition try_catch {A} (body : exc A) (handler : string → exc A) : exc A :=
  match body with
  | Ok a => Ok a
  | Throw e => handler e
  end.

Definition returns {A} (m : exc A) : Prop := ∃ a, m = Ok a.

(** ** [./utils]

    [formatBytes], [formatTimes], [formatByDict] and the platform flags
    are imported from [./utils], whose source is not available.  The adapters and the driver are written against this
    interface. *)

Record Bytes := { bytes_data : value; bytes_unit : string }.

Class Utils := {
  (** [formatBytes(bytes, decimals = 2, customSize?)] *)
  formatBytes : number → option nat → option number → Bytes;
  formatTimes : number → list value;
  formatByDict : string → gmap string value → string;
  isDarwin : bool;
  isWin32 : bool;
}.

(** ** [sysinfo/index.ts]: the metric source adapters *)

Module Sysinfo.

(** What the [systeminformation] library, [os], [./memory] and
    [child_process.exec] answer to one call each. *)
Record CurrentLoadData := { currentLoad : number }.
Record NetworkStatsData := { tx_sec : number; rx_sec : number }.
Record MemData := { mem_total : number; mem_used : number; mem_active : number }.
Record MacOsMemoryUsageInfo := {
  mac_total : number;
  mac_used : number;
  mac_active : number;
  mac_pressurePercent : number;
  mac_usagePercent : number;
}.
Record ExecResult := { stdout : string; stderr : string }.

Record Platform := {
  si_currentLoad : exc CurrentLoadData;
  os_loadavg : exc (list (option number));
  si_networkInterfaceDefault : exc string;
  si_networkStats : string → exc (list NetworkStatsData);
  os_uptime : exc number;
  getMacOsMemoryUsageInfo : exc MacOsMemoryUsageInfo;
  si_mem : exc MemData;
  execPromise : string → exc ExecResult;
}.

(** The readings. *)
Record NetworkSpeed := { up : number; down : number }.
Record MemoryUsage := {
  total : number;
  used : number;
  active : number;
  pressurePercent : option number;
  usagePercent : option number;
}.
(** A field is [None] where the destructured array had no such entry. *)
Record GpuInfo := {
  totalMemory : option number;
  usedMemory : option number;
  gpuUtilization : option number;
}.

Definition LF : string := String "010"%char EmptyString.

Section Adapters.
Context `{Utils}.
Variable p : Platform.

Definition getCpuLoad : exc (option number) :=
  try_catch
    (res ← si_currentLoad p;
     Ok (Some (currentLoad res)))
    (λ _, Ok None).

Definition getLoadavg : exc (option (list (option number))) :=
  try_catch
    (res ← os_loadavg p;
     Ok (Some res))
    (λ _, Ok None).

Definition getNetworkSpeed : exc (option NetworkSpeed) :=
  try_catch
    (defaultInterface ← si_networkInterfaceDefault p;
     res ← si_networkStats p defaultInterface;
     cur ← match res !! 0%nat with
           | Some cur => Ok cur
           | None => Throw "TypeError: cur is undefined"
           end;
     Ok (Some {| up := tx_sec cur; down := rx_sec cur |}))
    (λ _, Ok None).

Definition getUpTime : exc (option number) :=
  try_catch
    (res ← os_uptime p;
     Ok (Some res))
    (λ _, Ok None).

Definition getMemoryUsage : exc (option MemoryUsage) :=
  try_catch
    (if isDarwin then
       res ← getMacOsMemoryUsageInfo p;
       Ok (Some {| total := mac_total res;
                   used := mac_used res;
                   active := mac_active res;
                   pressurePercent := Some (mac_pressurePercent res);
                   usagePercent := Some (mac_usagePercent res) |})
     else
       res ← si_mem p;
       Ok (Some {| total := mem_total res;
                   used := mem_used res;
                   active := mem_active res;
                   pressurePercent := None;
                   usagePercent := None |}))
    (λ _, Ok None).

(** [line.split(', ').map(Number)], destructured into three names. *)
Definition x86Line (line : string) : GpuInfo :=
  let fields := StringToNumber <$> JS.split ", " line in
  {| totalMemory := fields !! 0%nat;
     usedMemory := fields !! 1%nat;
     gpuUtilization := fields !! 2%nat |}.

Definition getX86GpuInfo : exc (option (list GpuInfo)) :=
  try_catch
    (r ← execPromise p
       "nvidia-smi --query-gpu=memory.total,memory.used,utilization.gpu --format=csv,noheader,nounits";
     if decide (stderr r = EmptyString) then
       let lines := JS.split LF (trim (stdout r)) in
       Ok (Some (x86Line <$> lines))
     else Ok None)
    (λ _, Ok None).

(** [line.match(/(\d+)\/(\d+)\s+MB\s+(\d+)%/)].  Each repeated class is
    disjoint from what follows it, so the longest run is the only one
    that can match. *)
Definition expect (c : ascii) (l : list ascii) : option (list ascii) :=
  match l with
  | x :: r => if Ascii.eqb x c then Some r else None
  | [] => None
  end.

Definition oneOrMore (cls : ascii → bool) (l : list ascii)
  : option (list ascii * list ascii) :=
  match span cls l with
  | ([], _) => None
  | r => Some r
  end.

Definition tegraMatchAt (l : list ascii)
  : option (list ascii * list ascii * list ascii) :=
  '(m1, l) ← oneOrMore is_digit l;
  l ← expect "/" l;
  '(m2, l) ← oneOrMore is_digit l;
  '(_, l) ← oneOrMore is_space l;
  l ← expect "M" l;
  l ← expect "B" l;
  '(_, l) ← oneOrMore is_space l;
  '(m3, l) ← oneOrMore is_digit l;
  _ ← expect "%" l;
  Some (m1, m2, m3).

Fixpoint tegraMatch (l : list ascii)
  : option (list ascii * list ascii * list ascii) :=
  match tegraMatchAt l with
  | Some m => Some m
  | None =>
      match l with
      | [] => None
      | _ :: l' => tegraMatch l'
      end
  end.

(** The callback of [lines.map]: a reading, or [null]. *)
Definition tegraLine (line : string) : option GpuInfo :=
  match tegraMatch (chars line) with
  | Some (m1, m2, m3) =>
      Some {| usedMemory := Some (StringToNumber (str m1));
              totalMemory := Some (StringToNumber (str m2));
              gpuUtilization := Some (StringToNumber (str m3)) |}
  | None => None
  end.

Definition getTegraInfo : exc (option (list GpuInfo)) :=
  try_catch
    (r ← execPromise p "tegrastats";
     if decide (stderr r = EmptyString) then
       let lines := JS.split LF (trim (stdout r)) in
       (* [.map(...).filter(Boolean)] *)
       Ok (Some (omap tegraLine lines))
     else Ok None)
    (λ _, Ok None).

Definition detectPlatform : exc (option (list GpuInfo)) :=
  try_catch
    (r ← execPromise p "uname -m";
     let arch := trim (stdout r) in
     if bool_decide (arch = "x86_64") || bool_decide (arch = "i686") then
       getX86GpuInfo
     else if includes arch "tegra" then
       getTegraInfo
     else Ok None)
    (λ _, Ok None).

(** [return detectPlatform()] hands the promise over without awaiting
    it: the surrounding [try] never sees a rejection, and the result is
    that of [detectPlatform]. *)
Definition getGpuLoad : exc (option (list GpuInfo)) := detectPlatform.

End Adapters.

Inductive StatsModule : Type :=
  | cpuLoad
  | loadavg
  | networkSpeed
  | memoUsage
  | uptime
  | gpuLoad.

#[global] Instance StatsModule_eq_dec : EqDecision StatsModule.
Proof. solve_decision. Defined.

(** [Await<SysinfoData[module]>], without the [undefined]. *)
Definition Reading (module : StatsModule) : Type :=
  match module with
  | cpuLoad => number
  | loadavg => list (option number)
  | networkSpeed => NetworkSpeed
  | memoUsage => MemoryUsage
  | uptime => number
  | gpuLoad => list GpuInfo
  end.

Definition sysinfoData `{Utils} (module : StatsModule) (p : Platform)
  : exc (option (Reading module)) :=
  match module with
  | cpuLoad => getCpuLoad p
  | loadavg => getLoadavg p
  | networkSpeed => getNetworkSpeed p
  | memoUsage => getMemoryUsage p
  | uptime => getUpTime p
  | gpuLoad => getGpuLoad p
  end.

Definition AllSysModules : list StatsModule :=
  [cpuLoad; loadavg; networkSpeed; memoUsage; uptime; gpuLoad].

Definition StatsModuleNameMap (module : StatsModule) : string :=
  match module with
  | cpuLoad => "CpuLoad"
  | loadavg => "Loadavg"
  | networkSpeed => "NetworkSpeed"
  | memoUsage => "MemoryUsage"
  | uptime => "Uptime"
  | gpuLoad => "GpuLoad"
  end.

End Sysinfo.

Export Sysinfo.

(** ** The configuration store *)

(** Modelled from the spec: the configuration store, [./setting] and
    [./types], whose source is not available.  It gives read-only access
    to the global enable flag, the list and order of the enabled metric
    kinds, the display location and priority, the refresh interval, and
    one format template per kind.  Reads of a template fall back to the
    documented default, so a template is always a string; [Location],
    [Priority] and [RefreshInterval] may be unset. *)
Record Setting := {
  AllEnabled : bool;
  curModules : list StatsModule;
  Location : option string;
  Priority : option Z;
  RefreshInterval : option Z;
  default_priority : Z;
  default_refreshInterval : Z;
  Format : StatsModule → string;
}.

(** [x || d] on a number read from the store: unset or zero gives
    [d]. *)
Definition orDefault (x : option Z) (d : Z) : Z :=
  match x with
  | Some v => if (v =? 0)%Z then d else v
  | None => d
  end.

(** [x || 'Left'] on the location read from the store. *)
Definition orLeft (x : option string) : string :=
  match x with
  | Some v => if String.eqb v EmptyString then "Left" else v
  | None => "Left"
  end.

(** The enum [StatusBarAlignment], looked up by the name of a member. *)
Definition StatusBarAlignment (name : string) : option Z :=
  if String.eqb name "Left" then Some 1%Z
  else if String.eqb name "Right" then Some 2%Z
  else None.

(** ** The host: status bar items and interval timers *)

Module StatusBarItem.
Record t := {
  alignment : option Z;
  priority : Z;
  text : string;
  tooltip : string;
  visible : bool;
  disposed : bool;
}.

Definition create (alignment : option Z) (priority : Z) : t :=
  {| alignment := alignment; priority := priority;
     text := EmptyString; tooltip := EmptyString;
     visible := false; disposed := false |}.

Definition dispose (it : t) : t :=
  {| alignment := alignment it; priority := priority it;
     text := text it; tooltip := tooltip it;
     visible := false; disposed := true |}.

(** [item.text = text; item.tooltip = tooltip; item.show()].  On an
    item that was disposed of this shows nothing: [disposed] stays. *)
Definition write (text tooltip : string) (it : t) : t :=
  {| alignment := alignment it; priority := priority it;
     text := text; tooltip := tooltip;
     visible := true; disposed := disposed it |}.
End StatusBarItem.

(** Status bar items are objects: [items] holds every item created so
    far, and an item is referred to by its position there.  [timers] are
    the intervals that are armed, each with its period in
    milliseconds. *)
Record Host := {
  items : list StatusBarItem.t;
  timers : gmap nat Z;
  nextTimer : nat;
  powerShell : bool;
}.

Record ExtensionContext := { subscriptions : list nat }.

(** ** [statsBar.ts]: the display driver *)

Module FormatedData.
Record t := { module : StatsModule; text : string; tooltip : string }.
End FormatedData.

Record StatsBar := {
  statusItems : list nat;
  timer : option nat;
  _context : option ExtensionContext;
}.

Record State := { bar : StatsBar; host : Host }.

(** [new StatsBar()], in a host that has created nothing yet. *)
Definition initial : State :=
  {| bar := {| statusItems := []; timer := None; _context := None |};
     host := {| items := []; timers := ∅; nextTimer := 0; powerShell := false |} |}.

Definition string_truthy (s : string) : bool :=
  negb (String.eqb s EmptyString).

Section Driver.
Context `{Utils}.
Variable setting : Setting.

(** *** Formatters *)

Definition dictCpuLoad (res : number) : gmap string value :=
  {[ "percent" := VStr (toFixed 0 res) ]}.

Definition formatCpuLoad (rawRes : option number) : string :=
  match rawRes with
  | Some res =>
      if truthy res then formatByDict (Format setting cpuLoad) (dictCpuLoad res)
      else "-"
  | None => "-"
  end.

(** [res[i]?.toFixed(2) || 0] *)
Definition loadavgEntry (res : list (option number)) (i : nat) : value :=
  match mjoin (res !! i) with
  | Some x =>
      let s := toFixed 2 x in
      if string_truthy s then VStr s else VNum zero
  | None => VNum zero
  end.

Definition dictLoadavg (res : list (option number)) : gmap string value :=
  {[ "1" := loadavgEntry res 0;
     "5" := loadavgEntry res 1;
     "15" := loadavgEntry res 2 ]}.

Definition formatLoadavg (rawRes : option (list (option number))) : string :=
  match rawRes with
  | Some res => formatByDict (Format setting loadavg) (dictLoadavg res)
  | None => "-"
  end.

Definition customSize : number := Num (1024 * 1024 * 1024).

(** [res.pressurePercent || 0] *)
Definition pressureOrZero (x : option number) : number :=
  match x with
  | Some v => if truthy v then v else zero
  | None => zero
  end.

Definition dictMemoUsage (res : MemoryUsage) : gmap string value :=
  let used_ :=
    formatBytes (if isDarwin then used res else active res) (Some 2%nat) (Some customSize) in
  let total_ := formatBytes (total res) (Some 2%nat) (Some customSize) in
  let percent :=
    toFixed 0 (mul (div (ToNumber (bytes_data used_)) (ToNumber (bytes_data total_)))
                   (Num 100)) in
  let pressurePercent_ :=
    toFixed 0 (mul (pressureOrZero (pressurePercent res)) (Num 100)) in
  {[ "used" := bytes_data used_;
     "total" := bytes_data total_;
     "unit" := VStr "GB";
     "percent" := VStr percent;
     "pressurePercent" := VStr pressurePercent_ ]}.

Definition formatMemoUsage (rawRes : option MemoryUsage) : string :=
  match rawRes with
  | Some res => formatByDict (Format setting memoUsage) (dictMemoUsage res)
  | None => "-"
  end.

Definition dictNetworkSpeed (res : NetworkSpeed) : gmap string value :=
  let up_ := formatBytes (up res) None None in
  let down_ := formatBytes (down res) None None in
  {[ "up" := bytes_data up_;
     "up-unit" := VStr (bytes_unit up_ +:+ "/s");
     "down" := bytes_data down_;
     "down-unit" := VStr (bytes_unit down_ +:+ "/s") ]}.

Definition formatNetworkSpeed (rawRes : option NetworkSpeed) : string :=
  match rawRes with
  | Some res => formatByDict (Format setting networkSpeed) (dictNetworkSpeed res)
  | None => "-"
  end.

Definition dictUptime (res : number) : gmap string value :=
  let data := formatTimes res in
  {[ "days" := default VUndefined (data !! 0%nat);
     "hours" := default VUndefined (data !! 1%nat);
     "minutes" := default VUndefined (data !! 2%nat) ]}.

Definition formatUptime (rawRes : option number) : string :=
  match rawRes with
  | Some res =>
      if truthy res then formatByDict (Format setting uptime) (dictUptime res)
      else "-"
  | None => "-"
  end.

Definition dictGpuLoad (gpu : GpuInfo) : gmap string value :=
  {[ "percent" := VNum (Math_round (orNaN (gpuUtilization gpu)));
     "unit" := VStr "GB";
     "used" := VStr (toFixed 2 (div (orNaN (usedMemory gpu)) (Num 1024)));
     "total" := VStr (toFixed 2 (div (orNaN (totalMemory gpu)) (Num 1024))) ]}.

Definition formatGpuLoad (rawRes : option (list GpuInfo)) : string :=
  match rawRes with
  | Some (gpu :: _) => formatByDict (Format setting gpuLoad) (dictGpuLoad gpu)
  | Some [] | None => "-"
  end.

(** The table [formatters], indexed by the kind. *)
Definition formatters (module : StatsModule) : option (Reading module) → string :=
  match module with
  | cpuLoad => formatCpuLoad
  | loadavg => formatLoadavg
  | memoUsage => formatMemoUsage
  | networkSpeed => formatNetworkSpeed
  | uptime => formatUptime
  | gpuLoad => formatGpuLoad
  end.

Definition formatRes (module : StatsModule) (rawRes : option (Reading module))
  : FormatedData.t :=
  {| FormatedData.module := module;
     FormatedData.text := formatters module rawRes;
     FormatedData.tooltip := EmptyString |}.

(** *** The tick *)

(** One entry of [promises]: the adapter of the kind at position
    [index], then the formatter.  [probe index] is what the platform
    answers to the calls made from that position.  [formatRes] returns
    an object, so the [|| '-'] after it never applies. *)
Definition promise (probe : nat → Platform) (index : nat) (module : StatsModule)
  : exc FormatedData.t :=
  res ← sysinfoData module (probe index);
  Ok (formatRes module res).

(** [await Promise.all(promises)]: all the results in order, or the
    first rejection. *)
Fixpoint PromiseAll {A} (promises : list (exc A)) : exc (list A) :=
  match promises with
  | [] => Ok []
  | pr :: rest =>
      match pr, PromiseAll rest with
      | Throw e, _ => Throw e
      | Ok _, Throw e => Throw e
      | Ok a, Ok l => Ok (a :: l)
      end
  end.

Definition setItem (id : nat) (f : StatusBarItem.t → StatusBarItem.t) (st : State)
  : State :=
  {| bar := bar st;
     host := {| items := alter f id (items (host st));
                timers := timers (host st);
                nextTimer := nextTimer (host st);
                powerShell := powerShell (host st) |} |}.

(** [data.tooltip || StatsModuleNameMap[data.module]] *)
Definition tooltipOf (data : FormatedData.t) : string :=
  if string_truthy (FormatedData.tooltip data) then FormatedData.tooltip data
  else StatsModuleNameMap (FormatedData.module data).

(** The callback of [res.forEach]. *)
Definition writeSlot (data : FormatedData.t) (index : nat) (st : State) : exc State :=
  if decide (FormatedData.text data = "-") then Ok st
  else
    match statusItems (bar st) !! index with
    | None => Throw "TypeError: curStatusItem is undefined"
    | Some curStatusItem =>
        Ok (setItem curStatusItem
              (StatusBarItem.write (FormatedData.text data) (tooltipOf data)) st)
    end.

(** [res.forEach(...)] from position [index] on; a throw leaves the
    writes made so far in place. *)
Fixpoint forEach (res : list FormatedData.t) (index : nat) (st : State)
  : exc unit * State :=
  match res with
  | [] => (Ok (), st)
  | data :: rest =>
      match writeSlot data index st with
      | Ok st' => forEach rest (S index) st'
      | Throw e => (Throw e, st)
      end
  end.

Definition getSysInfo (probe : nat → Platform) (st : State) : exc unit * State :=
  match PromiseAll (imap (promise probe) (curModules setting)) with
  | Ok res => forEach res 0 st
  | Throw e => (Throw e, st)
  end.

(** *** Start and stop *)

Definition disposeItems (ids : list nat) (st : State) : State :=
  foldl (λ st id, setItem id StatusBarItem.dispose st) st ids.

(** [this.timer = setInterval(..., ms)] *)
Definition setInterval (ms : Z) (st : State) : State :=
  let h := host st in
  {| bar := {| statusItems := statusItems (bar st);
               timer := Some (nextTimer h);
               _context := _context (bar st) |};
     host := {| items := items h;
                timers := <[ nextTimer h := ms ]> (timers h);
                nextTimer := S (nextTimer h);
                powerShell := powerShell h |} |}.

(** [update] calls [getSysInfo] without awaiting it and arms the
    interval; the writes of that first tick, like those of every later
    one, happen after [update] has returned. *)
Definition update (st : State) : State :=
  setInterval
    (orDefault (RefreshInterval setting) (default_refreshInterval setting)) st.

Definition createStatusBarItems (n : nat) (alignment : option Z) (priority : Z)
    (ctx : ExtensionContext) (st : State) : State :=
  let h := host st in
  let created := seq (length (items h)) n in
  {| bar := {| statusItems := created;
               timer := timer (bar st);
               _context := Some {| subscriptions := subscriptions ctx ++ created |} |};
     host := {| items := items h ++ replicate n (StatusBarItem.create alignment priority);
                timers := timers h;
                nextTimer := nextTimer h;
                powerShell := powerShell h |} |}.

Definition start (st : State) : State :=
  match _context (bar st) with
  | None => st
  | Some ctx =>
      let st := disposeItems (statusItems (bar st)) st in
      if negb (AllEnabled setting) || bool_decide (length (curModules setting) = 0%nat)
      then st
      else
        let location := orLeft (Location setting) in
        let priority := orDefault (Priority setting) (default_priority setting) in
        update (createStatusBarItems (length (curModules setting))
                  (StatusBarAlignment location) priority ctx st)
  end.

Definition siInit (st : State) : State :=
  if isWin32 then
    {| bar := bar st;
       host := {| items := items (host st); timers := timers (host st);
                  nextTimer := nextTimer (host st); powerShell := true |} |}
  else st.

Definition siRelease (st : State) : State :=
  if isWin32 then
    {| bar := bar st;
       host := {| items := items (host st); timers := timers (host st);
                  nextTimer := nextTimer (host st); powerShell := false |} |}
  else st.

Definition init (context : ExtensionContext) (st : State) : State :=
  let st := {| bar := {| statusItems := statusItems (bar st);
                         timer := timer (bar st);
                         _context := Some context |};
               host := host st |} in
  start (siInit st).

Definition clearInterval (t : nat) (st : State) : State :=
  {| bar := bar st;
     host := {| items := items (host st);
                timers := delete t (timers (host st));
                nextTimer := nextTimer (host st);
                powerShell := powerShell (host st) |} |}.

Definition cancelUpdate (isDeactivate : bool) (st : State) : State :=
  let st := if isDeactivate then siRelease st else st in
  match timer (bar st) with
  | Some t => clearInterval t st
  | None => st
  end.

Definition onSettingUpdate (st : State) : State :=
  start (cancelUpdate false st).

End Driver.

(** ** Template substitution *)

Module Template.

(** A format string read as literal text and named placeholders; [raw]
    is the placeholder as it stands in the format string. *)
Inductive token : Type :=
  | Text (s : string)
  | Hole (name raw : string).




Section Substitution.
(** The placeholder syntax, and how a value is written into the text. *)
Variable lex : string → list token.
Variable show : value → string.

(** What one token contributes to the output. *)
Definition fill (dict : gmap string value) (t : token) : string :=
  match t with
  | Text s => s
  | Hole name raw =>
      match dict !! name with
      | Some v => show v
      | None => raw
      end
  end.

(** Modelled from the spec: [formatByDict] of [./utils], whose source is
    not available.  It replaces the named placeholders of
    a format string with the values of the dictionary, and leaves a
    placeholder without an entry verbatim.  The spec does not fix how a
    placeholder is written, so the syntax is the parameter [lex]. *)
Definition formatByDict (format : string) (dict : gmap string value) : string :=
  foldr (λ t acc, fill dict t +:+ acc) EmptyString (lex format).

End Substitution.

(** The syntax [${name}]: a dollar sign, an opening brace, a non-empty
    name without a closing brace, and a closing brace. *)
Definition holeAt (l : list ascii) : option (list ascii) :=
  match l with
  | "$"%char :: "{"%char :: rest =>
      match span (λ c, negb (Ascii.eqb c "}")) rest with
      | ((_ :: _) as name, "}"%char :: _) => Some name
      | _ => None
      end
  | _ => None
  end.

Fixpoint lexChars (skip : nat) (l : list ascii) : list token :=
  match l with
  | [] => []
  | c :: l' =>
      match skip with
      | S k => lexChars k l'
      | O =>
          match holeAt l with
          | Some name =>
              Hole (str name) (str ("$"%char :: "{"%char :: name ++ ["}"%char]))
              :: lexChars (length name + 2) l'
          | None => Text (String c EmptyString) :: lexChars 0 l'
          end
      end
  end.

Definition dollarBrace (format : string) : list token :=
  lexChars 0 (chars format).


End Template.

(** ** An implementation of [./utils] *)

Module SpecUtils.

(** [String(x)] for the numbers a dictionary holds: integers and
    decimals with a finite expansion are written out exactly, up to 20
    places; anything else is cut at 17 places. *)
Definition decimals (q : Q) : nat :=
  default 17%nat
    (head (filter (λ f, bool_decide (Qden (Qred (q * inject_Z (pow10 f))) = 1%positive))
                  (seq 0 21))).

Definition NumberToString (x : number) : string :=
  match x with
  | Num q => if Qeq_bool q 0 then "0" else toFixed (decimals q) x
  | other => toFixed 0 other
  end.

Definition ToString (v : value) : string :=
  match v with
  | VUndefined => "undefined"
  | VNum n => NumberToString n
  | VStr s => s
  end.

Definition sizes : list string :=
  ["B"; "KB"; "MB"; "GB"; "TB"; "PB"; "EB"; "ZB"; "YB"].

(** The number of the unit: how many of 1024, 1024^2, ..., 1024^8 the
    byte count reaches. *)
Definition magnitude (bytes : number) : nat :=
  match bytes with
  | Num q =>
      length (filter (λ k, Qle_bool (inject_Z (1024 ^ Z.of_nat k)) q) (seq 1 8))
  | Infinity => 8%nat
  | NegZero | NaN | NegInfinity => 0%nat
  end.

(** Modelled from the spec: [formatBytes] of [./utils].  Bytes are
    converted to a unit chosen by magnitude among B, KB, MB, ..., or to
    the unit of size [customSize] when one is given, and written with
    [decimals] decimals (2 by default). *)
Definition formatBytes (bytes : number) (decimals : option nat)
    (customSize : option number) : Bytes :=
  let dm := default 2%nat decimals in
  let i := magnitude bytes in
  let size := default (ofZ (1024 ^ Z.of_nat i)) customSize in
  {| bytes_data := VStr (toFixed dm (div bytes size));
     bytes_unit := default "B" (sizes !! i) |}.

(** Modelled from the spec: [formatTimes] of [./utils].  Seconds are
    decomposed into days, hours and minutes; the remaining seconds are
    dropped. *)
Definition formatTimes (seconds : number) : list value :=
  match seconds with
  | Num q =>
      let s := Qfloor q in
      [VNum (ofZ (s / 86400)); VNum (ofZ (s mod 86400 / 3600));
       VNum (ofZ (s mod 3600 / 60))]
  | NegZero => [VNum NegZero; VNum NegZero; VNum NegZero]
  | other => [VNum other; VNum NaN; VNum NaN]
  end.

Definition utils (isDarwin isWin32 : bool) : Utils :=
  Build_Utils formatBytes formatTimes
    (Template.formatByDict Template.dollarBrace ToString)
    isDarwin isWin32.

End SpecUtils.

(** ** The driver in its environment

    A world is the configuration store together with the driver and the
    host.  The extension calls [init] once, on the fresh instance; a
    change of the configuration replaces the store and calls
    [onSettingUpdate]; a tick runs [getSysInfo] against whatever the
    platform answers; deactivation calls [cancelUpdate(true)].  A tick
    is one step: the adapters are awaited together and the slots are
    then written in one go, as the event loop runs the callback. *)

Record World := { setting : Setting; state : State }.

Section Lifecycle.
Context `{Utils}.

Inductive step : World → World → Prop :=
  | step_init context w :
      _context (bar (state w)) = None →
      step w {| setting := setting w;
                state := init (setting w) context (state w) |}
  | step_configuration setting' w :
      step w {| setting := setting';
                state := onSettingUpdate setting' (state w) |}
  | step_tick probe w :
      step w {| setting := setting w;
                state := (getSysInfo (setting w) probe (state w)).2 |}
  | step_deactivate w :
      step w {| setting := setting w;
                state := cancelUpdate true (state w) |}.

Definition reachable (w : World) : Prop :=
  ∃ setting0, rtc step {| setting := setting0; state := initial |} w.

End Lifecycle.

(** A display slot is a status bar item that has not been disposed of.
    [slots] lists the slots in the order of their creation. *)
Definition isLive (h : Host) (id : nat) : bool :=
  match items h !! id with
  | Some it => negb (StatusBarItem.disposed it)
  | None => false
  end.

Definition slots (h : Host) : list nat :=
  filter (λ id, isLive h id) (seq 0 (length (items h))).

(** The Idle state: no slots, no timer. *)
Definition Idle (st : State) : Prop :=
  slots (host st) = [] ∧ timers (host st) = ∅.

(** The Running state: the timer of the driver is armed, and no
    other. *)
Definition Running (st : State) : Prop :=
  ∃ t ms, timer (bar st) = Some t ∧ timers (host st) = {[ t := ms ]}.

(** What a tick does to the item of a slot, given the formatted result
    for its position. *)
Definition tickItem (data : FormatedData.t) (it : StatusBarItem.t) : StatusBarItem.t :=
  if decide (FormatedData.text data = "-") then it
  else StatusBarItem.write (FormatedData.text data) (tooltipOf data) it.

(** The reading that reaches the formatter of [module]: what its
    adapter returns, and nothing when it throws. *)
Definition reading `{Utils} (module : StatsModule) (p : Platform)
  : option (Reading module) :=
  match sysinfoData module p with
  | Ok res => res
  | Throw _ => None
  end.

(** The formatted results of a tick, in the order of the enabled kinds. *)
Definition results `{Utils} (setting : Setting) (probe : nat → Platform)
  : list FormatedData.t :=
  imap (λ index module, formatRes setting module (reading module (probe index)))
       (curModules setting).

(** The kind a slot stands for: the enabled kind at the position the
    item has in [statusItems]. *)
Definition slotKind (setting : Setting) (st : State) (id : nat) : option StatsModule :=
  '(index, _) ← list_find (λ x, x = id) (statusItems (bar st));
  curModules setting !! index.

(** The invariant of the reachable worlds. *)
Record Inv (w : World) : Prop := {
  inv_timer : ∀ t, is_Some (timers (host (state w)) !! t) →
              timer (bar (state w)) = Some t;
  inv_slots : ∀ id, isLive (host (state w)) id → id ∈ statusItems (bar (state w));
  inv_nodup : NoDup (statusItems (bar (state w)));
  inv_context : _context (bar (state w)) = None →
                statusItems (bar (state w)) = [] ∧ timers (host (state w)) = ∅;
  inv_running : timers (host (state w)) ≠ ∅ →
                AllEnabled (setting w) = true ∧
                statusItems (bar (state w)) = slots (host (state w)) ∧
                length (statusItems (bar (state w))) = length (curModules (setting w));
}.

(** ** Sample inputs *)

Module Sample.

(** A Linux host: neither Darwin nor Win32. *)
Definition utils : Utils := SpecUtils.utils false false.

Definition darwin : Utils := SpecUtils.utils true false.

Definition templates (module : StatsModule) : string :=
  match module with
  | cpuLoad => "${percent}%"
  | loadavg => "${1}, ${5}, ${15}"
  | networkSpeed => "${down}${down-unit} ${up}${up-unit}"
  | memoUsage => "${used}/${total} ${unit}, ${percent}%"
  | uptime => "${days}d ${hours}h ${minutes}m"
  | gpuLoad => "${percent}% ${used}/${total} ${unit}"
  end.

Definition setting (enabled : bool) (modules : list StatsModule) : Setting :=
  {| AllEnabled := enabled;
     curModules := modules;
     Location := None;
     Priority := None;
     RefreshInterval := None;
     default_priority := (-1)%Z;
     default_refreshInterval := 1500%Z;
     Format := templates |}.

Definition context : ExtensionContext := {| subscriptions := [] |}.

(** A platform, by what the CPU load call, the uptime call and the
    shell answer. *)
Definition platform (load : exc CurrentLoadData) (up : exc number)
    (shell : string → exc ExecResult) : Platform :=
  {| si_currentLoad := load;
     os_loadavg := Ok [Some (Num (1234 # 1000)); Some (Num (1 # 2)); None];
     si_networkInterfaceDefault := Ok "eth0";
     si_networkStats := λ _, Ok [{| tx_sec := Num 2048; rx_sec := Num 512 |}];
     os_uptime := up;
     getMacOsMemoryUsageInfo := Throw "unsupported";
     si_mem := Ok {| mem_total := Num (16 * 1024 * 1024 * 1024);
                     mem_used := Num (9 * 1024 * 1024 * 1024);
                     mem_active := Num (8 * 1024 * 1024 * 1024) |};
     execPromise := shell |}.

Definition noShell : string → exc ExecResult := λ _, Throw "ENOENT".

(** An x86 machine whose first GPU reports [[N/A]] in every field. *)
Definition nvidiaShell (command : string) : exc ExecResult :=
  if bool_decide (command = "uname -m")
  then Ok {| stdout := "x86_64" +:+ LF; stderr := EmptyString |}
  else Ok {| stdout := "[N/A], [N/A], [N/A]" +:+ LF +:+ "8192, 1024, 37" +:+ LF;
             stderr := EmptyString |}.

(** A Tegra machine whose statistics tool prints one line without the
    memory and load figures, then one with them. *)
Definition tegraShell (lines : string) (command : string) : exc ExecResult :=
  if bool_decide (command = "uname -m")
  then Ok {| stdout := "aarch64-tegra" +:+ LF; stderr := EmptyString |}
  else Ok {| stdout := lines; stderr := EmptyString |}.

Definition busy : Platform :=
  platform (Ok {| currentLoad := Num (4321 # 100) |}) (Ok (Num 90065)) noShell.

Definition idle : Platform :=
  platform (Ok {| currentLoad := Num 0 |}) (Ok (Num 0)) noShell.

Definition failing : Platform :=
  platform (Throw "EPERM") (Throw "EPERM") noShell.

Definition tegraNoFigures : Platform :=
  platform (Throw "EPERM") (Ok (Num 90065)) (tegraShell "starting up").

(** The world after [init], with the given kinds enabled. *)
Definition started (modules : list StatsModule) : World :=
  Build_World (setting true modules)
    (init (H := utils) (setting true modules) context initial).

(** A reading of the memory adapter on Darwin: 8 GiB used of 16 GiB, at
    a pressure of 0.5. *)
Definition memory : MemoryUsage :=
  {| total := Num (16 * 1024 * 1024 * 1024);
     used := Num (8 * 1024 * 1024 * 1024);
     active := Num (6 * 1024 * 1024 * 1024);
     pressurePercent := Some (Num (1 # 2));
     usagePercent := Some (Num (1 # 2)) |}.

End Sample.

(** ** The reachable worlds, continued; the rest of [sysinfo/index.ts] *)

(** What the reachable worlds keep besides [Inv]: the period of an armed
    interval, the slots, the registration of the items with the
    extension context, and the PowerShell session. *)
Record Kept `{Utils} (w : World) : Prop := {
  kept_period : ∀ t ms, timers (host (state w)) !! t = Some ms →
    ms = orDefault (RefreshInterval (setting w)) (default_refreshInterval (setting w));
  kept_slots : slots (host (state w)) = [] ∨
    (slots (host (state w)) = statusItems (bar (state w)) ∧
     length (statusItems (bar (state w))) = length (curModules (setting w)) ∧
     AllEnabled (setting w) = true);
  kept_ids : ∀ id, id ∈ statusItems (bar (state w)) →
    id < length (items (host (state w)));
  kept_items : match _context (bar (state w)) with
    | Some context => ∀ id, id < length (items (host (state w))) →
                            id ∈ subscriptions context
    | None => items (host (state w)) = []
    end;
  kept_shell : powerShell (host (state w)) = true →
    isWin32 = true ∧ is_Some (_context (bar (state w)));
}.

(** An item after a tick, next to the item before it: a tick sets
    the text and the tooltip and shows the item, and nothing else. *)
Definition sameButDisplay (it it' : StatusBarItem.t) : Prop :=
  StatusBarItem.alignment it' = StatusBarItem.alignment it ∧
  StatusBarItem.priority it' = StatusBarItem.priority it ∧
  StatusBarItem.disposed it' = StatusBarItem.disposed it.

(** Successive ticks, each against what the platform answers then. *)
Definition ticks `{Utils} (setting : Setting) (probes : list (nat → Platform))
    (st : State) : State :=
  foldl (λ st probe, (getSysInfo setting probe st).2) st probes.

(** The last of a series of results that is not the placeholder. *)
Definition latest (datas : list FormatedData.t) : option FormatedData.t :=
  last (filter (λ data, FormatedData.text data ≠ "-") datas).

(** What a tool prints that writes the given lines, each ended by a line
    feed. *)
Definition unlines (lines : list string) : string :=
  foldr (λ line out, line +:+ LF +:+ out) EmptyString lines.

(** The lines, with a line feed between one and the next. *)
Fixpoint joined (lines : list (list ascii)) : list ascii :=
  match lines with
  | [] => []
  | [l] => l
  | l :: rest => l ++ "010"%char :: joined rest
  end.

(** [getCpuSpeed] and [getIP] are exported next to the adapters, and no
    metric kind uses them.  They make two more calls to the
    [systeminformation] library; [si.networkInterfaces()] answers with
    one interface or with an array of them. *)
Module Exported.

Record CpuCurrentSpeedData := { avg : number }.
Record NetworkInterfacesData := { iface : string; ip4 : string }.

Definition getCpuSpeed (si_cpuCurrentSpeed : exc CpuCurrentSpeedData)
  : exc (option number) :=
  try_catch
    (res ← si_cpuCurrentSpeed;
     Ok (Some (avg res)))
    (λ _, Ok None).

(** [Array.isArray(res) ? res : [res]] *)
Definition asArray {A} (res : A + list A) : list A :=
  match res with
  | inl one => [one]
  | inr many => many
  end.

Definition getIP (p : Platform)
    (si_networkInterfaces : exc (NetworkInterfacesData + list NetworkInterfacesData))
  : exc (option string) :=
  defaultInterface ← si_networkInterfaceDefault p;
  res ← si_networkInterfaces;
  let interfaces := asArray res in
  let cur := snd <$> list_find (λ item, iface item = defaultInterface) interfaces in
  Ok (ip4 <$> cur).

End Exported.

(** More sample inputs: a machine by what [uname -m] and the GPU tool
    print, and a Win32 host. *)
Module Machine.

Definition shell (arch : string) (tool : exc ExecResult) (command : string)
  : exc ExecResult :=
  if bool_decide (command = "uname -m")
  then Ok {| stdout := arch +:+ LF; stderr := EmptyString |}
  else tool.

Definition platform (arch : string) (tool : exc ExecResult) : Platform :=
  Sample.platform (Throw "EPERM") (Throw "EPERM") (shell arch tool).

Definition prints (out : string) : exc ExecResult :=
  Ok {| stdout := out; stderr := EmptyString |}.

Definition win32 : Utils := SpecUtils.utils false true.

End Machine.

(** * Properties *)

(** ** Strings and numbers *)

Section StringFacts.

Lemma append_cons (c : ascii) (a b : string) :
  String c a +:+ b = String c (a +:+ b).
Proof. reflexivity. Qed.

Lemma append_empty_l (b : string) : EmptyString +:+ b = b.
Proof. reflexivity. Qed.

Lemma append_length (a b : string) :
  String.length (a +:+ b) = (String.length a + String.length b)%nat.
Proof.
  induction a as [|c a IH]; [done|].
  rewrite append_cons. simpl. by rewrite IH.
Qed.

Lemma substring_all (s : string) : String.substring 0 (String.length s) s = s.
Proof. induction s as [|c s IH]; simpl; [done|]. by rewrite IH. Qed.

Lemma substring_length (s : string) (k f : nat) :
  (k + f ≤ String.length s)%nat → String.length (String.substring k f s) = f.
Proof.
  revert k f. induction s as [|c s IH]; intros k f Hle; simpl in *.
  - assert (k = 0 ∧ f = 0)%nat as [-> ->] by lia. done.
  - destruct k as [|k].
    + destruct f as [|f]; simpl; [done|]. rewrite IH; [done|lia].
    + apply IH. lia.
Qed.

Lemma substring_split (s : string) (k f : nat) :
  (k + f = String.length s)%nat →
  String.substring 0 k s +:+ String.substring k f s = s.
Proof.
  revert k f. induction s as [|c s IH]; intros k f Hlen; simpl in *.
  - assert (k = 0 ∧ f = 0)%nat as [-> ->] by lia. done.
  - destruct k as [|k]; simpl.
    + destruct f as [|f]; [lia|]. rewrite append_empty_l. f_equal.
      assert (f = String.length s) as -> by lia. apply substring_all.
    + rewrite append_cons. f_equal. apply IH. lia.
Qed.

Lemma zeros_length (k : nat) : String.length (zeros k) = k.
Proof. induction k; simpl; congruence. Qed.


Lemma length_pos_nonempty (s : string) : (0 < String.length s)%nat → s ≠ EmptyString.
Proof. by destruct s; simpl; [lia|]. Qed.

Lemma nonempty_length_pos (s : string) : s ≠ EmptyString → (0 < String.length s)%nat.
Proof. destruct s; simpl; [done|lia]. Qed.

End StringFacts.

Section NumberFacts.

Lemma round_half_up_nearest (q : Q) :
  (inject_Z (round_half_up q) - (1 # 2) <= q)%Q ∧
  (q < inject_Z (round_half_up q) + (1 # 2))%Q.
Proof.
  unfold round_half_up.
  pose proof (Qfloor_le (q + (1 # 2))) as Hle.
  pose proof (Qlt_floor (q + (1 # 2))) as Hlt.
  rewrite inject_Z_plus in Hlt. change (inject_Z 1) with 1%Q in Hlt.
  revert Hle Hlt. generalize (inject_Z (Qfloor (q + (1 # 2)))). intros z Hle Hlt.
  split; lra.
Qed.

Lemma pretty_N_go_nonempty (x : N) (s : string) :
  s ≠ EmptyString → pretty_N_go x s ≠ EmptyString.
Proof.
  revert s. induction (N.lt_wf_0 x) as [x _ IH]; intros s Hs.
  destruct (decide (0 < x)%N) as [Hx|Hx].
  - rewrite pretty_N_go_step by done. apply IH; [|done].
    apply N.div_lt; lia.
  - assert (x = 0%N) as -> by lia. by rewrite pretty_N_go_0.
Qed.

Lemma pretty_N_nonempty (x : N) : pretty x ≠ EmptyString.
Proof.
  unfold pretty, pretty_N. case_decide; [done|].
  destruct (decide (0 < x)%N) as [Hx|Hx]; [|lia].
  rewrite pretty_N_go_step by done. by apply pretty_N_go_nonempty.
Qed.

Lemma padded_length (f : nat) (n : Z) : (f < String.length (padded f n))%nat.
Proof.
  unfold padded. rewrite append_length, zeros_length.
  pose proof (nonempty_length_pos _ (pretty_N_nonempty (Z.to_N n))). lia.
Qed.

Lemma place_point_integer (n : Z) : place_point 0 n = pretty (Z.to_N n).
Proof.
  unfold place_point, padded.
  pose proof (nonempty_length_pos _ (pretty_N_nonempty (Z.to_N n))) as Hlen.
  replace (1 - String.length (pretty (Z.to_N n)))%nat with 0%nat by lia.
  done.
Qed.

Lemma place_point_decimals (f : nat) (n : Z) :
  f ≠ 0%nat →
  ∃ a b, place_point f n = a +:+ "." +:+ b ∧
         String.length b = f ∧ a ≠ EmptyString ∧ a +:+ b = padded f n.
Proof.
  intros Hf. pose proof (padded_length f n) as Hlen.
  unfold place_point.
  destruct f as [|f]; [done|].
  set (k := String.length (padded (S f) n)) in *.
  exists (String.substring 0 (k - S f) (padded (S f) n)),
         (String.substring (k - S f) (S f) (padded (S f) n)).
  split; [done|]. split; [apply substring_length; lia|]. split.
  - apply length_pos_nonempty. rewrite substring_length; lia.
  - apply substring_split. lia.
Qed.





Lemma Qneg_false (q : Q) : (0 <= q)%Q → Qneg q = false.
Proof.
  unfold Qneg, Qle. simpl. intros Hq. apply Z.ltb_ge. lia.
Qed.

Lemma Qabs_nonneg_eq (q : Q) : (0 <= q)%Q → Qabs q = q.
Proof.
  destruct q as [n d]. unfold Qle. simpl. intros Hq.
  f_equal. apply Z.abs_eq. lia.
Qed.

(** [toFixed] of a number that is not negative: the numeral of the
    nearest multiple of [10^-f]. *)
Lemma toFixed_nonneg (f : nat) (q : Q) :
  (0 <= q)%Q →
  (q < inject_Z (pow10 21))%Q →
  toFixed f (Num q) = place_point f (fixed_digits f q).
Proof.
  intros Hq Hlt. unfold toFixed. rewrite Qneg_false, Qabs_nonneg_eq by done.
  destruct (Qle_bool (inject_Z (pow10 21)) q) eqn:Hbig; [|done].
  apply Qle_bool_iff in Hbig. by apply Qle_not_lt in Hbig.
Qed.


Lemma fixed_digits_nearest (f : nat) (a : Q) :
  (inject_Z (fixed_digits f a) - (1 # 2) <= a * inject_Z (pow10 f))%Q ∧
  (a * inject_Z (pow10 f) < inject_Z (fixed_digits f a) + (1 # 2))%Q.
Proof. apply round_half_up_nearest. Qed.

End NumberFacts.

(** ** The adapters *)

Section AdapterFacts.
Context `{Utils}.

Lemma try_catch_returns {A} (body : exc A) (handler : string → exc A) :
  (∀ e, returns (handler e)) → returns (try_catch body handler).
Proof. intros Hh. destruct body as [a|e]; simpl; [by exists a|apply Hh]. Qed.

Local Ltac swallowed := apply try_catch_returns; intros _; by eexists.

Lemma getCpuLoad_returns p : returns (getCpuLoad p).
Proof. swallowed. Qed.
Lemma getLoadavg_returns p : returns (getLoadavg p).
Proof. swallowed. Qed.
Lemma getNetworkSpeed_returns p : returns (getNetworkSpeed p).
Proof. swallowed. Qed.
Lemma getUpTime_returns p : returns (getUpTime p).
Proof. swallowed. Qed.
Lemma getMemoryUsage_returns p : returns (getMemoryUsage p).
Proof. swallowed. Qed.
Lemma getX86GpuInfo_returns p : returns (getX86GpuInfo p).
Proof. swallowed. Qed.
Lemma getTegraInfo_returns p : returns (getTegraInfo p).
Proof. swallowed. Qed.
Lemma detectPlatform_returns p : returns (detectPlatform p).
Proof. swallowed. Qed.
Lemma getGpuLoad_returns p : returns (getGpuLoad p).
Proof. apply detectPlatform_returns. Qed.

Lemma sysinfoData_returns module p : returns (sysinfoData module p).
Proof.
  destruct module; simpl;
    auto using getCpuLoad_returns, getLoadavg_returns, getNetworkSpeed_returns,
      getUpTime_returns, getMemoryUsage_returns, getGpuLoad_returns.
Qed.

Lemma sysinfoData_reading module p : sysinfoData module p = Ok (reading module p).
Proof.
  unfold reading. by destruct (sysinfoData_returns module p) as [res ->].
Qed.

End AdapterFacts.

(** ** Slots and ticks *)

Section HostFacts.
Implicit Types (st : State) (h : Host).

Lemma isLive_lt h id : isLive h id → id < length (items h).
Proof.
  unfold isLive. destruct (items h !! id) eqn:Hid; [|done].
  intros _. by eapply lookup_lt_Some.
Qed.

Lemma elem_of_slots h id : id ∈ slots h ↔ isLive h id.
Proof.
  unfold slots. rewrite list_elem_of_filter, elem_of_seq. split; [tauto|].
  intros Hlive. split; [done|]. pose proof (isLive_lt _ _ Hlive). lia.
Qed.

Lemma slots_ext h h' :
  length (items h') = length (items h) →
  (∀ id, isLive h' id = isLive h id) →
  slots h' = slots h.
Proof.
  intros Hlen Hlive. unfold slots. rewrite Hlen.
  apply list_filter_iff. intros id. by rewrite Hlive.
Qed.

Lemma filter_none {A} (P : A → Prop) `{∀ x, Decision (P x)} (l : list A) :
  (∀ x, x ∈ l → ¬ P x) → filter P l = [].
Proof.
  induction l as [|x l IH]; intros Hl; [done|].
  rewrite filter_cons_False by (apply Hl; left).
  apply IH. intros y Hy. apply Hl. by right.
Qed.

Lemma filter_all {A} (P : A → Prop) `{∀ x, Decision (P x)} (l : list A) :
  (∀ x, x ∈ l → P x) → filter P l = l.
Proof.
  induction l as [|x l IH]; intros Hl; [done|].
  rewrite filter_cons_True by (apply Hl; left).
  f_equal. apply IH. intros y Hy. apply Hl. by right.
Qed.

Lemma slots_nil h : (∀ id, ¬ isLive h id) → slots h = [].
Proof. intros Hdead. apply filter_none. intros id _. apply Hdead. Qed.

Lemma isLive_setItem id f st j :
  isLive (host (setItem id f st)) j =
  if decide (id = j)
  then from_option (λ it, negb (StatusBarItem.disposed (f it))) false (items (host st) !! j)
  else isLive (host st) j.
Proof.
  unfold isLive. simpl. case_decide as Hid.
  - subst. rewrite list_lookup_alter_eq. by destruct (items (host st) !! j).
  - by rewrite list_lookup_alter_ne.
Qed.

Lemma isLive_setItem_keep id f st j :
  (∀ it, StatusBarItem.disposed (f it) = StatusBarItem.disposed it) →
  isLive (host (setItem id f st)) j = isLive (host st) j.
Proof.
  intros Hf. rewrite isLive_setItem. case_decide; [|done].
  unfold isLive. destruct (items (host st) !! j); simpl; [|done]. by rewrite Hf.
Qed.

End HostFacts.

Section TickFacts.
Context `{Utils}.
Implicit Types (st : State) (setting : Setting).

Lemma PromiseAll_Ok {A B} (f : nat → A → exc B) (g : nat → A → B) (l : list A) :
  (∀ i x, f i x = Ok (g i x)) → PromiseAll (imap f l) = Ok (imap g l).
Proof.
  revert f g. induction l as [|x l IH]; intros f g Hfg; [done|].
  rewrite !imap_cons. simpl. rewrite Hfg.
  rewrite (IH (f ∘ S) (g ∘ S)); [done|]. intros i y. apply Hfg.
Qed.

Lemma PromiseAll_promises setting probe :
  PromiseAll (imap (promise setting probe) (curModules setting)) =
  Ok (results setting probe).
Proof.
  apply PromiseAll_Ok. intros i module. unfold promise.
  by rewrite sysinfoData_reading.
Qed.

Lemma getSysInfo_forEach setting probe st :
  getSysInfo setting probe st = forEach (results setting probe) 0 st.
Proof. unfold getSysInfo. by rewrite PromiseAll_promises. Qed.

Lemma writeSlot_Ok data index st id :
  statusItems (bar st) !! index = Some id →
  writeSlot data index st = Ok (setItem id (tickItem data) st).
Proof.
  intros Hid. unfold writeSlot, tickItem. case_decide as Htext.
  - f_equal. destruct st as [b [its ts nt ps]]. unfold setItem. simpl.
    by rewrite list_alter_id.
  - by rewrite Hid.
Qed.

Lemma writeSlot_frame data index st st' :
  writeSlot data index st = Ok st' →
  bar st' = bar st ∧
  timers (host st') = timers (host st) ∧
  length (items (host st')) = length (items (host st)) ∧
  ∀ id, isLive (host st') id = isLive (host st) id.
Proof.
  unfold writeSlot. case_decide; [by intros [= <-]|].
  destruct (statusItems (bar st) !! index) as [id|]; [|done].
  intros [= <-]. split_and!; try done.
  - simpl. apply length_alter.
  - intros j. by apply isLive_setItem_keep.
Qed.

(** Whatever a tick does, and however it ends, it touches neither the
    driver, nor the timers, nor the set of slots. *)
Lemma forEach_frame res index st :
  let st' := (forEach res index st).2 in
  bar st' = bar st ∧
  timers (host st') = timers (host st) ∧
  length (items (host st')) = length (items (host st)) ∧
  ∀ id, isLive (host st') id = isLive (host st) id.
Proof.
  revert index st. induction res as [|data rest IH]; intros index st; simpl; [done|].
  destruct (writeSlot data index st) as [st1|e] eqn:Hw; simpl; [|done].
  destruct (writeSlot_frame _ _ _ _ Hw) as (Hb & Ht & Hl & Hlive).
  destruct (IH (S index) st1) as (Hb' & Ht' & Hl' & Hlive').
  split_and!; [congruence..|]. intros id. by rewrite Hlive', Hlive.
Qed.

Lemma getSysInfo_frame setting probe st :
  let st' := (getSysInfo setting probe st).2 in
  bar st' = bar st ∧
  timers (host st') = timers (host st) ∧
  length (items (host st')) = length (items (host st)) ∧
  ∀ id, isLive (host st') id = isLive (host st) id.
Proof. rewrite getSysInfo_forEach. apply forEach_frame. Qed.

Lemma forEach_writes res index st :
  NoDup (statusItems (bar st)) →
  index + length res ≤ length (statusItems (bar st)) →
  ∃ st', forEach res index st = (Ok (), st') ∧
    (∀ i data id,
        res !! i = Some data →
        statusItems (bar st) !! (index + i) = Some id →
        items (host st') !! id = tickItem data <$> items (host st) !! id) ∧
    (∀ id,
        (∀ i, i < length res → statusItems (bar st) !! (index + i) ≠ Some id) →
        items (host st') !! id = items (host st) !! id).
Proof.
  intros Hnodup. revert index st Hnodup.
  induction res as [|data rest IH]; intros index st Hnodup Hlen; simpl in *.
  { exists st. split_and!; [done| |done]. intros i data id Hi. by rewrite lookup_nil in Hi. }
  destruct (lookup_lt_is_Some_2 (statusItems (bar st)) index) as [id0 Hid0]; [lia|].
  rewrite (writeSlot_Ok _ _ _ _ Hid0).
  destruct (IH (S index) (setItem id0 (tickItem data) st)) as (st' & -> & Hin & Hout);
    [done|simpl; lia|].
  simpl in Hin, Hout. exists st'. split_and!; [done| |].
  - intros [|i] data' id Hdata Hid.
    + rewrite Nat.add_0_r in Hid. simplify_eq/=.
      rewrite Hout; [apply list_lookup_alter_eq|].
      intros i _ Hi. pose proof (NoDup_lookup _ _ _ _ Hnodup Hid0 Hi). lia.
    + simpl in Hdata. replace (index + S i) with (S (index + i)) in Hid by lia.
      rewrite (Hin _ _ _ Hdata Hid). f_equal. apply list_lookup_alter_ne.
      intros ->. pose proof (NoDup_lookup _ _ _ _ Hnodup Hid0 Hid). lia.
  - intros id Hid. rewrite Hout.
    + apply list_lookup_alter_ne. intros ->.
      apply (Hid 0); [lia|]. by rewrite Nat.add_0_r.
    + intros i Hi. replace (S (index + i)) with (index + S i) by lia. apply Hid. lia.
Qed.

Lemma results_length setting probe :
  length (results setting probe) = length (curModules setting).
Proof. apply length_imap. Qed.

Lemma results_lookup setting probe i module :
  curModules setting !! i = Some module →
  results setting probe !! i =
  Some (formatRes setting module (reading module (probe i))).
Proof. intros Hi. unfold results. by rewrite list_lookup_imap, Hi. Qed.

(** A tick over slots that match the enabled kinds. *)
Lemma getSysInfo_writes setting probe st :
  NoDup (statusItems (bar st)) →
  length (statusItems (bar st)) = length (curModules setting) →
  ∃ st', getSysInfo setting probe st = (Ok (), st') ∧
    (∀ i module id,
        curModules setting !! i = Some module →
        statusItems (bar st) !! i = Some id →
        items (host st') !! id =
        tickItem (formatRes setting module (reading module (probe i)))
          <$> items (host st) !! id) ∧
    (∀ id, id ∉ statusItems (bar st) →
        items (host st') !! id = items (host st) !! id).
Proof.
  intros Hnodup Hlen. rewrite getSysInfo_forEach.
  destruct (forEach_writes (results setting probe) 0 st Hnodup) as (st' & -> & Hin & Hout).
  { rewrite results_length. lia. }
  exists st'. split_and!; [done| |].
  - intros i module id Hm Hid. apply (Hin i); [by apply results_lookup|done].
  - intros id Hid. apply Hout. intros i _ Hi. apply Hid.
    apply list_elem_of_lookup. by exists (0 + i).
Qed.

End TickFacts.

(** ** Start, stop and the invariant *)

Section StartFacts.
Context `{Utils}.
Implicit Types (st : State) (setting : Setting).

Lemma disposeItems_frame ids st :
  let st' := disposeItems ids st in
  bar st' = bar st ∧
  timers (host st') = timers (host st) ∧
  nextTimer (host st') = nextTimer (host st) ∧
  length (items (host st')) = length (items (host st)) ∧
  ∀ id, isLive (host st') id = isLive (host st) id && bool_decide (id ∉ ids).
Proof.
  revert st. induction ids as [|id0 ids IH]; intros st; simpl.
  { split_and!; try done. intros id. by rewrite andb_true_r. }
  destruct (IH (setItem id0 StatusBarItem.dispose st)) as (Hb & Ht & Hn & Hl & Hlive).
  split_and!; try done.
  - rewrite Hl. simpl. apply length_alter.
  - intros id. rewrite Hlive, isLive_setItem. case_decide as Hid.
    + subst. rewrite (bool_decide_eq_false_2 (id ∉ id :: ids)) by (intros []; left).
      rewrite andb_false_r.
      destruct (items (host st) !! id); simpl; [|done]. done.
    + destruct (decide (id ∈ ids)) as [Hin|Hin].
      * rewrite !bool_decide_eq_false_2; [done|intros []; by right|by intros []].
      * rewrite !bool_decide_eq_true_2; [done| |done].
        intros [->|?]%elem_of_cons; done.
Qed.

(** Disposing of the items of the driver leaves no slot, when the
    driver knew every slot. *)
Lemma disposeItems_dead st :
  (∀ id, isLive (host st) id → id ∈ statusItems (bar st)) →
  ∀ id, ¬ isLive (host (disposeItems (statusItems (bar st)) st)) id.
Proof.
  intros Hknown id.
  destruct (disposeItems_frame (statusItems (bar st)) st) as (_ & _ & _ & _ & Hlive).
  rewrite Hlive. intros [Hl Hn%bool_decide_unpack]%andb_prop_elim.
  apply Hn, Hknown, Hl.
Qed.

Lemma start_no_context setting st :
  _context (bar st) = None → start setting st = st.
Proof. unfold start. by intros ->. Qed.

Lemma start_off setting st context :
  _context (bar st) = Some context →
  AllEnabled setting = false ∨ curModules setting = [] →
  start setting st = disposeItems (statusItems (bar st)) st.
Proof.
  intros Hctx Hoff. unfold start. rewrite Hctx.
  destruct Hoff as [->| ->]; [done|]. simpl. by rewrite orb_true_r.
Qed.

Lemma start_on setting st context :
  _context (bar st) = Some context →
  AllEnabled setting = true →
  curModules setting ≠ [] →
  start setting st =
  update setting
    (createStatusBarItems (length (curModules setting))
       (StatusBarAlignment (orLeft (Location setting)))
       (orDefault (Priority setting) (default_priority setting))
       context (disposeItems (statusItems (bar st)) st)).
Proof.
  intros Hctx Hon Hne. unfold start. rewrite Hctx, Hon. simpl.
  rewrite bool_decide_eq_false_2; [done|].
  by destruct (curModules setting).
Qed.

(** After a start that creates slots: the slots are the items just
    created, one per enabled kind and in that order; the timer is the
    one armed interval. *)
Lemma start_on_spec setting st context :
  _context (bar st) = Some context →
  AllEnabled setting = true →
  curModules setting ≠ [] →
  (∀ id, isLive (host st) id → id ∈ statusItems (bar st)) →
  let st' := start setting st in
  statusItems (bar st') = seq (length (items (host st))) (length (curModules setting)) ∧
  slots (host st') = statusItems (bar st') ∧
  timer (bar st') = Some (nextTimer (host st)) ∧
  timers (host st') =
    <[ nextTimer (host st) :=
         orDefault (RefreshInterval setting) (default_refreshInterval setting) ]>
      (timers (host st)) ∧
  is_Some (_context (bar st')) ∧
  (∀ i id, statusItems (bar st') !! i = Some id →
     items (host st') !! id =
     Some (StatusBarItem.create (StatusBarAlignment (orLeft (Location setting)))
             (orDefault (Priority setting) (default_priority setting)))).
Proof.
  intros Hctx Hon Hne Hknown. simpl. rewrite (start_on _ _ _ Hctx Hon Hne).
  pose proof (disposeItems_dead st Hknown) as Hdead.
  destruct (disposeItems_frame (statusItems (bar st)) st) as (Hb & Ht & Hn & Hl & _).
  set (st1 := disposeItems (statusItems (bar st)) st) in *.
  unfold update, setInterval, createStatusBarItems. simpl.
  rewrite Hl, Hn, Ht. split_and!; try done.
  - unfold slots. simpl. rewrite length_app, length_replicate, seq_app, filter_app, Hl.
    rewrite filter_none, filter_all; [done| |].
    + intros id [? Hid]%elem_of_seq. unfold isLive. simpl.
      rewrite lookup_app_r by lia.
      destruct (replicate _ _ !! _) as [it|] eqn:Hit.
      * by apply lookup_replicate in Hit as [-> _].
      * apply lookup_replicate_None in Hit. lia.
    + intros id [_ Hid]%elem_of_seq Hlive. apply (Hdead id).
      unfold isLive in *. simpl in *. by rewrite lookup_app_l in Hlive by lia.
  - intros i id [-> Hi]%lookup_seq. rewrite lookup_app_r by lia.
    replace (length (items (host st)) + i - length (items (host st1))) with i by lia.
    by apply lookup_replicate.
Qed.

(** After a start that creates none: no slot is left, and nothing is
    armed that was not. *)
Lemma start_off_spec setting st :
  AllEnabled setting = false ∨ curModules setting = [] ∨ _context (bar st) = None →
  (∀ id, isLive (host st) id → id ∈ statusItems (bar st)) →
  (_context (bar st) = None → statusItems (bar st) = []) →
  let st' := start setting st in
  slots (host st') = [] ∧
  bar st' = bar st ∧
  timers (host st') = timers (host st).
Proof.
  intros Hoff Hknown Hfresh. simpl.
  destruct (_context (bar st)) as [context|] eqn:Hctx.
  - rewrite (start_off _ _ context); [|done|].
    2:{ destruct Hoff as [?|[?|?]]; [by left|by right|congruence]. }
    destruct (disposeItems_frame (statusItems (bar st)) st) as (Hb & Ht & _).
    split_and!; try done. apply slots_nil, disposeItems_dead, Hknown.
  - rewrite (start_no_context _ _ Hctx). split_and!; try done.
    apply slots_nil. intros id Hid%Hknown. rewrite Hfresh in Hid by done.
    by apply elem_of_nil in Hid.
Qed.

Lemma siInit_frame st :
  bar (siInit st) = bar st ∧
  items (host (siInit st)) = items (host st) ∧
  timers (host (siInit st)) = timers (host st) ∧
  nextTimer (host (siInit st)) = nextTimer (host st).
Proof. unfold siInit. by destruct isWin32. Qed.

Lemma siRelease_frame st :
  bar (siRelease st) = bar st ∧
  items (host (siRelease st)) = items (host st) ∧
  timers (host (siRelease st)) = timers (host st) ∧
  nextTimer (host (siRelease st)) = nextTimer (host st).
Proof. unfold siRelease. by destruct isWin32. Qed.

Lemma cancelUpdate_frame isDeactivate st :
  bar (cancelUpdate isDeactivate st) = bar st ∧
  items (host (cancelUpdate isDeactivate st)) = items (host st) ∧
  timers (host (cancelUpdate isDeactivate st)) =
    match timer (bar st) with
    | Some t => delete t (timers (host st))
    | None => timers (host st)
    end.
Proof.
  unfold cancelUpdate.
  destruct isDeactivate.
  - destruct (siRelease_frame st) as (Hb & Hi & Ht & _). rewrite Hb.
    destruct (timer (bar st)); simpl; by rewrite ?Hb, ?Hi, ?Ht.
  - by destruct (timer (bar st)).
Qed.

(** [cancelUpdate] leaves nothing armed, when every armed interval is
    the one the driver holds. *)
Lemma cancelUpdate_clears isDeactivate st :
  (∀ t, is_Some (timers (host st) !! t) → timer (bar st) = Some t) →
  timers (host (cancelUpdate isDeactivate st)) = ∅.
Proof.
  intros Hheld. destruct (cancelUpdate_frame isDeactivate st) as (_ & _ & ->).
  apply map_empty. intros t'.
  destruct (timer (bar st)) as [t|] eqn:Ht.
  - destruct (decide (t = t')) as [->|Hne]; [apply lookup_delete_eq|].
    rewrite lookup_delete_ne by done. apply eq_None_not_Some.
    intros Hin%Hheld. congruence.
  - apply eq_None_not_Some. intros Hin%Hheld. done.
Qed.

Lemma isLive_items (h h' : Host) id :
  items h' = items h → isLive h' id = isLive h id.
Proof. unfold isLive. by intros ->. Qed.

(** *** The invariant *)

Lemma Inv_start setting st :
  (∀ id, isLive (host st) id → id ∈ statusItems (bar st)) →
  NoDup (statusItems (bar st)) →
  (_context (bar st) = None → statusItems (bar st) = []) →
  timers (host st) = ∅ →
  Inv {| setting := setting; state := start setting st |}.
Proof.
  intros Hknown Hnodup Hfresh Hidle.
  destruct (decide (AllEnabled setting = true ∧ curModules setting ≠ [] ∧
                    is_Some (_context (bar st)))) as [(Hon & Hne & [context Hctx])|Hoff].
  - destruct (start_on_spec _ _ _ Hctx Hon Hne Hknown) as (Hids & Hslots & Ht & Hts & Hc & _).
    split; simpl.
    + intros t. rewrite Hts, Hidle. intros [ms Hms].
      apply lookup_insert_Some in Hms as [[<- _]|[_ Hms]]; [done|].
      by rewrite lookup_empty in Hms.
    + intros id Hid. rewrite <-Hslots. by apply elem_of_slots.
    + rewrite Hids. apply NoDup_seq.
    + intros Hnone. rewrite Hnone in Hc. by destruct Hc.
    + intros _. split_and!; [done|done|]. by rewrite Hids, length_seq.
  - destruct (start_off_spec setting st) as (Hs & Hb & Ht); [|done|done|].
    { destruct (AllEnabled setting); [|by left].
      destruct (curModules setting); [by right; left|].
      destruct (_context (bar st)); [|by right; right].
      destruct Hoff. by split_and!. }
    split; simpl; rewrite ?Hb, ?Ht, ?Hidle; try done.
    + intros t [ms Hms]. by rewrite lookup_empty in Hms.
    + intros id Hid%elem_of_slots. rewrite Hs in Hid. by apply elem_of_nil in Hid.
    + intros Hnone. split; [by apply Hfresh|done].
Qed.

Lemma Inv_step (w w' : World) : Inv w → step w w' → Inv w'.
Proof.
  intros [Htimer Hslots Hnodup Hctx Hrun] Hstep.
  destruct Hstep as [context w Hnone|setting' w|probe w|w].
  - destruct (Hctx Hnone) as [Hids Hidle]. unfold init.
    set (st0 := {| bar := {| statusItems := statusItems (bar (state w));
                             timer := timer (bar (state w));
                             _context := Some context |};
                   host := host (state w) |}).
    destruct (siInit_frame st0) as (Hb & Hi & Ht & _).
    apply Inv_start; rewrite ?Hb, ?Ht; simpl; try done.
    intros id. rewrite (isLive_items (host (state w))) by done. apply Hslots.
  - unfold onSettingUpdate.
    destruct (cancelUpdate_frame false (state w)) as (Hb & Hi & _).
    apply Inv_start; rewrite ?Hb.
    + intros id. rewrite (isLive_items (host (state w))) by done. apply Hslots.
    + done.
    + intros Hnone. by apply Hctx.
    + by apply cancelUpdate_clears.
  - destruct (getSysInfo_frame (setting w) probe (state w)) as (Hb & Ht & Hl & Hlive).
    split; simpl; rewrite ?Hb, ?Ht; try done.
    + intros id. rewrite Hlive. apply Hslots.
    + by rewrite (slots_ext (host (state w))).
  - destruct (cancelUpdate_frame true (state w)) as (Hb & Hi & _).
    pose proof (cancelUpdate_clears true (state w) Htimer) as Hidle.
    split; simpl; rewrite ?Hb, ?Hidle; try done.
    + intros t [ms Hms]. by rewrite lookup_empty in Hms.
    + intros id. rewrite (isLive_items (host (state w))) by done. apply Hslots.
    + intros Hnone. split; [by apply Hctx|done].
Qed.

Lemma Inv_initial setting : Inv {| setting := setting; state := initial |}.
Proof.
  split; simpl; try done.
  - intros t [ms Hms]. by rewrite lookup_empty in Hms.
  - apply NoDup_nil_2.
Qed.

Theorem reachable_Inv (w : World) : reachable w → Inv w.
Proof.
  intros [setting0 Hsteps].
  eapply (rtc_ind_r (λ w, Inv w)); [apply Inv_initial| |exact Hsteps].
  intros w1 w2 _ Hstep Hinv. by eapply Inv_step.
Qed.

End StartFacts.

(** ** Rendering and the formatters *)

Section RenderingFacts.

(** [toFixed(0)] of a number that is not negative is the numeral of the
    nearest integer. *)
Lemma toFixed_integer_nearest (q : Q) :
  (0 <= q)%Q →
  (q < inject_Z (pow10 21))%Q →
  ∃ n : Z, toFixed 0 (Num q) = pretty (Z.to_N n) ∧
    (inject_Z n - (1 # 2) <= q)%Q ∧ (q < inject_Z n + (1 # 2))%Q.
Proof.
  intros Hq Hlt. exists (fixed_digits 0 q).
  rewrite toFixed_nonneg, place_point_integer by done. split; [done|].
  destruct (fixed_digits_nearest 0 q) as [Hlo Hhi].
  change (inject_Z (pow10 0)) with 1%Q in *.
  revert Hlo Hhi. generalize (inject_Z (fixed_digits 0 q)). intros z Hlo Hhi.
  split; lra.
Qed.

(** [toFixed(f)], [f > 0], of a number that is not negative: the digits
    of the nearest multiple of [10^-f], with a point before the last
    [f] of them. *)
Lemma toFixed_decimals_nearest (f : nat) (q : Q) :
  f ≠ 0%nat →
  (0 <= q)%Q →
  (q < inject_Z (pow10 21))%Q →
  ∃ (n : Z) (a b : string),
    toFixed f (Num q) = a +:+ "." +:+ b ∧
    String.length b = f ∧ a ≠ EmptyString ∧ a +:+ b = padded f n ∧
    (inject_Z n - (1 # 2) <= q * inject_Z (pow10 f))%Q ∧
    (q * inject_Z (pow10 f) < inject_Z n + (1 # 2))%Q.
Proof.
  intros Hf Hq Hlt. exists (fixed_digits f q).
  destruct (place_point_decimals f (fixed_digits f q) Hf) as (a & b & Hab & Hb & Ha & Hpad).
  exists a, b. rewrite toFixed_nonneg by done.
  split_and!; try done; apply fixed_digits_nearest.
Qed.

Lemma Qfloor_between (x : Q) (z : Z) :
  (inject_Z z <= x)%Q → (x < inject_Z (z + 1))%Q → Qfloor x = z.
Proof.
  intros Hlo Hhi.
  pose proof (Qfloor_le x) as Hle. pose proof (Qlt_floor x) as Hlt.
  assert (inject_Z (Qfloor x) < inject_Z (z + 1))%Q as H1 by (eapply Qle_lt_trans; eauto).
  assert (inject_Z z < inject_Z (Qfloor x + 1))%Q as H2 by (eapply Qle_lt_trans; eauto).
  rewrite <-Zlt_Qlt in H1, H2. lia.
Qed.

End RenderingFacts.

Section FormatterFacts.
Context `{Utils}.
Variable setting : Setting.


Lemma tickItem_formatRes module rawRes it :
  tickItem (formatRes setting module rawRes) it =
  if decide (formatters setting module rawRes = "-") then it
  else StatusBarItem.write (formatters setting module rawRes)
         (StatsModuleNameMap module) it.
Proof. done. Qed.

End FormatterFacts.


Section MoreRendering.

Lemma Qred_nonneg (q : Q) : (0 <= q)%Q → (0 <= Qred q)%Q.
Proof. intros Hq. by rewrite Qred_correct. Qed.

(** [toFixed(0)] of an integer value is its numeral. *)
Lemma toFixed_integer (x : Q) (z : Z) :
  (x == inject_Z z)%Q → (0 <= z < pow10 21)%Z →
  toFixed 0 (Num x) = pretty (Z.to_N z).
Proof.
  intros Hx [Hz Hlt].
  assert (0 <= x)%Q as Hpos.
  { rewrite Hx. change 0%Q with (inject_Z 0). by rewrite <-Zle_Qle. }
  assert (x < inject_Z (pow10 21))%Q as Hbelow.
  { rewrite Hx. by rewrite <-Zlt_Qlt. }
  rewrite toFixed_nonneg, place_point_integer by done. do 2 f_equal.
  unfold fixed_digits, round_half_up. apply Qfloor_between.
  - rewrite Hx. change (inject_Z (pow10 0)) with 1%Q.
    generalize (inject_Z z). intros y. lra.
  - rewrite Hx, inject_Z_plus. change (inject_Z (pow10 0)) with 1%Q.
    change (inject_Z 1) with 1%Q. generalize (inject_Z z). intros y. lra.
Qed.

End MoreRendering.

(** ** Binary64 rounding and decimal digits *)

Section RoundingFacts.

Lemma Qred_inject_Z (z : Z) : Qred (inject_Z z) = inject_Z z.
Proof.
  unfold Qred, inject_Z.
  pose proof (Z.ggcd_gcd z 1) as Hg. pose proof (Z.ggcd_correct_divisors z 1) as Hd.
  destruct (Z.ggcd z 1) as [g [n d]]. simpl in Hg. rewrite Z.gcd_1_r in Hg. subst g.
  destruct Hd as [Hn Hd]. rewrite !Z.mul_1_l in *. by subst.
Qed.

Lemma pow2_pos (e : Z) : (0 < 2 ^ e)%Q.
Proof. by apply Qpower_0_lt. Qed.

Lemma pow2_Z (e : Z) : (0 <= e)%Z → (2 ^ e == inject_Z (2 ^ e))%Q.
Proof. intros He. by rewrite Zpower_Qpower. Qed.

Lemma pow2_plus (a b : Z) : (2 ^ (a + b) == 2 ^ a * 2 ^ b)%Q.
Proof. by apply Qpower_plus. Qed.

Lemma pow2_div (a b : Z) : (2 ^ a / 2 ^ b == 2 ^ (a - b))%Q.
Proof.
  replace (a - b)%Z with (a + - b)%Z by lia.
  rewrite pow2_plus, Qpower_opp. reflexivity.
Qed.

#[local] Instance round_half_even_comp : Proper (Qeq ==> eq) round_half_even.
Proof.
  intros x y Hxy. unfold round_half_even.
  rewrite (Qfloor_comp _ _ Hxy).
  assert ((x - inject_Z (Qfloor y) ?= 1 # 2) = (y - inject_Z (Qfloor y) ?= 1 # 2))%Q as ->;
    [|done].
  by rewrite Hxy.
Qed.

Lemma round_half_even_Z (z : Z) : round_half_even (inject_Z z) = z.
Proof.
  unfold round_half_even. rewrite Qfloor_Z.
  assert ((inject_Z z - inject_Z z ?= 1 # 2)%Q = Lt) as ->; [|done].
  apply (proj1 (Qlt_alt _ _)).
  assert (inject_Z z - inject_Z z == 0)%Q as -> by ring. reflexivity.
Qed.

Lemma round_half_even_nonneg (q : Q) : (0 <= q)%Q → (0 <= round_half_even q)%Z.
Proof.
  intros Hq. unfold round_half_even.
  assert (0 <= Qfloor q)%Z as Hf.
  { change 0%Z with (Qfloor 0). by apply Qfloor_resp_le. }
  destruct (_ ?= _)%Q; [destruct (Z.even _)|..]; lia.
Qed.

Lemma Qmake_Qdiv' (n : Z) (d : positive) :
  (n # d == inject_Z n / inject_Z (Z.pos d))%Q.
Proof. apply Qmake_Qdiv. Qed.

(** [ilog2] is not above the binary logarithm. *)
Lemma ilog2_le (a : Q) : (0 < a)%Q → (2 ^ ilog2 a <= a)%Q.
Proof.
  intros Ha. unfold ilog2.
  set (n := Qnum a). set (d := Z.pos (Qden a)).
  set (e := (Z.log2 n - Z.log2 d)%Z).
  destruct (Qle_bool (2 ^ e) a) eqn:Hle; [by apply Qle_bool_iff|].
  assert (a == inject_Z n / inject_Z d)%Q as Hnd by (destruct a; apply Qmake_Qdiv).
  assert (0 < n)%Z as Hn by (unfold Qlt in Ha; simpl in Ha; lia).
  destruct (Z.log2_spec n Hn) as [Hlo _].
  destruct (Z.log2_spec d) as [_ Hhi]; [done|].
  pose proof (Z.log2_nonneg n) as H1. pose proof (Z.log2_nonneg d) as H2.
  rewrite Hnd. apply Qle_shift_div_l.
  { change 0%Q with (inject_Z 0). by rewrite <-Zlt_Qlt. }
  apply Qle_trans with (2 ^ (e - 1) * 2 ^ (Z.log2 d + 1))%Q.
  - apply Qmult_le_l; [apply pow2_pos|].
    rewrite pow2_Z by lia. rewrite <-Zle_Qle.
    rewrite <-Z.add_1_r in Hhi. lia.
  - rewrite <-pow2_plus.
    replace (e - 1 + (Z.log2 d + 1))%Z with (Z.log2 n) by (unfold e; lia).
    rewrite pow2_Z by lia. by rewrite <-Zle_Qle.
Qed.

(** A binary64 number is its own rounding. *)
Lemma round64_exact (q : Q) (m u : Z) :
  (0 < m < 2 ^ 53)%Z →
  (-1074 <= u <= 971)%Z →
  (q == inject_Z m * 2 ^ u)%Q →
  round64 q = Num (Qred q).
Proof.
  intros [Hm0 Hm] [Hu0 Hu1] Hq.
  assert (0 < inject_Z m)%Q as Hmq.
  { change 0%Q with (inject_Z 0). by rewrite <-Zlt_Qlt. }
  assert (0 < q)%Q as Hpos.
  { rewrite Hq. apply Qmult_lt_0_compat; [done|apply pow2_pos]. }
  unfold round64.
  destruct (Qeq_bool q 0) eqn:Hzero.
  { apply Qeq_bool_eq in Hzero. rewrite Hzero in Hpos. by apply Qlt_irrefl in Hpos. }
  assert (Qneg q = false) as -> by (apply Qneg_false; by apply Qlt_le_weak).
  rewrite (Qabs_nonneg_eq q) by (by apply Qlt_le_weak).
  set (u' := Z.max (ilog2 q - 52) (-1074)).
  assert (u' <= u)%Z as Hu'.
  { assert (ilog2 q < 53 + u)%Z; [|lia].
    apply (Qpower_lt_compat_l_inv 2); [|done].
    eapply Qle_lt_trans; [by apply ilog2_le|].
    rewrite Hq, pow2_plus. apply Qmult_lt_r; [apply pow2_pos|].
    rewrite pow2_Z by lia. by rewrite <-Zlt_Qlt. }
  assert (q / 2 ^ u' == inject_Z (m * 2 ^ (u - u')))%Q as Hscaled.
  { rewrite Hq, inject_Z_mult, <-pow2_Z by lia.
    unfold Qdiv. rewrite <-Qmult_assoc. apply Qmult_comp; [reflexivity|].
    apply pow2_div. }
  assert (round_half_even (q / 2 ^ u') = (m * 2 ^ (u - u'))%Z) as ->.
  { rewrite Hscaled. apply round_half_even_Z. }
  assert (inject_Z (m * 2 ^ (u - u')) * 2 ^ u' == q)%Q as Hback.
  { rewrite <-Hscaled. field. apply Qnot_eq_sym, Qlt_not_eq, pow2_pos. }
  destruct (Qle_bool (2 ^ 1024) _) eqn:Hover.
  - apply Qle_bool_iff in Hover. rewrite Hback, Hq in Hover.
    exfalso. apply (Qle_not_lt _ _ Hover).
    apply Qlt_le_trans with (2 ^ 53 * 2 ^ u)%Q.
    + apply Qmult_lt_r; [apply pow2_pos|].
      rewrite (pow2_Z 53) by lia. by rewrite <-Zlt_Qlt.
    + rewrite <-pow2_plus. apply Qpower_le_compat_l; [lia|done].
  - f_equal. by apply Qred_complete.
Qed.

(** An integer below [2^53] is a binary64 number. *)
Lemma round64_integer (z : Z) :
  (0 <= z < 2 ^ 53)%Z → round64 (inject_Z z) = Num (inject_Z z).
Proof.
  intros [Hz Hlt]. destruct (decide (z = 0%Z)) as [->|Hne]; [done|].
  rewrite (round64_exact (inject_Z z) z 0%Z); [|lia|lia|].
  - by rewrite Qred_inject_Z.
  - change (2 ^ 0)%Q with 1%Q. by rewrite Qmult_1_r.
Qed.

(** A quotient is never NaN, and a magnitude that is not negative gives
    a number that is not negative, or +Infinity. *)
Lemma round64_nonneg (q : Q) :
  (0 <= q)%Q →
  round64 q = Infinity ∨ ∃ x, round64 q = Num x ∧ (0 <= x)%Q.
Proof.
  intros Hq. unfold round64.
  destruct (Qeq_bool q 0); [right; by exists 0%Q|].
  rewrite Qneg_false by done.
  destruct (Qle_bool _ _); [by left|]. right. eexists. split; [done|].
  rewrite Qred_correct. apply Qmult_le_0_compat; [|apply Qlt_le_weak, pow2_pos].
  change 0%Q with (inject_Z 0). rewrite <-Zle_Qle.
  apply round_half_even_nonneg. apply Qle_shift_div_l; [apply pow2_pos|].
  rewrite Qmult_0_l. apply Qabs_nonneg.
Qed.

End RoundingFacts.

Section DecimalFacts.

Lemma append_assoc (a b c : string) : (a +:+ b) +:+ c = a +:+ (b +:+ c).
Proof. induction a as [|x a IH]; [done|]. rewrite !append_cons. by rewrite IH. Qed.

Lemma append_inj (a b a' b' : string) :
  a +:+ b = a' +:+ b' → String.length b = String.length b' → a = a' ∧ b = b'.
Proof.
  revert a'. induction a as [|x a IH]; intros [|x' a'] Heq Hlen.
  - done.
  - rewrite append_empty_l in Heq. subst b. rewrite append_length in Hlen.
    simpl in Hlen. lia.
  - rewrite append_empty_l in Heq. subst b'. rewrite append_length in Hlen.
    simpl in Hlen. lia.
  - rewrite !append_cons in Heq. injection Heq as -> Heq.
    destruct (IH _ Heq Hlen) as [-> ->]. done.
Qed.

Lemma pretty_N_go_app (x : N) (s : string) :
  pretty_N_go x s = pretty_N_go x EmptyString +:+ s.
Proof.
  revert s. induction (N.lt_wf_0 x) as [x _ IH]; intros s.
  destruct (decide (0 < x)%N) as [Hx|Hx].
  - rewrite !(pretty_N_go_step x) by done.
    assert (x `div` 10 < x)%N as Hlt by (apply N.div_lt; lia).
    rewrite (IH _ Hlt (String _ s)), (IH _ Hlt (String _ EmptyString)).
    by rewrite append_assoc.
  - assert (x = 0%N) as -> by lia. by rewrite !pretty_N_go_0.
Qed.

(** A numeral is the numeral of the tens followed by the last digit. *)
Lemma pretty_N_last (x : N) :
  pretty x =
  (if (x <? 10)%N then EmptyString else pretty (x `div` 10)%N)
  +:+ String (pretty_N_char (x `mod` 10)) EmptyString.
Proof.
  unfold pretty, pretty_N. destruct (decide (x = 0%N)) as [->|Hx]; [done|].
  rewrite pretty_N_go_step by lia. rewrite pretty_N_go_app. f_equal.
  destruct (x <? 10)%N eqn:Hlt.
  - apply N.ltb_lt in Hlt. by rewrite N.div_small.
  - apply N.ltb_ge in Hlt. rewrite decide_False; [done|].
    intros Hzero. apply N.div_small_iff in Hzero; lia.
Qed.

Lemma pretty_N_char_digit (d : N) :
  (d < 10)%N → pretty_N_char d = digit_char (Z.of_N d).
Proof.
  intros Hd.
  assert (d ∈ [0; 1; 2; 3; 4; 5; 6; 7; 8; 9]%N) as Hin.
  { rewrite !elem_of_cons. lia. }
  repeat (apply elem_of_cons in Hin as [->|Hin]; [done|]).
  by apply elem_of_nil in Hin.
Qed.

(** [toFixed(2)] writes the digits of [n]: the numeral of the hundreds,
    a point, the tens and the units. *)
Lemma place_point_two (n : Z) :
  (0 <= n)%Z →
  place_point 2 n =
  pretty (Z.to_N (n / 100)) +:+ "." +:+
  String (digit_char (n / 10 mod 10)) (String (digit_char (n mod 10)) EmptyString).
Proof.
  intros Hn.
  destruct (place_point_decimals 2 n) as (a & b & -> & Hb & _ & Hpad); [done|].
  set (x := Z.to_N n).
  set (c0 := pretty_N_char (x `mod` 10)).
  set (c1 := pretty_N_char ((x `div` 10) `mod` 10)).
  assert (padded 2 n =
          pretty (x `div` 100)%N +:+ String c1 (String c0 EmptyString)) as Hdigits.
  { unfold padded. fold x.
    assert ((x `div` 10) `div` 10 = x `div` 100)%N as Hdiv.
    { rewrite N.Div0.div_div. done. }
    rewrite (pretty_N_last x). fold c0.
    destruct (x <? 10)%N eqn:H10.
    - apply N.ltb_lt in H10.
      assert (x `div` 100 = 0 ∧ (x `div` 10) `mod` 10 = 0)%N as [H100 Hc1].
      { rewrite (N.div_small x 10), (N.div_small x 100) by lia. done. }
      unfold c1. rewrite H100, Hc1. done.
    - apply N.ltb_ge in H10. rewrite (pretty_N_last (x `div` 10)). fold c1.
      rewrite Hdiv.
      destruct (x `div` 10 <? 10)%N eqn:H100.
      + apply N.ltb_lt in H100.
        assert (x `div` 100 = 0)%N as ->.
        { rewrite <-Hdiv. by apply N.div_small. }
        done.
      + rewrite !append_length. simpl.
        pose proof (nonempty_length_pos _ (pretty_N_nonempty (x `div` 100)%N)) as Hlen.
        replace (3 - (String.length (pretty (x `div` 100)%N) + 1 + 1))%nat with 0%nat by lia.
        by rewrite append_empty_l, append_assoc. }
  rewrite Hdigits in Hpad. apply append_inj in Hpad as [-> ->]; [|done].
  assert (Z.to_N (n / 100) = x `div` 100)%N as -> by (unfold x; by rewrite Z2N.inj_div).
  do 3 f_equal.
  - unfold c1. rewrite pretty_N_char_digit by (apply N.mod_lt; lia).
    f_equal. unfold x. rewrite N2Z.inj_mod, N2Z.inj_div, Z2N.id by done. done.
  - f_equal. unfold c0. rewrite pretty_N_char_digit by (apply N.mod_lt; lia).
    f_equal. unfold x. rewrite N2Z.inj_mod, Z2N.id by done. done.
Qed.

End DecimalFacts.

Section FormatterClaims.
Context `{Utils}.
Variable setting : Setting.

(** C10.  For the cpuLoad and uptime kinds, a reading equal to 0 that
    was fetched successfully is formatted as the placeholder: the
    formatter tests the raw value for truthiness, so the slot gets the
    no-data result (and is left as it was) instead of a rendered 0. *)
Theorem zero_reading_is_no_data (p : Platform) (q : Q) :
  (q == 0)%Q →
  si_currentLoad p = Ok {| currentLoad := Num q |} →
  os_uptime p = Ok (Num q) →
  sysinfoData cpuLoad p = Ok (Some (Num q)) ∧
  sysinfoData uptime p = Ok (Some (Num q)) ∧
  FormatedData.text (formatRes setting cpuLoad (reading cpuLoad p)) = "-" ∧
  FormatedData.text (formatRes setting uptime (reading uptime p)) = "-" ∧
  ∀ it, tickItem (formatRes setting cpuLoad (reading cpuLoad p)) it = it ∧
        tickItem (formatRes setting uptime (reading uptime p)) it = it.
Proof.
  intros Hq Hload Hup.
  assert (sysinfoData cpuLoad p = Ok (Some (Num q))) as Hcpu.
  { simpl. unfold getCpuLoad. by rewrite Hload. }
  assert (sysinfoData uptime p = Ok (Some (Num q))) as Hupt.
  { simpl. unfold getUpTime. by rewrite Hup. }
  assert (formatters setting cpuLoad (reading cpuLoad p) = "-") as Hc.
  { unfold reading. rewrite Hcpu. simpl. by rewrite (Qeq_eq_bool _ _ Hq). }
  assert (formatters setting uptime (reading uptime p) = "-") as Hu.
  { unfold reading. rewrite Hupt. simpl. by rewrite (Qeq_eq_bool _ _ Hq). }
  split_and!; try done.
  intros it. rewrite !tickItem_formatRes, Hc, Hu. done.
Qed.

(** C5, as the code has it.  The gpuLoad formatter returns the
    placeholder for a missing or empty GPU list.  For a list that is not
    empty it uses the first GPU only: [percent] is its utilization
    rounded to the nearest integer (-0 for a utilization below 0 that
    rounds to zero), [used] and [total] its memory values
    divided by 1024 and written by [toFixed(2)], and [unit] is GB.
    Where the quotient is a number that is not negative and below 10^21,
    [toFixed(2)] writes it with 2 decimals: the numeral of the hundreds
    of the nearest multiple of 1/100, a point and its two last digits.
    The quotient of an integer memory value below 2^53 is exact. *)
Theorem formatGpuLoad_first_gpu :
  formatGpuLoad setting None = "-" ∧
  formatGpuLoad setting (Some []) = "-" ∧
  (∀ m : Z, (0 <= m < 2 ^ 53)%Z →
     div (Num (inject_Z m)) (Num 1024) = Num (Qred (inject_Z m / 1024))) ∧
  ∀ (gpu : GpuInfo) (rest : list GpuInfo),
    let dict := dictGpuLoad gpu in
    formatGpuLoad setting (Some (gpu :: rest)) =
      formatByDict (Format setting gpuLoad) dict ∧
    dom dict = {[ "percent"; "unit"; "used"; "total" ]} ∧
    dict !! "unit" = Some (VStr "GB") ∧
    dict !! "percent" = Some (VNum (Math_round (orNaN (gpuUtilization gpu)))) ∧
    dict !! "used" = Some (VStr (toFixed 2 (div (orNaN (usedMemory gpu)) (Num 1024)))) ∧
    dict !! "total" = Some (VStr (toFixed 2 (div (orNaN (totalMemory gpu)) (Num 1024)))) ∧
    (∀ u : Q, gpuUtilization gpu = Some (Num u) →
       ∃ n : Z,
         (inject_Z n - (1 # 2) <= u)%Q ∧ (u < inject_Z n + (1 # 2))%Q ∧
         dict !! "percent" =
           Some (VNum (if Qneg u && (n =? 0)%Z then NegZero else ofZ n)) ∧
         ((0 <= u)%Q → dict !! "percent" = Some (VNum (ofZ n)))) ∧
    (∀ (key : string) (field : option number) (m x : Q),
       (key, field) ∈ [("used", usedMemory gpu); ("total", totalMemory gpu)] →
       field = Some (Num m) →
       div (Num m) (Num 1024) = Num x →
       (0 <= x)%Q → (x < inject_Z (pow10 21))%Q →
       ∃ n : Z,
         (0 <= n)%Z ∧
         dict !! key =
           Some (VStr (pretty (Z.to_N (n / 100)) +:+ "." +:+
                       String (digit_char (n / 10 mod 10))
                         (String (digit_char (n mod 10)) EmptyString))) ∧
         (inject_Z n - (1 # 2) <= x * 100)%Q ∧
         (x * 100 < inject_Z n + (1 # 2))%Q).
Proof.
  split_and!; [done..| |].
  - intros m [Hm Hlt]. destruct (decide (m = 0%Z)) as [->|Hne]; [done|].
    unfold div. change (Qeq_bool 1024 0) with false.
    assert (Qeq_bool (inject_Z m) 0 = false) as ->.
    { apply not_true_is_false. intros Heq%Qeq_bool_eq.
      apply Hne. by apply (inject_Z_injective m 0). }
    apply (round64_exact _ m (-10)); [lia|lia|]. reflexivity.
  - intros gpu rest dict. split_and!; try done.
    + intros u Hu. exists (round_half_up u). subst dict. unfold dictGpuLoad.
      rewrite Hu. destruct (round_half_up_nearest u) as [Hlo Hhi].
      split_and!; [done..|].
      intros Hpos. simpl orNaN. unfold Math_round. by rewrite Qneg_false.
    + intros key field m x Hkey -> Hx Hpos Hlt.
      assert (dict !! key = Some (VStr (toFixed 2 (Num x)))) as ->.
      { apply elem_of_cons in Hkey as [[= -> Hf]|Hkey].
        { subst dict. unfold dictGpuLoad. rewrite <-Hf. simpl orNaN. by rewrite Hx. }
        apply list_elem_of_singleton in Hkey as [= -> Hf].
        subst dict. unfold dictGpuLoad. rewrite <-Hf. simpl orNaN. by rewrite Hx. }
      exists (fixed_digits 2 x).
      destruct (fixed_digits_nearest 2 x) as [Hlo Hhi].
      change (inject_Z (pow10 2)) with 100%Q in *.
      assert (0 <= fixed_digits 2 x)%Z as Hn.
      { unfold fixed_digits, round_half_up. change 0%Z with (Qfloor 0).
        apply Qfloor_resp_le. change (inject_Z (pow10 2)) with 100%Q. lra. }
      split_and!; [done| |done..].
      by rewrite toFixed_nonneg, place_point_two.
Qed.


(** C4, as the code has it.  The memoUsage formatter converts two byte
    counts to gibibytes (base 1024^3) with 2 decimals through
    [formatBytes]: the total, and as the used figure the used bytes on
    Darwin and the active bytes elsewhere.  [percent] is computed from
    the two figures as written, [Number(used) / Number(total) * 100] in
    binary64 arithmetic, and written by [toFixed(0)]: the nearest
    integer, the larger one on a tie.  [pressurePercent] is the pressure
    ratio times 100 written in the same way, 0 when the field is absent,
    and [unit] is GB.  With the figures 8.00 and 16.00 and a pressure of
    0.5, [percent] and [pressurePercent] are both "50"; with the figures
    0.29 and 2.00 [percent] is "14", and with a pressure of 0.015
    [pressurePercent] is "2". *)
Theorem formatMemoUsage_placeholders (res : MemoryUsage) :
  let usedBytes := if isDarwin then used res else active res in
  let used_ := formatBytes usedBytes (Some 2%nat) (Some customSize) in
  let total_ := formatBytes (total res) (Some 2%nat) (Some customSize) in
  let ratio :=
    mul (div (ToNumber (bytes_data used_)) (ToNumber (bytes_data total_))) (Num 100) in
  let pressure := mul (pressureOrZero (pressurePercent res)) (Num 100) in
  let dict := dictMemoUsage res in
  customSize = ofZ (1024 ^ 3) ∧
  formatMemoUsage setting (Some res) =
    formatByDict (Format setting memoUsage) dict ∧
  dom dict = {[ "used"; "total"; "unit"; "percent"; "pressurePercent" ]} ∧
  dict !! "used" = Some (bytes_data used_) ∧
  dict !! "total" = Some (bytes_data total_) ∧
  dict !! "unit" = Some (VStr "GB") ∧
  dict !! "percent" = Some (VStr (toFixed 0 ratio)) ∧
  dict !! "pressurePercent" = Some (VStr (toFixed 0 pressure)) ∧
  (∀ x : Q, ratio = Num x → (0 <= x)%Q → (x < inject_Z (pow10 21))%Q →
     ∃ n : Z, dict !! "percent" = Some (VStr (pretty (Z.to_N n))) ∧
       (inject_Z n - (1 # 2) <= x)%Q ∧ (x < inject_Z n + (1 # 2))%Q) ∧
  (∀ x : Q, pressure = Num x → (0 <= x)%Q → (x < inject_Z (pow10 21))%Q →
     ∃ n : Z, dict !! "pressurePercent" = Some (VStr (pretty (Z.to_N n))) ∧
       (inject_Z n - (1 # 2) <= x)%Q ∧ (x < inject_Z n + (1 # 2))%Q) ∧
  (pressurePercent res = None → dict !! "pressurePercent" = Some (VStr "0")) ∧
  (bytes_data used_ = VStr "8.00" → bytes_data total_ = VStr "16.00" →
   pressurePercent res = Some (Num (1 # 2)) →
     dict !! "percent" = Some (VStr "50") ∧
     dict !! "pressurePercent" = Some (VStr "50") ∧
     dict !! "unit" = Some (VStr "GB")) ∧
  (bytes_data used_ = VStr "0.29" → bytes_data total_ = VStr "2.00" →
     dict !! "percent" = Some (VStr "14")) ∧
  (pressurePercent res = Some (StringToNumber "0.015") →
     dict !! "pressurePercent" = Some (VStr "2")).
Proof.
  intros usedBytes used_ total_ ratio pressure dict.
  assert (dict !! "percent" = Some (VStr (toFixed 0 ratio))) as Hpercent by done.
  assert (dict !! "pressurePercent" = Some (VStr (toFixed 0 pressure))) as Hpressure
    by done.
  split_and!; try done.
  - intros x Hx Hpos Hlt.
    destruct (toFixed_integer_nearest x Hpos Hlt) as (n & Hn & Hlo & Hhi).
    exists n. by rewrite Hpercent, Hx, Hn.
  - intros x Hx Hpos Hlt.
    destruct (toFixed_integer_nearest x Hpos Hlt) as (n & Hn & Hlo & Hhi).
    exists n. by rewrite Hpressure, Hx, Hn.
  - intros Hnone. rewrite Hpressure. unfold pressure. by rewrite Hnone.
  - intros Hused Htotal Hr. split_and!; [| |done].
    + rewrite Hpercent. unfold ratio. rewrite Hused, Htotal. by vm_compute.
    + rewrite Hpressure. unfold pressure. rewrite Hr. by vm_compute.
  - intros Hused Htotal. rewrite Hpercent. unfold ratio.
    rewrite Hused, Htotal. by vm_compute.
  - intros Hr. rewrite Hpressure. unfold pressure. rewrite Hr. by vm_compute.
Qed.

End FormatterClaims.

(** ** The running driver *)

Section DriverFacts.
Context `{Utils}.
Implicit Types (st : State) (w : World).

Lemma Running_armed st : Running st → timers (host st) ≠ ∅.
Proof. intros (t & ms & _ & ->). apply insert_non_empty. Qed.

Lemma slotKind_position setting st i id :
  NoDup (statusItems (bar st)) →
  statusItems (bar st) !! i = Some id →
  slotKind setting st id = curModules setting !! i.
Proof.
  intros Hnodup Hid. unfold slotKind.
  assert (list_find (λ x, x = id) (statusItems (bar st)) = Some (i, id)) as ->; [|done].
  apply list_find_Some. split_and!; [done..|].
  intros j y Hj Hlt ->. pose proof (NoDup_lookup _ _ _ _ Hnodup Hid Hj). lia.
Qed.

(** A running driver in a reachable world: the slots are the items of
    the driver, one per enabled kind. *)
Lemma running_slots w :
  reachable w → Running (state w) →
  slots (host (state w)) = statusItems (bar (state w)) ∧
  length (slots (host (state w))) = length (curModules (setting w)) ∧
  NoDup (slots (host (state w))).
Proof.
  intros Hinv%reachable_Inv Hrun%Running_armed.
  destruct (inv_running _ Hinv Hrun) as (_ & Hs & Hlen).
  rewrite <-Hs. split_and!; [done..|]. apply Hinv.
Qed.

Lemma slot_item w i id :
  slots (host (state w)) !! i = Some id →
  ∃ it, items (host (state w)) !! id = Some it ∧ StatusBarItem.disposed it = false.
Proof.
  intros Hid. assert (id ∈ slots (host (state w))) as Hlive%elem_of_slots.
  { apply list_elem_of_lookup. by exists i. }
  unfold isLive in Hlive. destruct (items (host (state w)) !! id) as [it|]; [|done].
  exists it. split; [done|]. by destruct (StatusBarItem.disposed it).
Qed.

(** A tick of a running driver: it completes, and the slot at each
    position is treated according to the result for the kind at that
    position, and to nothing else. *)
Lemma running_tick w probe :
  reachable w → Running (state w) →
  ∃ st', getSysInfo (setting w) probe (state w) = (Ok (), st') ∧
    slots (host st') = slots (host (state w)) ∧
    ∀ i module id,
      curModules (setting w) !! i = Some module →
      slots (host (state w)) !! i = Some id →
      items (host st') !! id =
      tickItem (formatRes (setting w) module (reading module (probe i)))
        <$> items (host (state w)) !! id.
Proof.
  intros Hreach Hrun. destruct (running_slots w Hreach Hrun) as (Hs & Hlen & Hnodup).
  rewrite Hs in *.
  destruct (getSysInfo_writes (setting w) probe (state w) Hnodup Hlen)
    as (st' & Htick & Hin & _).
  exists st'. split_and!; [done| |done].
  pose proof (getSysInfo_frame (setting w) probe (state w)) as Hframe.
  rewrite Htick in Hframe. simpl in Hframe. destruct Hframe as (Hb & _ & Hl & Hlive).
  rewrite <-Hs. by apply slots_ext.
Qed.

(** Starting with the global flag on leaves one slot per enabled kind. *)
Lemma start_slots setting st :
  AllEnabled setting = true →
  is_Some (_context (bar st)) →
  (∀ id, isLive (host st) id → id ∈ statusItems (bar st)) →
  timers (host st) = ∅ →
  let st' := start setting st in
  length (slots (host st')) = length (curModules setting) ∧
  (∀ id, id ∈ slots (host st') →
     items (host st') !! id =
     Some (StatusBarItem.create (StatusBarAlignment (orLeft (Location setting)))
             (orDefault (Priority setting) (default_priority setting)))) ∧
  (curModules setting ≠ [] → Running st' ∧ slots (host st') = statusItems (bar st')).
Proof.
  intros Hon [context Hctx] Hknown Hidle. simpl.
  destruct (decide (curModules setting = [])) as [Hnil|Hne].
  - destruct (start_off_spec setting st) as (-> & _); [by right; left|done|by rewrite Hctx|].
    rewrite Hnil. split_and!; [done| |done].
    intros id Hid. by apply elem_of_nil in Hid.
  - destruct (start_on_spec _ _ _ Hctx Hon Hne Hknown)
      as (Hids & Hslots & Ht & Hts & _ & Hnew).
    rewrite Hslots. split_and!.
    + by rewrite Hids, length_seq.
    + intros id [i Hi]%list_elem_of_lookup. by apply (Hnew i).
    + intros _. split; [|done].
      exists (nextTimer (host st)),
        (orDefault (RefreshInterval setting) (default_refreshInterval setting)).
      split; [done|]. by rewrite Hts, Hidle.
Qed.

End DriverFacts.

(** ** The driver: slots, ticks, idleness *)

Section DriverClaims.
Context `{Utils}.
Implicit Types (st : State) (w : World).

(** The state in which [onSettingUpdate] and [init] call [start]. *)
Lemma cancelled_ready w :
  Inv w →
  let st := cancelUpdate false (state w) in
  (∀ id, isLive (host st) id → id ∈ statusItems (bar st)) ∧
  (_context (bar st) = None → statusItems (bar st) = []) ∧
  timers (host st) = ∅ ∧
  _context (bar st) = _context (bar (state w)).
Proof.
  intros Hinv. simpl.
  destruct (cancelUpdate_frame false (state w)) as (Hb & Hi & _).
  rewrite Hb. split_and!; [| |by apply cancelUpdate_clears, Hinv|done].
  - intros id. rewrite (isLive_items (host (state w))) by done. apply Hinv.
  - intros Hnone. by apply Hinv.
Qed.

Lemma initialised_ready w context :
  Inv w →
  _context (bar (state w)) = None →
  let st := siInit {| bar := {| statusItems := statusItems (bar (state w));
                                timer := timer (bar (state w));
                                _context := Some context |};
                      host := host (state w) |} in
  (∀ id, isLive (host st) id → id ∈ statusItems (bar st)) ∧
  (_context (bar st) = None → statusItems (bar st) = []) ∧
  timers (host st) = ∅ ∧
  _context (bar st) = Some context.
Proof.
  intros Hinv Hnone. simpl.
  destruct (inv_context _ Hinv Hnone) as [Hids Hidle].
  set (st0 := {| bar := _; host := _ |}).
  destruct (siInit_frame st0) as (Hb & Hi & Ht & _).
  rewrite Hb, Ht. simpl. split_and!; try done.
  intros id. rewrite (isLive_items (host (state w))) by done. apply Hinv.
Qed.

Lemma start_off_idle setting st :
  AllEnabled setting = false ∨ curModules setting = [] →
  (∀ id, isLive (host st) id → id ∈ statusItems (bar st)) →
  (_context (bar st) = None → statusItems (bar st) = []) →
  timers (host st) = ∅ →
  Idle (start setting st).
Proof.
  intros Hoff Hknown Hfresh Hidle.
  destruct (start_off_spec setting st) as (Hs & _ & Ht); [|done|done|].
  { destruct Hoff; [by left|by right; left]. }
  split; [done|]. by rewrite Ht.
Qed.

(** C7.  After [init], or after a configuration change, in which the
    global enable flag is off or the list of enabled kinds is empty, the
    driver is Idle: there is no display slot and no armed timer. *)
Theorem disabled_is_idle (w : World) (setting' : Setting) (context : ExtensionContext) :
  reachable w →
  AllEnabled setting' = false ∨ curModules setting' = [] →
  Idle (onSettingUpdate setting' (state w)) ∧
  Idle (init setting' context initial) ∧
  (_context (bar (state w)) = None → Idle (init setting' context (state w))).
Proof.
  intros Hinv%reachable_Inv Hoff.
  assert (∀ w', Inv w' → _context (bar (state w')) = None →
                Idle (init setting' context (state w'))) as Hinit.
  { intros w' Hinv' Hnone.
    destruct (initialised_ready w' context Hinv' Hnone) as (Hknown & Hfresh & Hidle & _).
    by apply start_off_idle. }
  split_and!.
  - destruct (cancelled_ready w Hinv) as (Hknown & Hfresh & Hidle & _).
    by apply start_off_idle.
  - apply (Hinit {| setting := setting'; state := initial |}); [|done].
    apply Inv_initial.
  - by apply Hinit.
Qed.

(** C1, as the code has it.  With the global flag on, starting the
    driver leaves exactly one display slot per enabled kind, in the
    configured order.  On every tick of the running driver the
    formatted result for the i-th enabled kind goes to the slot at
    position i, and to no other: it is written there unless it is the
    placeholder, which leaves the slot as it was.  No two slots share a
    kind when no kind is listed twice. *)
Theorem slots_follow_enabled_kinds (w : World) (setting' : Setting)
    (context : ExtensionContext) :
  reachable w →
  AllEnabled setting' = true →
  let fresh :=
    StatusBarItem.create (StatusBarAlignment (orLeft (Location setting')))
      (orDefault (Priority setting') (default_priority setting')) in
  (is_Some (_context (bar (state w))) →
     let st' := onSettingUpdate setting' (state w) in
     length (slots (host st')) = length (curModules setting') ∧
     (∀ id, id ∈ slots (host st') → items (host st') !! id = Some fresh) ∧
     (curModules setting' ≠ [] → Running st')) ∧
  (_context (bar (state w)) = None →
     let st' := init setting' context (state w) in
     length (slots (host st')) = length (curModules setting') ∧
     (∀ id, id ∈ slots (host st') → items (host st') !! id = Some fresh) ∧
     (curModules setting' ≠ [] → Running st')) ∧
  (Running (state w) →
     length (slots (host (state w))) = length (curModules (setting w)) ∧
     NoDup (slots (host (state w))) ∧
     (∀ probe, ∃ st',
        getSysInfo (setting w) probe (state w) = (Ok (), st') ∧
        slots (host st') = slots (host (state w)) ∧
        ∀ i module id,
          curModules (setting w) !! i = Some module →
          slots (host (state w)) !! i = Some id →
          slotKind (setting w) (state w) id = Some module ∧
          items (host st') !! id =
          tickItem (formatRes (setting w) module (reading module (probe i)))
            <$> items (host (state w)) !! id) ∧
     (NoDup (curModules (setting w)) →
        ∀ id1 id2,
          id1 ∈ slots (host (state w)) → id2 ∈ slots (host (state w)) →
          id1 ≠ id2 →
          is_Some (slotKind (setting w) (state w) id1) ∧
          slotKind (setting w) (state w) id1 ≠ slotKind (setting w) (state w) id2)).
Proof.
  intros Hreach Hon fresh. pose proof (reachable_Inv _ Hreach) as Hinv. split_and!.
  - intros Hctx. simpl.
    destruct (cancelled_ready w Hinv) as (Hknown & _ & Hidle & Hsame).
    unfold onSettingUpdate.
    destruct (start_slots setting' (cancelUpdate false (state w)))
      as (Hlen & Hnew & Hrun); [done|by rewrite Hsame|done|done|].
    split_and!; [done..|]. intros Hne. by apply Hrun.
  - intros Hnone. simpl.
    destruct (initialised_ready w context Hinv Hnone) as (Hknown & _ & Hidle & Hsome).
    unfold init.
    match goal with |- context [start setting' ?st] =>
      destruct (start_slots setting' st) as (Hlen & Hnew & Hrun);
        [done|by rewrite Hsome|done|done|]
    end.
    split_and!; [done..|]. intros Hne. by apply Hrun.
  - intros Hrun. destruct (running_slots w Hreach Hrun) as (Hs & Hlen & Hnodup).
    split_and!; [done..| |].
    + intros probe. destruct (running_tick w probe Hreach Hrun) as (st' & Htick & Hslots & Hin).
      exists st'. split_and!; [done..|]. intros i module id Hm Hid. split; [|by apply Hin].
      rewrite (slotKind_position _ _ i); [done| |]; by rewrite <-Hs.
    + intros Hkinds id1 id2 [i Hi]%list_elem_of_lookup [j Hj]%list_elem_of_lookup Hne.
      rewrite (slotKind_position _ _ i), (slotKind_position _ _ j); try by rewrite <-Hs.
      assert (i < length (curModules (setting w))) as Hlt.
      { rewrite <-Hlen. by eapply lookup_lt_Some. }
      apply lookup_lt_is_Some in Hlt. split; [done|]. destruct Hlt as [module Hm].
      rewrite Hm. intros Hm'. symmetry in Hm'.
      pose proof (NoDup_lookup _ _ _ _ Hkinds Hm Hm') as ->. congruence.
Qed.

(** C2.  In every tick of the running driver and at every position: a
    result whose text is the placeholder leaves the slot at that
    position as it was, with its text, tooltip and visibility; any other
    result is written to the slot, with the name of the kind as tooltip,
    and the slot is shown. *)
Theorem placeholder_keeps_slot (w : World) (probe : nat → Platform) :
  reachable w →
  Running (state w) →
  ∃ st',
    getSysInfo (setting w) probe (state w) = (Ok (), st') ∧
    ∀ i module id,
      curModules (setting w) !! i = Some module →
      slots (host (state w)) !! i = Some id →
      let data := formatRes (setting w) module (reading module (probe i)) in
      ∃ it it',
        items (host (state w)) !! id = Some it ∧
        items (host st') !! id = Some it' ∧
        (FormatedData.text data = "-" → it' = it) ∧
        (FormatedData.text data ≠ "-" →
           StatusBarItem.text it' = FormatedData.text data ∧
           StatusBarItem.tooltip it' = StatsModuleNameMap module ∧
           StatusBarItem.visible it' = true ∧
           StatusBarItem.alignment it' = StatusBarItem.alignment it ∧
           StatusBarItem.priority it' = StatusBarItem.priority it ∧
           StatusBarItem.disposed it' = false).
Proof.
  intros Hreach Hrun.
  destruct (running_tick w probe Hreach Hrun) as (st' & Htick & _ & Hin).
  exists st'. split; [done|]. intros i module id Hm Hid data.
  destruct (slot_item w i id Hid) as (it & Hit & Hlive).
  exists it, (tickItem data it). rewrite (Hin i module id Hm Hid), Hit.
  split_and!; [done..| |].
  - intros Htext. unfold tickItem. by rewrite decide_True.
  - intros Htext. unfold tickItem. rewrite decide_False by done. done.
Qed.

End DriverClaims.

(** ** Templates *)

Section TemplateFacts.
Import Template.

Lemma span_app {A} (p : A → bool) (l a b : list A) :
  span p l = (a, b) → l = a ++ b.
Proof.
  revert a b. induction l as [|x l IH]; intros a b; simpl.
  { by intros [= <- <-]. }
  destruct (p x); [|by intros [= <- <-]].
  destruct (span p l) as [a' b'] eqn:Hspan. intros [= <- <-].
  simpl. f_equal. by apply IH.
Qed.


Lemma str_chars (s : string) : str (chars s) = s.
Proof. apply String.string_of_list_ascii_of_string. Qed.





Lemma chars_app (a b : string) : chars (a +:+ b) = chars a ++ chars b.
Proof.
  induction a as [|c a IH]; [done|].
  rewrite append_cons. simpl. f_equal. apply IH.
Qed.

Lemma chars_str (l : list ascii) : chars (str l) = l.
Proof. apply String.list_ascii_of_string_of_list_ascii. Qed.

Lemma span_all {A} (p : A → bool) (l rest : list A) :
  Forall (λ x, p x = true) l →
  match rest with [] => True | x :: _ => p x = false end →
  span p (l ++ rest) = (l, rest).
Proof.
  intros Hl Hrest. induction Hl as [|x l Hx _ IH]; simpl.
  - destruct rest as [|y rest]; [done|]. simpl. by rewrite Hrest.
  - by rewrite Hx, IH.
Qed.

Lemma span_none {A} (p : A → bool) (l : list A) :
  match l with [] => True | x :: _ => p x = false end → span p l = ([], l).
Proof. intros Hl. apply (span_all p [] l); [constructor|done]. Qed.

Lemma span_Forall {A} (p : A → bool) (l a b : list A) :
  span p l = (a, b) →
  Forall (λ x, p x = true) a ∧
  match b with [] => True | x :: _ => p x = false end.
Proof.
  revert a b. induction l as [|x l IH]; intros a b; simpl.
  { by intros [= <- <-]. }
  destruct (p x) eqn:Hx; [|intros [= <- <-]; by split].
  destruct (span p l) as [a' b'] eqn:Hspan. intros [= <- <-].
  destruct (IH a' b' eq_refl) as [Ha Hb]. split; [by constructor|done].
Qed.









End TemplateFacts.


Section TemplateClaims.
Import Template.
Variable show : value → string.





End TemplateClaims.

Section AdapterClaims.
Context `{Utils}.

(** C3, as the code has it.  Every adapter returns, for every outcome of
    the library and OS calls below it: a reading, or no value when a
    call throws; nothing is thrown to the caller.  So a tick in which
    one adapter fails still completes, and the slot of every adapter
    that succeeded is treated as in any other tick: the reading is
    formatted and written to it, unless the formatter gives the
    placeholder for that reading, which leaves the slot as it was. *)
Theorem adapters_never_throw (w : World) (probe : nat → Platform) :
  reachable w →
  Running (state w) →
  (∀ module p, ∃ res : option (Reading module), sysinfoData module p = Ok res) ∧
  (∀ p e, si_currentLoad p = Throw e → sysinfoData cpuLoad p = Ok None) ∧
  (∀ p e, os_loadavg p = Throw e → sysinfoData loadavg p = Ok None) ∧
  (∀ p e, si_networkInterfaceDefault p = Throw e →
          sysinfoData networkSpeed p = Ok None) ∧
  (∀ p e, (if isDarwin then getMacOsMemoryUsageInfo p = Throw e
           else si_mem p = Throw e) →
          sysinfoData memoUsage p = Ok None) ∧
  (∀ p e, os_uptime p = Throw e → sysinfoData uptime p = Ok None) ∧
  (∀ p e, execPromise p "uname -m" = Throw e → sysinfoData gpuLoad p = Ok None) ∧
  ∃ st',
    getSysInfo (setting w) probe (state w) = (Ok (), st') ∧
    ∀ j module id (res : Reading module),
      curModules (setting w) !! j = Some module →
      slots (host (state w)) !! j = Some id →
      sysinfoData module (probe j) = Ok (Some res) →
      let data := formatRes (setting w) module (Some res) in
      ∃ it,
        items (host (state w)) !! id = Some it ∧
        items (host st') !! id = Some (tickItem data it) ∧
        (FormatedData.text data ≠ "-" →
           items (host st') !! id =
           Some (StatusBarItem.write (FormatedData.text data)
                   (StatsModuleNameMap module) it)).
Proof.
  intros Hreach Hrun. split_and!.
  - intros module p. apply sysinfoData_returns.
  - intros p e He. simpl. unfold getCpuLoad. by rewrite He.
  - intros p e He. simpl. unfold getLoadavg. by rewrite He.
  - intros p e He. simpl. unfold getNetworkSpeed. by rewrite He.
  - intros p e He. simpl. unfold getMemoryUsage. destruct isDarwin; by rewrite He.
  - intros p e He. simpl. unfold getUpTime. by rewrite He.
  - intros p e He. simpl. unfold getGpuLoad, detectPlatform. by rewrite He.
  - destruct (running_tick w probe Hreach Hrun) as (st' & Htick & _ & Hin).
    exists st'. split; [done|]. intros j module id res Hm Hid Hres data.
    destruct (slot_item w j id Hid) as (it & Hit & _).
    exists it. rewrite (Hin j module id Hm Hid), Hit.
    unfold reading. rewrite Hres. split_and!; [done..|].
    intros Htext. simpl. f_equal. unfold tickItem. by rewrite decide_False.
Qed.

End AdapterClaims.

Section GpuParsing.

(** The Tegra path: a line without the figures gives no reading, and
    the lines around it are parsed all the same. *)
Lemma tegra_skips_line (before after : list string) (line : string) :
  tegraLine line = None →
  omap tegraLine (before ++ line :: after) =
  omap tegraLine before ++ omap tegraLine after.
Proof. intros Hline. rewrite omap_app. simpl. by rewrite Hline. Qed.

Lemma getTegraInfo_lines (p : Platform) (r : ExecResult) :
  execPromise p "tegrastats" = Ok r →
  stderr r = EmptyString →
  getTegraInfo p = Ok (Some (omap tegraLine (JS.split LF (trim (stdout r))))).
Proof.
  intros Hexec Herr. unfold getTegraInfo. rewrite Hexec. simpl.
  by rewrite decide_True.
Qed.

(** The NVIDIA path: every line gives a reading, whatever it holds. *)
Lemma getX86GpuInfo_lines (p : Platform) (r : ExecResult) :
  execPromise p
    "nvidia-smi --query-gpu=memory.total,memory.used,utilization.gpu --format=csv,noheader,nounits"
    = Ok r →
  stderr r = EmptyString →
  ∃ gpus, getX86GpuInfo p = Ok (Some gpus) ∧
          length gpus = length (JS.split LF (trim (stdout r))).
Proof.
  intros Hexec Herr. unfold getX86GpuInfo. rewrite Hexec. simpl.
  rewrite decide_True by done. eexists. split; [done|]. apply length_fmap.
Qed.

(** C8, at an output of [nvidia-smi] whose first line has [[N/A]] in
    every field: the line becomes a reading of NaNs, it is the first GPU
    of the list, and the gpuLoad formatter prints it. *)
Theorem x86_line_without_figures :
  let p := Sample.platform (Throw "EPERM") (Throw "EPERM") Sample.nvidiaShell in
  let nan := {| totalMemory := Some NaN; usedMemory := Some NaN;
                gpuUtilization := Some NaN |} in
  let ok := {| totalMemory := Some (Num 8192); usedMemory := Some (Num 1024);
               gpuUtilization := Some (Num 37) |} in
  getX86GpuInfo p = Ok (Some [nan; ok]) ∧
  sysinfoData (H := Sample.utils) gpuLoad p = Ok (Some [nan; ok]) ∧
  formatGpuLoad (H := Sample.utils) (Sample.setting true [gpuLoad]) (Some [nan; ok]) =
    "NaN% NaN/NaN GB" ∧
  tegraLine "[N/A], [N/A], [N/A]" = None.
Proof. by vm_compute. Qed.

End GpuParsing.

(** ** The sample inputs: counterexamples and instances *)

Section Samples.
#[local] Existing Instance Sample.utils.

Lemma started_reachable (modules : list StatsModule) :
  reachable (Sample.started modules).
Proof.
  exists (Sample.setting true modules). apply rtc_once.
  apply (step_init Sample.context
           {| setting := Sample.setting true modules; state := initial |}).
  done.
Qed.

Lemma started_running (modules : list StatsModule) :
  modules ≠ [] → Running (state (Sample.started modules)).
Proof.
  intros Hne. unfold Sample.started, init. simpl.
  match goal with |- Running (start ?s ?st) =>
    destruct (start_slots s st) as (_ & _ & Hrun); [done|by eexists|done|done|]
  end.
  by apply Hrun.
Qed.

(** The tick of the sample world with the kinds cpuLoad and loadavg,
    when the CPU load call throws. *)
Example tick_with_failing_adapter :
  let w := Sample.started [cpuLoad; loadavg] in
  let tick := getSysInfo (setting w) (λ _, Sample.failing) (state w) in
  tick.1 = Ok () ∧
  items (host tick.2) !! 0 = items (host (state w)) !! 0 ∧
  items (host tick.2) !! 1 =
    Some (StatusBarItem.write "1.23, 0.50, 0" "Loadavg"
            (StatusBarItem.create (Some 1%Z) (-1))).
Proof. by vm_compute. Qed.

(** C1 fails as stated when a kind is listed twice: the slots at
    positions 0 and 1 both stand for cpuLoad.  And a placeholder result,
    here the one for position 1, is not written to its slot. *)
Lemma two_slots_share_a_kind :
  let w := Sample.started [cpuLoad; cpuLoad] in
  let probe := λ i : nat, match i with O => Sample.busy | _ => Sample.failing end in
  let tick := getSysInfo (setting w) probe (state w) in
  AllEnabled (setting w) = true ∧
  slots (host (state w)) = [0; 1] ∧
  slotKind (setting w) (state w) 0 = Some cpuLoad ∧
  slotKind (setting w) (state w) 1 = Some cpuLoad ∧
  ¬ (slotKind (setting w) (state w) 0 ≠ slotKind (setting w) (state w) 1) ∧
  tick.1 = Ok () ∧
  FormatedData.text <$> results (setting w) probe !! 1 = Some "-" ∧
  StatusBarItem.text <$> items (host tick.2) !! 1 = Some EmptyString ∧
  StatusBarItem.text <$> items (host tick.2) !! 0 = Some "43%".
Proof. vm_compute. by split_and!. Qed.

(** C3 fails as stated when an adapter succeeds with a reading its
    formatter maps to the placeholder: the Tegra tool prints no line
    with the figures, the GPU adapter returns an empty list, and the
    slot at position 0 is not updated, in a tick in which the CPU
    adapter at position 1 fails and the slot at position 2 is
    updated. *)
Lemma succeeded_adapter_slot_not_updated :
  let w := Sample.started [gpuLoad; cpuLoad; loadavg] in
  let probe := λ _ : nat, Sample.tegraNoFigures in
  let tick := getSysInfo (setting w) probe (state w) in
  slots (host (state w)) = [0; 1; 2] ∧
  sysinfoData cpuLoad (probe 1) = Ok None ∧
  sysinfoData gpuLoad (probe 0) = Ok (Some []) ∧
  tick.1 = Ok () ∧
  items (host tick.2) !! 0 = items (host (state w)) !! 0 ∧
  StatusBarItem.visible <$> items (host tick.2) !! 0 = Some false ∧
  StatusBarItem.text <$> items (host tick.2) !! 2 = Some "1.23, 0.50, 0".
Proof. by vm_compute. Qed.

Lemma disabled_is_idle_witness :
  let w := Sample.started [cpuLoad; loadavg] in
  let setting' := Sample.setting false [cpuLoad; loadavg] in
  reachable w ∧
  (AllEnabled setting' = false ∨ curModules setting' = []) ∧
  Running (state w) ∧
  Idle (onSettingUpdate setting' (state w)).
Proof.
  intros w setting'.
  split; [apply started_reachable|]. split; [by left|].
  split; [by apply started_running|].
  apply (disabled_is_idle w setting' Sample.context); [apply started_reachable|by left].
Defined.

Lemma slots_follow_enabled_kinds_witness :
  let w := Sample.started [cpuLoad; loadavg] in
  let setting' := Sample.setting true [uptime; cpuLoad; memoUsage] in
  reachable w ∧
  AllEnabled setting' = true ∧
  length (slots (host (onSettingUpdate setting' (state w)))) = 3 ∧
  length (slots (host (state w))) = 2.
Proof.
  intros w setting'.
  split; [apply started_reachable|]. split; [done|].
  destruct (slots_follow_enabled_kinds w setting' Sample.context)
    as (Hstart & _ & Htick); [apply started_reachable|done|].
  split.
  - apply Hstart. by eexists.
  - apply Htick. by apply started_running.
Defined.

Lemma placeholder_keeps_slot_witness :
  let w := Sample.started [cpuLoad; loadavg] in
  let probe := λ _ : nat, Sample.failing in
  reachable w ∧
  Running (state w) ∧
  ∃ st', getSysInfo (setting w) probe (state w) = (Ok (), st').
Proof.
  intros w probe.
  split; [apply started_reachable|]. split; [by apply started_running|].
  destruct (placeholder_keeps_slot w probe) as (st' & Htick & _);
    [apply started_reachable|by apply started_running|].
  by exists st'.
Defined.

Lemma adapters_never_throw_witness :
  let w := Sample.started [gpuLoad; cpuLoad; loadavg] in
  let probe := λ _ : nat, Sample.tegraNoFigures in
  reachable w ∧
  Running (state w) ∧
  (∀ module p, ∃ res : option (Reading module), sysinfoData module p = Ok res) ∧
  ∃ st', getSysInfo (setting w) probe (state w) = (Ok (), st').
Proof.
  intros w probe.
  split; [apply started_reachable|]. split; [by apply started_running|].
  destruct (adapters_never_throw w probe)
    as (Hret & _ & _ & _ & _ & _ & _ & st' & Htick & _);
    [apply started_reachable|by apply started_running|].
  split; [done|]. by exists st'.
Defined.

Lemma zero_reading_is_no_data_witness :
  (0 == 0)%Q ∧
  si_currentLoad Sample.idle = Ok {| currentLoad := Num 0 |} ∧
  os_uptime Sample.idle = Ok (Num 0) ∧
  FormatedData.text
    (formatRes (Sample.setting true [cpuLoad]) cpuLoad (reading cpuLoad Sample.idle)) = "-" ∧
  FormatedData.text
    (formatRes (Sample.setting true [uptime]) uptime (reading uptime Sample.idle)) = "-".
Proof.
  split; [reflexivity|]. split; [reflexivity|]. split; [reflexivity|].
  split.
  - apply (zero_reading_is_no_data (Sample.setting true [cpuLoad]) Sample.idle 0);
      reflexivity.
  - apply (zero_reading_is_no_data (Sample.setting true [uptime]) Sample.idle 0);
      reflexivity.
Defined.

Lemma formatMemoUsage_placeholders_witness :
  let used_ :=
    formatBytes (Utils := Sample.darwin) (used Sample.memory)
      (Some 2%nat) (Some customSize) in
  let total_ :=
    formatBytes (Utils := Sample.darwin) (total Sample.memory)
      (Some 2%nat) (Some customSize) in
  bytes_data used_ = VStr "8.00" ∧
  bytes_data total_ = VStr "16.00" ∧
  pressurePercent Sample.memory = Some (Num (1 # 2)) ∧
  dictMemoUsage (H := Sample.darwin) Sample.memory !! "percent" = Some (VStr "50") ∧
  dictMemoUsage (H := Sample.darwin) Sample.memory !! "pressurePercent" =
    Some (VStr "50") ∧
  dictMemoUsage (H := Sample.darwin) Sample.memory !! "unit" = Some (VStr "GB").
Proof.
  intros used_ total_.
  assert (bytes_data used_ = VStr "8.00") as Hused by (by vm_compute).
  assert (bytes_data total_ = VStr "16.00") as Htotal by (by vm_compute).
  split; [done|]. split; [done|]. split; [reflexivity|].
  destruct (formatMemoUsage_placeholders (H := Sample.darwin)
              (Sample.setting true [memoUsage]) Sample.memory)
    as (_ & _ & _ & _ & _ & _ & _ & _ & _ & _ & _ & Hexample & _).
  by apply Hexample.
Defined.

(** C4 fails as stated: [percent] is not the used bytes over the total
    bytes times 100, rounded.  On Darwin, with 15032385 of 27917287
    bytes used, the figures are 0.01 and 0.03 and [percent] is "33",
    where the bytes give 54.  Off Darwin the figure is the active
    memory: with 9 GiB used, 8 GiB active and 16 GiB in all, the [used]
    placeholder is "8.00" and [percent] is "50", where the used bytes
    give 56. *)
Lemma memoUsage_percent_of_figures :
  let small := {| total := Num 27917287; used := Num 15032385;
                  active := Num 15032385;
                  pressurePercent := None; usagePercent := None |} in
  let linux := {| total := Num (16 * 1024 * 1024 * 1024);
                  used := Num (9 * 1024 * 1024 * 1024);
                  active := Num (8 * 1024 * 1024 * 1024);
                  pressurePercent := None; usagePercent := None |} in
  (dictMemoUsage (H := Sample.darwin) small !! "used" = Some (VStr "0.01") ∧
   dictMemoUsage (H := Sample.darwin) small !! "total" = Some (VStr "0.03") ∧
   dictMemoUsage (H := Sample.darwin) small !! "percent" = Some (VStr "33") ∧
   (54 - (1 # 2) <= 15032385 / 27917287 * 100)%Q ∧
   (15032385 / 27917287 * 100 < 54 + (1 # 2))%Q) ∧
  (sysinfoData (H := Sample.utils) memoUsage Sample.busy = Ok (Some linux) ∧
   dictMemoUsage (H := Sample.utils) linux !! "used" = Some (VStr "8.00") ∧
   dictMemoUsage (H := Sample.utils) linux !! "percent" = Some (VStr "50") ∧
   (56 - (1 # 2) <= 9 / 16 * 100)%Q ∧ (9 / 16 * 100 < 56 + (1 # 2))%Q).
Proof. by vm_compute. Qed.

Lemma formatGpuLoad_first_gpu_witness :
  let gpu := {| totalMemory := Some (Num 8192); usedMemory := Some (Num 1000);
                gpuUtilization := Some (Num (375 # 10)) |} in
  div (Num 1000) (Num 1024) = Num (125 # 128) ∧
  (0 <= 125 # 128)%Q ∧
  (125 # 128 < inject_Z (pow10 21))%Q ∧
  dictGpuLoad gpu !! "used" = Some (VStr "0.98") ∧
  dictGpuLoad gpu !! "total" = Some (VStr "8.00") ∧
  dictGpuLoad gpu !! "percent" = Some (VNum (Num 38)).
Proof.
  intros gpu.
  assert (div (Num 1000) (Num 1024) = Num (125 # 128)) as Hdiv by (by vm_compute).
  assert (0 <= 125 # 128)%Q as Hpos by (by vm_compute).
  assert (125 # 128 < inject_Z (pow10 21))%Q as Hlt by (by vm_compute).
  split; [done|]. split; [done|]. split; [done|].
  destruct (formatGpuLoad_first_gpu (Sample.setting true [gpuLoad])) as (_ & _ & _ & Hgpu).
  destruct (Hgpu gpu []) as (_ & _ & _ & _ & _ & _ & _ & Hmem).
  destruct (Hmem "used" (usedMemory gpu) 1000%Q (125 # 128)%Q) as (n & Hn & Hused & Hlo & Hhi);
    [left|reflexivity|done..|].
  assert (inject_Z 97 < inject_Z n)%Q as H1 by (change (inject_Z 97) with 97%Q; lra).
  assert (inject_Z n < inject_Z 99)%Q as H2 by (change (inject_Z 99) with 99%Q; lra).
  rewrite <-Zlt_Qlt in H1, H2. assert (n = 98%Z) as -> by lia.
  split; [exact Hused|]. split; reflexivity.
Defined.

(** C5 fails as stated for a memory value of 1024 * 10^21 and beyond:
    [toFixed(2)] then writes the quotient in exponent notation, without
    decimals.  The NVIDIA path reads such a line as it reads any other. *)
Lemma gpu_memory_in_exponent_notation :
  let gpu := {| totalMemory := Some (ofZ (1024 * 10 ^ 21));
                usedMemory := Some (ofZ 1000);
                gpuUtilization := Some (ofZ 37) |} in
  x86Line "1024000000000000000000000, 1000, 37" = gpu ∧
  div (ofZ (1024 * 10 ^ 21)) (Num 1024) = ofZ (10 ^ 21) ∧
  dictGpuLoad gpu !! "total" = Some (VStr "1e+21") ∧
  dictGpuLoad gpu !! "used" = Some (VStr "0.98") ∧
  dictGpuLoad gpu !! "percent" = Some (VNum (Num 37)).
Proof. by vm_compute. Qed.

(** The binary64 number written [1.234] is 5557441940175192 / 2^52. *)
Example binary64_1234 :
  Binary64.toNumber (Binary64.div (Binary64.ofZ 1234) (Binary64.ofZ 1000)) =
    Num (694680242521899 # 562949953421312) ∧
  Binary64.toNumber (Binary64.div (Binary64.ofZ 1) (Binary64.ofZ 2)) = Num (1 # 2).
Proof. by vm_compute. Qed.

(** The percent of the sample memory reading, computed in binary64. *)
Example binary64_percent :
  let gib := Binary64.ofZ (1024 * 1024 * 1024) in
  let used_ := Binary64.div (Binary64.ofZ (8 * 1024 * 1024 * 1024)) gib in
  let total_ := Binary64.div (Binary64.ofZ (16 * 1024 * 1024 * 1024)) gib in
  Binary64.toNumber used_ = Num 8 ∧
  Binary64.toNumber total_ = Num 16 ∧
  toFixed 0 (Binary64.toNumber
               (Binary64.mul (Binary64.div used_ total_) (Binary64.ofZ 100))) = "50" ∧
  toFixed 0 (Binary64.toNumber
               (Binary64.mul (Binary64.div (Binary64.ofZ 1) (Binary64.ofZ 2))
                  (Binary64.ofZ 100))) = "50".
Proof. by vm_compute. Qed.

(** [div], [mul] and [Number(string)] give the numbers of the binary64
    operations: 0.29 and 0.015 as they are read, 0.29 / 2 * 100, which is
    below 14.5, and 0.015 * 100, which is 1.5. *)
Example round64_binary64 :
  let b29 := Binary64.div (Binary64.ofZ 29) (Binary64.ofZ 100) in
  let b15 := Binary64.div (Binary64.ofZ 15) (Binary64.ofZ 1000) in
  StringToNumber "0.29" = Binary64.toNumber b29 ∧
  StringToNumber "0.015" = Binary64.toNumber b15 ∧
  div (ofZ 1234) (ofZ 1000) =
    Binary64.toNumber (Binary64.div (Binary64.ofZ 1234) (Binary64.ofZ 1000)) ∧
  mul (div (StringToNumber "0.29") (StringToNumber "2.00")) (Num 100) =
    Binary64.toNumber
      (Binary64.mul (Binary64.div b29 (Binary64.ofZ 2)) (Binary64.ofZ 100)) ∧
  mul (div (StringToNumber "0.29") (StringToNumber "2.00")) (Num 100) =
    Num (8162774324609023 # 562949953421312) ∧
  mul (StringToNumber "0.015") (Num 100) =
    Binary64.toNumber (Binary64.mul b15 (Binary64.ofZ 100)) ∧
  mul (StringToNumber "0.015") (Num 100) = Num (3 # 2) ∧
  StringToNumber "9007199254740993" = Num 9007199254740992 ∧
  StringToNumber "1e400" = Infinity ∧
  StringToNumber "1e-400" = Num 0.
Proof. by vm_compute. Qed.

(** The sign of zero: [Number("-0.00")] is -0, a quotient by it has the
    opposite sign, and -0 is written without a sign. *)
Example negative_zero :
  StringToNumber "-0.00" = NegZero ∧
  div (Num 8) (StringToNumber "-0.00") = NegInfinity ∧
  div (Num 8) (StringToNumber "-0.00") =
    Binary64.toNumber (Binary64.div (Binary64.ofZ 8) (S754_zero true)) ∧
  mul (div (Num (-1)) Infinity) (Num 100) = NegZero ∧
  mul (StringToNumber "-1e-400") (Num (-1)) = Num 0 ∧
  Math_round (Num (- (2 # 5))) = NegZero ∧
  toFixed 2 NegZero = "0.00" ∧
  toFixed 2 (Num (- (1 # 1000))) = "-0.00" ∧
  truthy NegZero = false.
Proof. by vm_compute. Qed.




End Samples.

(** ** More on the life cycle *)


Section LifecycleFacts.
Context `{Utils}.
Implicit Types (st : State) (w : World) (setting : Setting).

Lemma disposeItems_powerShell ids st :
  powerShell (host (disposeItems ids st)) = powerShell (host st).
Proof.
  revert st. induction ids as [|id ids IH]; intros st; simpl; [done|].
  by rewrite IH.
Qed.

Lemma start_cases setting st :
  (_context (bar st) = None ∧ start setting st = st) ∨
  (is_Some (_context (bar st)) ∧
   (AllEnabled setting = false ∨ curModules setting = []) ∧
   start setting st = disposeItems (statusItems (bar st)) st) ∨
  (∃ context, _context (bar st) = Some context ∧
     AllEnabled setting = true ∧ curModules setting ≠ []).
Proof.
  destruct (_context (bar st)) as [context|] eqn:Hctx.
  - right. destruct (AllEnabled setting) eqn:Hon.
    + destruct (decide (curModules setting = [])) as [Hnil|Hne].
      * left. split_and!; [done|by right|]. apply (start_off _ _ context); [done|by right].
      * right. by exists context.
    + left. split_and!; [done|by left|]. apply (start_off _ _ context); [done|by left].
  - left. split; [done|]. by apply start_no_context.
Qed.

Lemma start_on_host setting st context :
  _context (bar st) = Some context →
  AllEnabled setting = true →
  curModules setting ≠ [] →
  let st' := start setting st in
  let n := length (curModules setting) in
  _context (bar st') =
    Some {| subscriptions := subscriptions context ++ seq (length (items (host st))) n |} ∧
  length (items (host st')) = length (items (host st)) + n ∧
  powerShell (host st') = powerShell (host st).
Proof.
  intros Hctx Hon Hne. simpl. rewrite (start_on _ _ _ Hctx Hon Hne).
  destruct (disposeItems_frame (statusItems (bar st)) st) as (Hb & Ht & Hn & Hl & _).
  unfold update, setInterval, createStatusBarItems. simpl.
  rewrite length_app, length_replicate, Hl, disposeItems_powerShell. done.
Qed.

Lemma Kept_start setting st :
  (∀ id, isLive (host st) id → id ∈ statusItems (bar st)) →
  (_context (bar st) = None → statusItems (bar st) = []) →
  timers (host st) = ∅ →
  (∀ id, id ∈ statusItems (bar st) → id < length (items (host st))) →
  match _context (bar st) with
  | Some context => ∀ id, id < length (items (host st)) → id ∈ subscriptions context
  | None => items (host st) = []
  end →
  (powerShell (host st) = true → isWin32 = true ∧ is_Some (_context (bar st))) →
  Kept {| setting := setting; state := start setting st |}.
Proof.
  intros Hknown Hfresh Hidle Hids Hreg Hshell.
  destruct (start_cases setting st) as [[Hnone Hst]|[(Hsome & Hoff & Hst)|(context & Hctx & Hon & Hne)]].
  - rewrite Hst. split; simpl.
    + intros t ms. by rewrite Hidle, lookup_empty.
    + left. apply slots_nil. intros id Hid%Hknown. rewrite Hfresh in Hid by done.
      by apply elem_of_nil in Hid.
    + done.
    + done.
    + done.
  - destruct (start_off_spec setting st) as (Hs & Hb & Ht); [|done|done|].
    { destruct Hoff; [by left|by right; left]. }
    destruct (disposeItems_frame (statusItems (bar st)) st) as (_ & _ & _ & Hl & _).
    split; simpl; rewrite ?Hb, ?Ht.
    + intros t ms. by rewrite Hidle, lookup_empty.
    + by left.
    + rewrite Hst, Hl. apply Hids.
    + rewrite Hst, Hl. destruct (_context (bar st)); [done|]. by destruct Hsome.
    + rewrite Hst, disposeItems_powerShell. done.
  - destruct (start_on_spec _ _ _ Hctx Hon Hne Hknown) as (Hitems & Hslots & Ht & Hts & _ & _).
    destruct (start_on_host _ _ _ Hctx Hon Hne) as (Hc & Hl & Hps).
    rewrite Hctx in Hreg.
    split; simpl.
    + intros t ms. rewrite Hts, Hidle. intros [[_ <-]|[_ Hms]]%lookup_insert_Some; [done|].
      by rewrite lookup_empty in Hms.
    + right. split_and!; [done| |done]. by rewrite Hitems, length_seq.
    + intros id. rewrite Hitems, Hl. intros ?%elem_of_seq. lia.
    + rewrite Hc, Hl. intros id Hid. simpl. apply elem_of_app.
      destruct (decide (id < length (items (host st)))) as [Hold|Hnew].
      * left. by apply Hreg.
      * right. apply elem_of_seq. lia.
    + rewrite Hps, Hc. intros [Hw _]%Hshell. by split.
Qed.

(** A tick, however it ends: the driver, the timers and the host are as
    before, but for the display of the items the driver holds. *)
Lemma writeSlot_display data index st st' :
  writeSlot data index st = Ok st' →
  bar st' = bar st ∧
  timers (host st') = timers (host st) ∧
  nextTimer (host st') = nextTimer (host st) ∧
  powerShell (host st') = powerShell (host st) ∧
  length (items (host st')) = length (items (host st)) ∧
  (∀ id it, items (host st) !! id = Some it →
     ∃ it', items (host st') !! id = Some it' ∧ sameButDisplay it it') ∧
  (∀ id, id ∉ statusItems (bar st) → items (host st') !! id = items (host st) !! id).
Proof.
  unfold writeSlot. case_decide.
  { intros [= <-]. split_and!; try done. intros id it Hit. by exists it. }
  destruct (statusItems (bar st) !! index) as [id0|] eqn:Hid0; [|done].
  intros [= <-]. simpl. split_and!; try done.
  - apply length_alter.
  - intros id it Hit. destruct (decide (id0 = id)) as [->|Hne].
    + rewrite list_lookup_alter_eq, Hit. simpl. by eexists.
    + rewrite list_lookup_alter_ne by done. by exists it.
  - intros id Hid. apply list_lookup_alter_ne. intros ->. apply Hid.
    apply list_elem_of_lookup. by exists index.
Qed.

Lemma forEach_display res index st :
  let st' := (forEach res index st).2 in
  bar st' = bar st ∧
  timers (host st') = timers (host st) ∧
  nextTimer (host st') = nextTimer (host st) ∧
  powerShell (host st') = powerShell (host st) ∧
  length (items (host st')) = length (items (host st)) ∧
  (∀ id it, items (host st) !! id = Some it →
     ∃ it', items (host st') !! id = Some it' ∧ sameButDisplay it it') ∧
  (∀ id, id ∉ statusItems (bar st) → items (host st') !! id = items (host st) !! id).
Proof.
  revert index st. induction res as [|data rest IH]; intros index st; simpl.
  { split_and!; try done. intros id it Hit. by exists it. }
  destruct (writeSlot data index st) as [st1|e] eqn:Hw; simpl.
  2:{ split_and!; try done. intros id it Hit. by exists it. }
  destruct (writeSlot_display _ _ _ _ Hw) as (Hb & Ht & Hn & Hp & Hl & Hsame & Hout).
  destruct (IH (S index) st1) as (Hb' & Ht' & Hn' & Hp' & Hl' & Hsame' & Hout').
  split_and!; [congruence..| |].
  - intros id it Hit. destruct (Hsame id it Hit) as (it1 & Hit1 & (? & ? & ?)).
    destruct (Hsame' id it1 Hit1) as (it' & Hit' & (? & ? & ?)).
    exists it'. split; [done|]. split_and!; congruence.
  - intros id Hid. rewrite Hout' by (by rewrite Hb). by apply Hout.
Qed.

Lemma Kept_step w w' : Inv w → Kept w → step w w' → Kept w'.
Proof.
  intros Hinv [Hperiod Hslots Hids Hreg Hshell] Hstep.
  destruct Hstep as [context w Hnone|setting' w|probe w|w].
  - destruct (initialised_ready w context Hinv Hnone) as (Hknown & Hfresh & Hidle & Hsome).
    unfold init. rewrite Hnone in Hreg.
    match goal with |- Kept {| setting := _; state := start _ ?st |} => set (st0 := st) in * end.
    assert (bar st0 = {| statusItems := statusItems (bar (state w));
                         timer := timer (bar (state w)); _context := Some context |} ∧
            items (host st0) = items (host (state w))) as [Hb Hi].
    { unfold st0, siInit. by destruct isWin32. }
    apply Kept_start; try done.
    + rewrite Hb, Hi. simpl. apply Hids.
    + rewrite Hsome, Hi, Hreg. simpl. lia.
    + rewrite Hsome. intros Hps. split; [|done].
      unfold st0, siInit in Hps. destruct isWin32; [done|].
      simpl in Hps. by apply Hshell in Hps as [? ?].
  - destruct (cancelled_ready w Hinv) as (Hknown & Hfresh & Hidle & Hsame).
    destruct (cancelUpdate_frame false (state w)) as (Hb & Hi & _).
    unfold onSettingUpdate. apply Kept_start; try done.
    + rewrite Hb, Hi. apply Hids.
    + rewrite Hb, Hi. apply Hreg.
    + rewrite Hb. unfold cancelUpdate. by destruct (timer (bar (state w))).
  - destruct (getSysInfo_frame (setting w) probe (state w)) as (Hb & Ht & Hl & Hlive).
    pose proof (forEach_display (results (setting w) probe) 0 (state w)) as Hd.
    rewrite <-getSysInfo_forEach in Hd. destruct Hd as (_ & _ & _ & Hp & _).
    split; simpl; rewrite ?Hb, ?Ht, ?Hl, ?Hp; try done.
    + by rewrite (slots_ext (host (state w))).
    + destruct (_context (bar (state w))); [done|].
      apply nil_length_inv. by rewrite Hl, Hreg.
  - destruct (cancelUpdate_frame true (state w)) as (Hb & Hi & _).
    pose proof (cancelUpdate_clears true (state w) (inv_timer _ Hinv)) as Hidle.
    split; simpl; rewrite ?Hb, ?Hi, ?Hidle; try done.
    + rewrite (slots_ext (host (state w))); [done|by rewrite Hi|].
      intros id. by apply isLive_items.
    + intros Hps. apply Hshell.
      unfold cancelUpdate, siRelease in Hps.
      destruct isWin32; simpl in Hps; destruct (timer (bar (state w)));
        simpl in Hps; done.
Qed.

Lemma Kept_initial setting : Kept {| setting := setting; state := initial |}.
Proof. split; simpl; try done. by left. intros id Hid. by apply elem_of_nil in Hid. Qed.

Lemma reachable_Kept w : reachable w → Kept w.
Proof.
  intros [setting0 Hsteps].
  assert (Inv w ∧ Kept w) as [_ ?]; [|done].
  eapply (rtc_ind_r (λ w, Inv w ∧ Kept w)); [| |exact Hsteps].
  - split; [apply Inv_initial|apply Kept_initial].
  - intros w1 w2 _ Hstep [Hinv Hkept]. split; [by eapply Inv_step|by eapply Kept_step].
Qed.

End LifecycleFacts.

Section LifecycleExtras.
Context `{Utils}.
Implicit Types (st : State) (w : World) (setting : Setting).

Lemma start_powerShell setting st :
  powerShell (host (start setting st)) = powerShell (host st).
Proof.
  destruct (start_cases setting st) as [[_ ->]|[(_ & _ & ->)|(context & Hctx & Hon & Hne)]].
  - done.
  - apply disposeItems_powerShell.
  - by destruct (start_on_host _ _ _ Hctx Hon Hne) as (_ & _ & ->).
Qed.

Lemma singleton_or_empty {A} (m : gmap nat A) (t : nat) :
  (∀ t', is_Some (m !! t') → t' = t) →
  m = ∅ ∨ ∃ x, m = {[ t := x ]}.
Proof.
  intros Honly. destruct (m !! t) as [x|] eqn:Ht.
  - right. exists x. apply map_eq. intros t'.
    destruct (decide (t' = t)) as [->|Hne].
    + by rewrite lookup_singleton_eq.
    + rewrite lookup_singleton_ne by done. apply eq_None_not_Some.
      intros Hin%Honly. done.
  - left. apply map_empty. intros t'. apply eq_None_not_Some.
    intros Hin. pose proof (Honly _ Hin) as ->. rewrite Ht in Hin. by destruct Hin.
Qed.

(** X1.  In every reachable world at most one interval is armed: the
    one the driver holds in [timer], with the configured refresh
    interval as its period, or the default one when none is configured
    or it is 0.  The period is not 0 unless the default is. *)
Theorem armed_interval (w : World) :
  reachable w →
  let ms := orDefault (RefreshInterval (setting w)) (default_refreshInterval (setting w)) in
  (timers (host (state w)) = ∅ ∨
   ∃ t, timer (bar (state w)) = Some t ∧ timers (host (state w)) = {[ t := ms ]}) ∧
  (default_refreshInterval (setting w) ≠ 0%Z → ms ≠ 0%Z).
Proof.
  intros Hreach ms. pose proof (reachable_Inv _ Hreach) as Hinv.
  pose proof (reachable_Kept _ Hreach) as Hkept. split.
  - destruct (timer (bar (state w))) as [t|] eqn:Ht.
    + destruct (singleton_or_empty (timers (host (state w))) t) as [Hm|[x Hm]].
      * intros t' Hin. apply (inv_timer _ Hinv) in Hin. congruence.
      * by left.
      * right. exists t. split; [done|]. rewrite Hm. f_equal.
        apply (kept_period _ Hkept t). by rewrite Hm, lookup_singleton_eq.
    + left. apply map_empty. intros t. apply eq_None_not_Some.
      intros Hin. apply (inv_timer _ Hinv) in Hin. congruence.
  - intros Hdef. unfold ms, orDefault.
    destruct (RefreshInterval (setting w)) as [v|]; [|done].
    destruct (v =? 0)%Z eqn:Hv; [done|]. by apply Z.eqb_neq.
Qed.

(** X2.  In every reachable world the items the driver holds exist;
    and when there is a display slot at all, the slots are exactly the
    items the driver holds, one per enabled kind, and the global flag is
    on.  This holds after deactivation as well, which leaves the slots
    in place. *)
Theorem slots_are_held (w : World) :
  reachable w →
  (∀ id, id ∈ statusItems (bar (state w)) →
         is_Some (items (host (state w)) !! id)) ∧
  (slots (host (state w)) ≠ [] →
     slots (host (state w)) = statusItems (bar (state w)) ∧
     length (slots (host (state w))) = length (curModules (setting w)) ∧
     AllEnabled (setting w) = true).
Proof.
  intros Hkept%reachable_Kept. split.
  - intros id Hid. apply lookup_lt_is_Some. by apply Hkept.
  - intros Hsome. destruct (kept_slots _ Hkept) as [Hnil|(Hs & Hlen & Hon)]; [done|].
    by rewrite Hs.
Qed.

(** X3.  A configuration change disposes of every item created before
    it: whatever the new configuration is, no earlier item is a display
    slot afterwards, and the earlier items are still there. *)
Theorem restart_disposes_earlier_items (w : World) (setting' : Setting) (id : nat) :
  reachable w →
  id < length (items (host (state w))) →
  let st' := onSettingUpdate setting' (state w) in
  isLive (host st') id = false ∧
  ∃ it, items (host st') !! id = Some it ∧ StatusBarItem.disposed it = true.
Proof.
  intros Hinv%reachable_Inv Hid. simpl.
  destruct (cancelled_ready w Hinv) as (Hknown & Hfresh & Hidle & Hsame).
  destruct (cancelUpdate_frame false (state w)) as (Hb & Hi & _).
  unfold onSettingUpdate. set (st := cancelUpdate false (state w)) in *.
  assert (isLive (host (start setting' st)) id = false) as Hdead.
  { apply not_true_is_false. intros Hlive.
    destruct (start_cases setting' st)
      as [[Hnone Hst]|[(Hsome & Hoff & Hst)|(context & Hctx & Hon & Hne)]].
    - rewrite Hst in Hlive. apply Is_true_true_2, Hknown in Hlive.
      rewrite Hfresh in Hlive by done. by apply elem_of_nil in Hlive.
    - rewrite Hst in Hlive. by apply Is_true_true_2, disposeItems_dead in Hlive.
    - destruct (start_on_spec _ _ _ Hctx Hon Hne Hknown) as (Hitems & Hslots & _).
      apply Is_true_true_2, elem_of_slots in Hlive.
      rewrite Hslots, Hitems, Hi in Hlive. apply elem_of_seq in Hlive. lia. }
  split; [done|].
  assert (length (items (host (state w))) ≤ length (items (host (start setting' st)))) as Hlen.
  { destruct (start_cases setting' st)
      as [[Hnone Hst]|[(Hsome & Hoff & Hst)|(context & Hctx & Hon & Hne)]].
    - by rewrite Hst, Hi.
    - rewrite Hst.
      destruct (disposeItems_frame (statusItems (bar st)) st) as (_ & _ & _ & -> & _).
      by rewrite Hi.
    - destruct (start_on_host _ _ _ Hctx Hon Hne) as (_ & -> & _). rewrite Hi. lia. }
  unfold isLive in Hdead.
  destruct (items (host (start setting' st)) !! id) as [it|] eqn:Hit.
  - exists it. split; [done|]. by destruct (StatusBarItem.disposed it).
  - apply lookup_ge_None in Hit. lia.
Qed.

(** X4.  Every status bar item the driver has created is registered
    with the extension context, so that the host disposes of it with the
    extension. *)
Theorem items_registered (w : World) (id : nat) :
  reachable w →
  id < length (items (host (state w))) →
  ∃ context, _context (bar (state w)) = Some context ∧ id ∈ subscriptions context.
Proof.
  intros Hkept%reachable_Kept Hid. pose proof (kept_items _ Hkept) as Hreg.
  destruct (_context (bar (state w))) as [context|].
  - exists context. split; [done|]. by apply Hreg.
  - rewrite Hreg in Hid. simpl in Hid. lia.
Qed.

(** X5.  The PowerShell session of the metrics library: it is held on
    Win32 only and only once [init] has run; after [init] it is held
    exactly on Win32; configuration changes and ticks neither start nor
    release it. *)
Theorem powerShell_session (w : World) :
  reachable w →
  (powerShell (host (state w)) = true →
     isWin32 = true ∧ is_Some (_context (bar (state w)))) ∧
  (∀ context, _context (bar (state w)) = None →
     powerShell (host (init (setting w) context (state w))) = isWin32) ∧
  (∀ setting', powerShell (host (onSettingUpdate setting' (state w))) =
               powerShell (host (state w))) ∧
  (∀ probe, powerShell (host (getSysInfo (setting w) probe (state w)).2) =
            powerShell (host (state w))).
Proof.
  intros Hkept%reachable_Kept. split_and!.
  - apply Hkept.
  - intros context Hnone. unfold init. rewrite start_powerShell.
    unfold siInit. destruct isWin32 eqn:Hwin; simpl; [done|].
    apply not_true_is_false. intros Hps.
    apply (kept_shell _ Hkept) in Hps as [Hw _]. congruence.
  - intros setting'. unfold onSettingUpdate. rewrite start_powerShell.
    unfold cancelUpdate. by destruct (timer (bar (state w))).
  - intros probe. rewrite getSysInfo_forEach.
    by destruct (forEach_display (results (setting w) probe) 0 (state w))
      as (_ & _ & _ & -> & _).
Qed.

(** X6.  Deactivation: [cancelUpdate(true)] leaves no interval armed
    and no PowerShell session held; it does not touch the items, so
    the slots stay as they are, and it keeps the handle of the cleared
    interval; a second call changes nothing. *)
Theorem deactivation (w : World) :
  reachable w →
  let st' := cancelUpdate true (state w) in
  timers (host st') = ∅ ∧
  powerShell (host st') = false ∧
  items (host st') = items (host (state w)) ∧
  bar st' = bar (state w) ∧
  cancelUpdate true st' = st'.
Proof.
  intros Hreach. pose proof (reachable_Inv _ Hreach) as Hinv.
  pose proof (reachable_Kept _ Hreach) as Hkept. simpl.
  destruct (cancelUpdate_frame true (state w)) as (Hb & Hi & _).
  pose proof (cancelUpdate_clears true (state w) (inv_timer _ Hinv)) as Hidle.
  assert (powerShell (host (cancelUpdate true (state w))) = false) as Hps.
  { apply not_true_is_false. intros Hps.
    unfold cancelUpdate, siRelease in Hps.
    destruct isWin32 eqn:Hwin; simpl in Hps; destruct (timer (bar (state w)));
      simpl in Hps; try done;
      apply (kept_shell _ Hkept) in Hps as [Hw _]; congruence. }
  split_and!; try done.
  destruct (cancelUpdate true (state w)) as [b [its ts nt ps]] eqn:Hst.
  simpl in *. subst ts ps.
  unfold cancelUpdate, siRelease. destruct isWin32; simpl;
    destruct (timer b); try done; unfold clearInterval; simpl;
    by rewrite delete_empty.
Qed.

(** X7.  A tick, in any state and however it ends, changes nothing
    but the display: the fields of the driver, the timers and the
    PowerShell session are as before, no item is created or disposed of,
    the alignment and the priority of every item stay, and an item the
    driver does not hold is not touched at all. *)
Theorem tick_changes_display_only (setting : Setting) (probe : nat → Platform)
    (st : State) :
  let st' := (getSysInfo setting probe st).2 in
  bar st' = bar st ∧
  timers (host st') = timers (host st) ∧
  nextTimer (host st') = nextTimer (host st) ∧
  powerShell (host st') = powerShell (host st) ∧
  length (items (host st')) = length (items (host st)) ∧
  (∀ id it, items (host st) !! id = Some it →
     ∃ it', items (host st') !! id = Some it' ∧ sameButDisplay it it') ∧
  (∀ id, id ∉ statusItems (bar st) → items (host st') !! id = items (host st) !! id).
Proof. rewrite getSysInfo_forEach. apply forEach_display. Qed.

Lemma forEach_app res1 res2 index st :
  forEach (res1 ++ res2) index st =
  match forEach res1 index st with
  | (Ok _, st1) => forEach res2 (index + length res1) st1
  | thrown => thrown
  end.
Proof.
  revert index st. induction res1 as [|data res1 IH]; intros index st; simpl.
  { by rewrite Nat.add_0_r. }
  destruct (writeSlot data index st) as [st1|e]; [|done].
  rewrite IH. by replace (S index + length res1) with (index + S (length res1)) by lia.
Qed.

Lemma forEach_beyond res index st k data :
  length (statusItems (bar st)) ≤ index →
  res !! k = Some data →
  FormatedData.text data ≠ "-" →
  (∀ j d, j < k → res !! j = Some d → FormatedData.text d = "-") →
  forEach res index st = (Throw "TypeError: curStatusItem is undefined", st).
Proof.
  revert index k. induction res as [|d res IH]; intros index k Hlen Hk Htext Hbefore.
  { by rewrite lookup_nil in Hk. }
  simpl. unfold writeSlot. destruct k as [|k]; simpl in Hk.
  - injection Hk as ->. rewrite decide_False by done.
    by rewrite (lookup_ge_None_2 _ index) by done.
  - rewrite decide_True by (by apply (Hbefore 0); [lia|]).
    apply (IH (S index) k); [lia|done|done|].
    intros j d' Hj Hd'. apply (Hbefore (S j)); [lia|done].
Qed.

(** X8.  A tick with more results than the driver holds items, as when
    a configuration change has replaced the items while the adapters
    were awaited: the results are written by position to the items there
    are, the placeholders beyond them are passed over, and the first
    other result beyond them makes the tick throw a TypeError, with the
    writes made so far in place. *)
Theorem tick_beyond_items (setting : Setting) (probe : nat → Platform) (st : State)
    (k : nat) (data : FormatedData.t) :
  NoDup (statusItems (bar st)) →
  length (statusItems (bar st)) ≤ k →
  results setting probe !! k = Some data →
  FormatedData.text data ≠ "-" →
  (∀ j d, length (statusItems (bar st)) ≤ j < k →
          results setting probe !! j = Some d → FormatedData.text d = "-") →
  ∃ st',
    getSysInfo setting probe st = (Throw "TypeError: curStatusItem is undefined", st') ∧
    ∀ i d id,
      results setting probe !! i = Some d →
      statusItems (bar st) !! i = Some id →
      items (host st') !! id = tickItem d <$> items (host st) !! id.
Proof.
  intros Hnodup Hk Hdata Htext Hbefore. rewrite getSysInfo_forEach.
  set (res := results setting probe) in *. set (n := length (statusItems (bar st))) in *.
  assert (k < length res) as Hlt by (by eapply lookup_lt_Some).
  replace (forEach res 0 st) with (forEach (take n res ++ drop n res) 0 st)
    by (by rewrite take_drop).
  rewrite forEach_app.
  destruct (forEach_writes (take n res) 0 st Hnodup) as (st1 & Hst1 & Hin & _).
  { rewrite length_take. fold n. lia. }
  rewrite Hst1. simpl.
  pose proof (forEach_frame (take n res) 0 st) as Hframe.
  rewrite Hst1 in Hframe. simpl in Hframe. destruct Hframe as (Hb & _).
  rewrite (forEach_beyond _ _ _ (k - n) data).
  - exists st1. split; [done|]. intros i d id Hd Hid.
    apply (Hin i); [|done]. rewrite lookup_take_lt; [done|].
    by eapply lookup_lt_Some.
  - rewrite Hb, length_take. fold n. lia.
  - rewrite lookup_drop. by replace (n + (k - n)) with k by lia.
  - done.
  - intros j d Hj. rewrite lookup_drop. apply Hbefore. lia.
Qed.

Lemma tick_world w probe :
  reachable w → Running (state w) →
  let w' := {| setting := setting w;
               state := (getSysInfo (setting w) probe (state w)).2 |} in
  reachable w' ∧ Running (state w') ∧
  slots (host (state w')) = slots (host (state w)).
Proof.
  intros [setting0 Hsteps] Hrun. simpl.
  destruct (getSysInfo_frame (setting w) probe (state w)) as (Hb & Ht & Hl & Hlive).
  split_and!.
  - exists setting0. eapply rtc_r; [exact Hsteps|]. apply step_tick.
  - destruct Hrun as (t & ms & Htimer & Hts). exists t, ms. by rewrite Hb, Ht.
  - by apply slots_ext.
Qed.

(** X9.  After any number of ticks of the running driver, a slot shows
    the last result for its kind that was not the placeholder, with the
    name of the kind as tooltip, however many placeholders followed it;
    when every result was the placeholder, the slot is as it was. *)
Theorem ticks_show_latest (w : World) (probes : list (nat → Platform))
    (i : nat) (module : StatsModule) (id : nat) :
  reachable w →
  Running (state w) →
  curModules (setting w) !! i = Some module →
  slots (host (state w)) !! i = Some id →
  let datas :=
    (λ probe, formatRes (setting w) module (reading module (probe i))) <$> probes in
  items (host (ticks (setting w) probes (state w))) !! id =
  from_option
    (λ data, StatusBarItem.write (FormatedData.text data) (StatsModuleNameMap module))
    (λ it, it) (latest datas)
  <$> items (host (state w)) !! id.
Proof.
  revert w. induction probes as [|probe probes IH]; intros w Hreach Hrun Hm Hid; simpl.
  { by rewrite option_fmap_id. }
  destruct (tick_world w probe Hreach Hrun) as (Hreach' & Hrun' & Hslots').
  destruct (running_tick w probe Hreach Hrun) as (st' & Htick & _ & Hin).
  simpl in Hslots'. rewrite <-Hslots' in Hid.
  specialize (IH _ Hreach' Hrun' Hm Hid). simpl in IH.
  unfold ticks in *. rewrite IH.
  rewrite Hslots' in Hid.
  rewrite Htick. simpl. rewrite (Hin i module id Hm Hid).
  destruct (items (host (state w)) !! id) as [it|]; [|done]. simpl. f_equal.
  unfold latest. rewrite filter_cons. unfold tickItem. simpl. case_decide as Htext.
  - by rewrite decide_False by (by intros Hne).
  - rewrite decide_True by done. rewrite last_cons.
    by destruct (last (filter _ _)).
Qed.

End LifecycleExtras.

(** ** More on the adapters *)


Section DigitFacts.

Lemma digit_not_space (c : ascii) : is_digit c = true → is_space c = false.
Proof.
  unfold is_digit, is_space. generalize (code c). intros n Hn.
  apply andb_true_iff in Hn as [?%Z.leb_le ?%Z.leb_le].
  apply orb_false_iff. split; [apply orb_false_iff; split|].
  - apply andb_false_iff. right. apply Z.leb_gt. lia.
  - apply Z.eqb_neq. lia.
  - apply Z.eqb_neq. lia.
Qed.

Lemma is_digit_inv (c : ascii) :
  is_digit c = true →
  c ∈ ["0"; "1"; "2"; "3"; "4"; "5"; "6"; "7"; "8"; "9"]%char.
Proof.
  destruct c as [[] [] [] [] [] [] [] []]; vm_compute; intros Hc;
    try discriminate; set_solver.
Qed.

End DigitFacts.

Section ParseFacts.

(** The number of an integer literal: the integer itself below [2^53],
    and never NaN nor negative for a literal that is not negative. *)
Lemma ofLiteral_safe (z : Z) : (0 <= z < 2 ^ 53)%Z → ofLiteral z = ofZ z.
Proof. apply round64_integer. Qed.

Lemma ofLiteral_nonneg (z : Z) :
  (0 <= z)%Z →
  ofLiteral z = Infinity ∨ ∃ x, ofLiteral z = Num x ∧ (0 <= x)%Q.
Proof.
  intros Hz. apply round64_nonneg. change 0%Q with (inject_Z 0). by rewrite <-Zle_Qle.
Qed.

Lemma digit_head (d : ascii) (ds rest : list ascii) (P : Prop) :
  is_digit d = true →
  (∀ c, c ∈ ["0"; "1"; "2"; "3"; "4"; "5"; "6"; "7"; "8"; "9"]%char → d = c → P) → P.
Proof. intros Hd HP. by apply (HP d); [apply is_digit_inv|]. Qed.

Lemma parse_decimal_digits (ds : list ascii) :
  ds ≠ [] → Forall (λ c, is_digit c = true) ds →
  parse_decimal ds = Some (inject_Z (decimal_val ds) * 1)%Q.
Proof.
  intros Hne Hds. unfold parse_decimal.
  rewrite <-(app_nil_r ds) at 1. rewrite (span_all is_digit ds []) by done.
  rewrite app_nil_r. destruct ds as [|d ds]; [done|]. done.
Qed.

Lemma parse_signed_digits (ds : list ascii) :
  ds ≠ [] → Forall (λ c, is_digit c = true) ds →
  parse_signed ds = ofLiteral (decimal_val ds).
Proof.
  intros Hne Hds.
  assert (parse_signed ds =
          if decide (ds = chars "Infinity") then Infinity
          else match parse_decimal ds with
               | Some q => round64 q
               | None => NaN
               end) as ->.
  { destruct Hds as [|d ds Hd Hds]; [done|].
    apply is_digit_inv in Hd. unfold parse_signed.
    repeat (apply elem_of_cons in Hd as [->|Hd]; [done|]).
    by apply elem_of_nil in Hd. }
  rewrite decide_False.
  - rewrite parse_decimal_digits by done. unfold ofLiteral. f_equal.
    unfold Qmult, inject_Z. simpl. by rewrite Z.mul_1_r.
  - intros ->. by apply Forall_cons in Hds as [[=] _].
Qed.

Lemma trim_chars_tight (ws1 l ws2 : list ascii) :
  Forall (λ c, is_space c = true) ws1 →
  Forall (λ c, is_space c = true) ws2 →
  match l with [] => True | c :: _ => is_space c = false end →
  match rev l with [] => True | c :: _ => is_space c = false end →
  trim_chars (ws1 ++ l ++ ws2) = l.
Proof.
  intros Hws1 Hws2 Hhead Hlast. unfold trim_chars.
  destruct l as [|c l].
  - simpl. rewrite <-(app_nil_r (ws1 ++ ws2)).
    rewrite (span_all is_space (ws1 ++ ws2) []); [done| |done].
    by apply Forall_app.
  - rewrite (span_all is_space ws1 ((c :: l) ++ ws2)) by done.
    cbn [snd]. rewrite rev_app_distr.
    rewrite (span_all is_space (rev ws2) (rev (c :: l))).
    + cbn [snd]. apply rev_involutive.
    + by apply List.Forall_rev.
    + done.
Qed.

Lemma trim_chars_digits (ds : list ascii) :
  Forall (λ c, is_digit c = true) ds → trim_chars ds = ds.
Proof.
  intros Hds. rewrite <-(app_nil_r ds) at 1.
  apply (trim_chars_tight [] ds []); [done|done| |].
  - destruct Hds; [done|]. by apply digit_not_space.
  - apply List.Forall_rev in Hds.
    destruct Hds; [done|]. by apply digit_not_space.
Qed.

(** [Number] of a numeral: a non-empty string of decimal digits is
    read as the binary64 number nearest to the integer it writes. *)
Lemma StringToNumber_digits (ds : list ascii) :
  ds ≠ [] → Forall (λ c, is_digit c = true) ds →
  StringToNumber (str ds) = ofLiteral (decimal_val ds).
Proof.
  intros Hne Hds. unfold StringToNumber.
  rewrite chars_str, trim_chars_digits by done.
  rewrite <-(parse_signed_digits ds) by done.
  destruct Hds as [|d ds Hd Hds]; [done|].
  destruct Hds as [|p ds Hp Hds].
  { apply is_digit_inv in Hd.
    repeat (apply elem_of_cons in Hd as [->|Hd]; [done|]).
    by apply elem_of_nil in Hd. }
  assert (Ascii.eqb p "x" || Ascii.eqb p "X" = false) as Hx.
  { apply orb_false_iff. split; apply Ascii.eqb_neq; by intros ->. }
  assert (Ascii.eqb p "o" || Ascii.eqb p "O" = false) as Ho.
  { apply orb_false_iff. split; apply Ascii.eqb_neq; by intros ->. }
  assert (Ascii.eqb p "b" || Ascii.eqb p "B" = false) as Hb.
  { apply orb_false_iff. split; apply Ascii.eqb_neq; by intros ->. }
  apply is_digit_inv in Hd.
  repeat (apply elem_of_cons in Hd as [->|Hd]; [by rewrite ?Hx, ?Ho, ?Hb|]).
  by apply elem_of_nil in Hd.
Qed.

Lemma digits_val_nonneg (ds : list Z) (acc : Z) :
  (0 <= acc)%Z → Forall (λ d, 0 <= d)%Z ds →
  (0 <= fold_left (λ acc d, 10 * acc + d) ds acc)%Z.
Proof.
  intros Hacc Hds. revert acc Hacc.
  induction Hds as [|d ds Hd _ IH]; intros acc Hacc; simpl; [done|].
  apply IH. lia.
Qed.

Lemma decimal_val_nonneg (ds : list ascii) :
  Forall (λ c, is_digit c = true) ds → (0 <= decimal_val ds)%Z.
Proof.
  intros Hds. unfold decimal_val, digits_val. apply digits_val_nonneg; [done|].
  apply Forall_fmap. eapply Forall_impl; [exact Hds|].
  intros c Hc. unfold is_digit in Hc. unfold digit_val. simpl. lia.
Qed.

End ParseFacts.

Section SplitFacts.

Lemma is_prefix_app (sep rest : list ascii) : is_prefix sep (sep ++ rest) = true.
Proof. induction sep as [|c sep IH]; [done|]. simpl. by rewrite Ascii.eqb_refl. Qed.

Lemma split_go_skip (sep cur passed rest : list ascii) :
  split_go sep cur (length passed) (passed ++ rest) = split_go sep cur 0 rest.
Proof.
  induction passed as [|c passed IH]; simpl; [|done].
  by destruct rest.
Qed.

Lemma split_go_last (s0 : ascii) (srest cur piece : list ascii) :
  Forall (λ c, c ≠ s0) piece →
  split_go (s0 :: srest) cur 0 piece = [rev cur ++ piece].
Proof.
  intros Hpiece. revert cur. induction Hpiece as [|c piece Hc _ IH]; intros cur; simpl.
  { by rewrite app_nil_r. }
  rewrite (proj2 (Ascii.eqb_neq s0 c)) by done.
  rewrite IH. simpl. by rewrite <-app_assoc.
Qed.

Lemma split_go_piece (s0 : ascii) (srest cur piece rest : list ascii) :
  Forall (λ c, c ≠ s0) piece →
  split_go (s0 :: srest) cur 0 (piece ++ (s0 :: srest) ++ rest) =
  (rev cur ++ piece) :: split_go (s0 :: srest) [] 0 rest.
Proof.
  intros Hpiece. revert cur. induction Hpiece as [|c piece Hc _ IH]; intros cur.
  - pose proof (is_prefix_app (s0 :: srest) rest) as Hsep. cbn [app] in Hsep.
    cbn [app split_go]. rewrite Hsep, app_nil_r.
    f_equal. cbn [length]. rewrite Nat.sub_succ, Nat.sub_0_r. apply split_go_skip.
  - cbn [app split_go is_prefix]. rewrite (proj2 (Ascii.eqb_neq s0 c)) by done.
    rewrite IH. simpl. by rewrite <-app_assoc.
Qed.

Lemma digits_no_comma (ds : list ascii) :
  Forall (λ c, is_digit c = true) ds → Forall (λ c, c ≠ ","%char) ds.
Proof. intros Hds. eapply Forall_impl; [exact Hds|]. by intros c Hc ->. Qed.

End SplitFacts.

Section GpuFigures.

(** X16.  The NVIDIA path reads a line of three numerals separated by
    a comma and a space as total memory, used memory and load, in this
    order, each as the binary64 number nearest to the integer its
    numeral writes: the integer itself when it is below 2^53. *)
Theorem x86Line_reads_figures (a b c : list ascii) :
  a ≠ [] → b ≠ [] → c ≠ [] →
  Forall (λ x, is_digit x = true) a →
  Forall (λ x, is_digit x = true) b →
  Forall (λ x, is_digit x = true) c →
  let line := str a +:+ ", " +:+ str b +:+ ", " +:+ str c in
  x86Line line =
    {| totalMemory := Some (ofLiteral (decimal_val a));
       usedMemory := Some (ofLiteral (decimal_val b));
       gpuUtilization := Some (ofLiteral (decimal_val c)) |} ∧
  ((decimal_val a < 2 ^ 53)%Z → (decimal_val b < 2 ^ 53)%Z →
   (decimal_val c < 2 ^ 53)%Z →
   x86Line line =
     {| totalMemory := Some (ofZ (decimal_val a));
        usedMemory := Some (ofZ (decimal_val b));
        gpuUtilization := Some (ofZ (decimal_val c)) |}).
Proof.
  intros Ha Hb Hc Das Dbs Dcs line.
  assert (x86Line line =
          {| totalMemory := Some (ofLiteral (decimal_val a));
             usedMemory := Some (ofLiteral (decimal_val b));
             gpuUtilization := Some (ofLiteral (decimal_val c)) |}) as Hline.
  { unfold line, x86Line, JS.split.
    rewrite !chars_app, !chars_str.
    change (chars ", ") with [","; " "]%char.
    rewrite (split_go_piece "," [" "%char] [] a) by by apply digits_no_comma.
    rewrite (split_go_piece "," [" "%char] [] b) by by apply digits_no_comma.
    rewrite (split_go_last "," [" "%char] [] c) by by apply digits_no_comma.
    cbn [rev app fmap list_fmap lookup list_lookup].
    by rewrite !StringToNumber_digits. }
  split; [done|]. intros Sa Sb Sc. rewrite Hline.
  by rewrite !ofLiteral_safe by (split; [by apply decimal_val_nonneg|done]).
Qed.

End GpuFigures.

Section TegraFacts.

Lemma oneOrMore_Some (cls : ascii → bool) (l a b : list ascii) :
  oneOrMore cls l = Some (a, b) →
  a ≠ [] ∧ l = a ++ b ∧ Forall (λ c, cls c = true) a.
Proof.
  unfold oneOrMore. destruct (span cls l) as [[|c a'] b'] eqn:Hspan; [done|].
  intros [= <- <-]. split_and!; [done| |].
  - by apply span_app in Hspan.
  - by apply span_Forall in Hspan as [? _].
Qed.

Lemma oneOrMore_all (cls : ascii → bool) (a b : list ascii) :
  a ≠ [] →
  Forall (λ c, cls c = true) a →
  match b with [] => True | c :: _ => cls c = false end →
  oneOrMore cls (a ++ b) = Some (a, b).
Proof.
  intros Ha Hcls Hb. unfold oneOrMore. rewrite (span_all cls a b) by done.
  by destruct a.
Qed.

Lemma oneOrMore_none (cls : ascii → bool) (c : ascii) (l : list ascii) :
  cls c = false → oneOrMore cls (c :: l) = None.
Proof. intros Hc. unfold oneOrMore. simpl. by rewrite Hc. Qed.

Lemma expect_Some (c : ascii) (l r : list ascii) :
  expect c l = Some r → l = c :: r.
Proof.
  unfold expect. destruct l as [|x l]; [done|].
  destruct (Ascii.eqb_spec x c) as [->|]; [|done]. by intros [= ->].
Qed.

Lemma tegraMatchAt_Some (l m1 m2 m3 : list ascii) :
  tegraMatchAt l = Some (m1, m2, m3) →
  ∃ ws1 ws2 post,
    l = m1 ++ "/"%char :: m2 ++ ws1 ++ "M"%char :: "B"%char :: ws2 ++ m3 ++ "%"%char :: post ∧
    (m1 ≠ [] ∧ Forall (λ c, is_digit c = true) m1) ∧
    (m2 ≠ [] ∧ Forall (λ c, is_digit c = true) m2) ∧
    (m3 ≠ [] ∧ Forall (λ c, is_digit c = true) m3) ∧
    (ws1 ≠ [] ∧ Forall (λ c, is_space c = true) ws1) ∧
    (ws2 ≠ [] ∧ Forall (λ c, is_space c = true) ws2).
Proof.
  unfold tegraMatchAt.
  destruct (oneOrMore is_digit l) as [[d1 l1]|] eqn:H1; [|done]. cbn [mbind option_bind].
  destruct (expect "/" l1) as [l2|] eqn:H2; [|done]. cbn [mbind option_bind].
  destruct (oneOrMore is_digit l2) as [[d2 l3]|] eqn:H3; [|done]. cbn [mbind option_bind].
  destruct (oneOrMore is_space l3) as [[ws1 l4]|] eqn:H4; [|done]. cbn [mbind option_bind].
  destruct (expect "M" l4) as [l5|] eqn:H5; [|done]. cbn [mbind option_bind].
  destruct (expect "B" l5) as [l6|] eqn:H6; [|done]. cbn [mbind option_bind].
  destruct (oneOrMore is_space l6) as [[ws2 l7]|] eqn:H7; [|done]. cbn [mbind option_bind].
  destruct (oneOrMore is_digit l7) as [[d3 l8]|] eqn:H8; [|done]. cbn [mbind option_bind].
  destruct (expect "%" l8) as [post|] eqn:H9; [|done]. cbn [mbind option_bind].
  intros [= <- <- <-].
  apply oneOrMore_Some in H1 as (? & -> & ?), H3 as (? & -> & ?),
    H4 as (? & -> & ?), H7 as (? & -> & ?), H8 as (? & -> & ?).
  apply expect_Some in H2 as ->, H5 as ->, H6 as ->, H9 as ->.
  exists ws1, ws2, post. by split_and!.
Qed.

Lemma tegraMatch_Some (l : list ascii) m :
  tegraMatch l = Some m → ∃ pre l', l = pre ++ l' ∧ tegraMatchAt l' = Some m.
Proof.
  induction l as [|c l IH]; simpl.
  - done.
  - destruct (tegraMatchAt (c :: l)) eqn:Hat.
    + intros [= <-]. by exists [], (c :: l).
    + intros (pre & l' & -> & Hm)%IH. by exists (c :: pre), l'.
Qed.

Lemma tegraMatchAt_figures (m1 m2 m3 ws1 ws2 post : list ascii) :
  m1 ≠ [] → Forall (λ c, is_digit c = true) m1 →
  m2 ≠ [] → Forall (λ c, is_digit c = true) m2 →
  m3 ≠ [] → Forall (λ c, is_digit c = true) m3 →
  ws1 ≠ [] → Forall (λ c, is_space c = true) ws1 →
  ws2 ≠ [] → Forall (λ c, is_space c = true) ws2 →
  tegraMatchAt
    (m1 ++ "/"%char :: m2 ++ ws1 ++ "M"%char :: "B"%char :: ws2 ++ m3 ++ "%"%char :: post) =
  Some (m1, m2, m3).
Proof.
  intros N1 D1 N2 D2 N3 D3 Nw1 W1 Nw2 W2. unfold tegraMatchAt.
  rewrite oneOrMore_all by done. cbn [mbind option_bind expect].
  rewrite Ascii.eqb_refl. cbn [mbind option_bind].
  rewrite oneOrMore_all; [|done|done|].
  2:{ destruct W1 as [|c ws1 Hc _]; [done|]. simpl.
      destruct (is_digit c) eqn:Hd; [|done]. apply digit_not_space in Hd. congruence. }
  cbn [mbind option_bind].
  rewrite oneOrMore_all by done. cbn [mbind option_bind expect].
  rewrite Ascii.eqb_refl. cbn [mbind option_bind expect].
  rewrite Ascii.eqb_refl. cbn [mbind option_bind].
  rewrite oneOrMore_all; [|done|done|].
  2:{ destruct D3 as [|c m3 Hc _]; [done|]. simpl. by apply digit_not_space. }
  cbn [mbind option_bind].
  rewrite oneOrMore_all by done. cbn [mbind option_bind expect].
  by rewrite Ascii.eqb_refl.
Qed.

Lemma tegraMatch_skip (pre l : list ascii) m :
  Forall (λ c, is_digit c = false) pre →
  tegraMatchAt l = Some m →
  tegraMatch (pre ++ l) = Some m.
Proof.
  intros Hpre Hm. induction Hpre as [|c pre Hc _ IH]; cbn [app].
  - destruct l; [done|]. cbn [tegraMatch]. by rewrite Hm.
  - cbn [tegraMatch]. assert (tegraMatchAt (c :: pre ++ l) = None) as ->; [|done].
    unfold tegraMatchAt. by rewrite oneOrMore_none.
Qed.

(** X14.  The Tegra path gives a reading for a line only when the
    line holds the figures: a numeral, a slash, a numeral, white space,
    [MB], white space, a numeral and a percent sign.  The reading is
    then made of the binary64 numbers nearest to the three integers the
    numerals write, used memory first.  No field of it is missing, NaN
    or negative, and a field whose numeral is below 2^53 is the integer
    itself. *)
Theorem tegraLine_sound (line : string) (gpu : GpuInfo) :
  tegraLine line = Some gpu →
  ∃ pre m1 m2 ws1 ws2 m3 post,
    chars line =
      pre ++ m1 ++ "/"%char :: m2 ++ ws1 ++ "M"%char :: "B"%char :: ws2 ++ m3
          ++ "%"%char :: post ∧
    Forall (λ c, is_digit c = true) (m1 ++ m2 ++ m3) ∧
    Forall (λ c, is_space c = true) (ws1 ++ ws2) ∧
    m1 ≠ [] ∧ m2 ≠ [] ∧ m3 ≠ [] ∧ ws1 ≠ [] ∧ ws2 ≠ [] ∧
    gpu = {| totalMemory := Some (ofLiteral (decimal_val m2));
             usedMemory := Some (ofLiteral (decimal_val m1));
             gpuUtilization := Some (ofLiteral (decimal_val m3)) |} ∧
    ∀ m, m ∈ [m1; m2; m3] →
      (0 <= decimal_val m)%Z ∧
      (ofLiteral (decimal_val m) = Infinity ∨
       ∃ x, ofLiteral (decimal_val m) = Num x ∧ (0 <= x)%Q) ∧
      ((decimal_val m < 2 ^ 53)%Z → ofLiteral (decimal_val m) = ofZ (decimal_val m)).
Proof.
  unfold tegraLine.
  destruct (tegraMatch (chars line)) as [[[m1 m2] m3]|] eqn:Hm; [|done].
  intros [= <-].
  apply tegraMatch_Some in Hm as (pre & l' & Hline & Hat).
  apply tegraMatchAt_Some in Hat
    as (ws1 & ws2 & post & -> & [N1 D1] & [N2 D2] & [N3 D3] & [Nw1 W1] & [Nw2 W2]).
  exists pre, m1, m2, ws1, ws2, m3, post.
  rewrite !StringToNumber_digits by done.
  split_and!; try done.
  - by rewrite !Forall_app.
  - by rewrite Forall_app.
  - intros m Hin.
    assert (Forall (λ c, is_digit c = true) m) as Dm.
    { repeat (apply elem_of_cons in Hin as [->|Hin]; [done|]).
      by apply elem_of_nil in Hin. }
    pose proof (decimal_val_nonneg m Dm) as Hpos.
    split_and!; [done|by apply ofLiteral_nonneg|].
    intros Hsafe. by apply ofLiteral_safe.
Qed.

(** X15.  Conversely, a line that holds the figures after a text
    without digits is read by the Tegra path, whatever follows them:
    each field is the binary64 number nearest to the integer its numeral
    writes, the integer itself when it is below 2^53. *)
Theorem tegraLine_reads_figures (pre m1 m2 ws1 ws2 m3 post : list ascii) :
  Forall (λ c, is_digit c = false) pre →
  m1 ≠ [] → Forall (λ c, is_digit c = true) m1 →
  m2 ≠ [] → Forall (λ c, is_digit c = true) m2 →
  m3 ≠ [] → Forall (λ c, is_digit c = true) m3 →
  ws1 ≠ [] → Forall (λ c, is_space c = true) ws1 →
  ws2 ≠ [] → Forall (λ c, is_space c = true) ws2 →
  let line :=
    str (pre ++ m1 ++ "/"%char :: m2 ++ ws1 ++ "M"%char :: "B"%char :: ws2 ++ m3
             ++ "%"%char :: post) in
  tegraLine line =
    Some {| totalMemory := Some (ofLiteral (decimal_val m2));
            usedMemory := Some (ofLiteral (decimal_val m1));
            gpuUtilization := Some (ofLiteral (decimal_val m3)) |} ∧
  ((decimal_val m1 < 2 ^ 53)%Z → (decimal_val m2 < 2 ^ 53)%Z →
   (decimal_val m3 < 2 ^ 53)%Z →
   tegraLine line =
     Some {| totalMemory := Some (ofZ (decimal_val m2));
             usedMemory := Some (ofZ (decimal_val m1));
             gpuUtilization := Some (ofZ (decimal_val m3)) |}).
Proof.
  intros Hpre N1 D1 N2 D2 N3 D3 Nw1 W1 Nw2 W2 line.
  assert (tegraLine line =
          Some {| totalMemory := Some (ofLiteral (decimal_val m2));
                  usedMemory := Some (ofLiteral (decimal_val m1));
                  gpuUtilization := Some (ofLiteral (decimal_val m3)) |}) as Hline.
  { unfold line, tegraLine.
    rewrite chars_str, (tegraMatch_skip pre _ (m1, m2, m3)); [|done|].
    - by rewrite !StringToNumber_digits.
    - by apply tegraMatchAt_figures. }
  split; [done|]. intros S1 S2 S3. rewrite Hline.
  by rewrite !ofLiteral_safe by (split; [by apply decimal_val_nonneg|done]).
Qed.

End TegraFacts.

Section LineFacts.

Lemma span_snd_length {A} (p : A → bool) (l : list A) :
  length (span p l).2 ≤ length l.
Proof.
  induction l as [|x l IH]; simpl; [done|].
  destruct (p x); [|done]. destruct (span p l) as [a b]. simpl in *. lia.
Qed.

Lemma span_snd_id {A} (p : A → bool) (l : list A) :
  length l ≤ length (span p l).2 →
  match l with [] => True | x :: _ => p x = false end.
Proof.
  destruct l as [|x l]; simpl; [done|].
  destruct (p x); [|done]. pose proof (span_snd_length p l) as Hlen.
  destruct (span p l) as [a b]. simpl in *. lia.
Qed.

(** A string that [trim] leaves as it is has no white space at either
    end. *)
Lemma trim_chars_fixed (l : list ascii) :
  trim_chars l = l →
  match l with [] => True | c :: _ => is_space c = false end ∧
  match rev l with [] => True | c :: _ => is_space c = false end.
Proof.
  unfold trim_chars. intros Hl.
  pose proof (span_snd_length is_space l) as H1.
  pose proof (span_snd_length is_space (rev (span is_space l).2)) as H2.
  assert (length l = length (span is_space (rev (span is_space l).2)).2) as Hlen.
  { rewrite <-Hl at 1. by rewrite length_rev. }
  rewrite length_rev in H2.
  assert (match l with [] => True | c :: _ => is_space c = false end) as Hhead.
  { apply span_snd_id. lia. }
  split; [done|].
  assert ((span is_space l).2 = l) as Hfst.
  { destruct l as [|c l]; [done|]. simpl. by rewrite Hhead. }
  rewrite Hfst in *. apply span_snd_id. rewrite length_rev. lia.
Qed.

Lemma includes_single (c : ascii) (l : list ascii) :
  includes_chars [c] l = false → Forall (λ x, x ≠ c) l.
Proof.
  induction l as [|x l IH]; [done|]. simpl.
  destruct (Ascii.eqb_spec c x) as [->|Hne]; [done|].
  intros Hl. constructor; [done|]. apply IH. by destruct l.
Qed.

Lemma joined_cons (l l' : list ascii) (rest : list (list ascii)) :
  joined (l :: l' :: rest) = l ++ ["010"%char] ++ joined (l' :: rest).
Proof. done. Qed.

Lemma split_go_joined (lines : list (list ascii)) :
  lines ≠ [] →
  Forall (Forall (λ x, x ≠ "010"%char)) lines →
  split_go ["010"%char] [] 0 (joined lines) = lines.
Proof.
  intros Hne Hlines. induction Hlines as [|l rest Hl Hrest IH]; [done|].
  destruct rest as [|l' rest].
  - simpl. by rewrite (split_go_last "010" [] [] l).
  - rewrite joined_cons.
    rewrite (split_go_piece "010" [] [] l (joined (l' :: rest))) by done.
    f_equal. by apply IH.
Qed.

Lemma chars_unlines (lines : list string) :
  lines ≠ [] → chars (unlines lines) = joined (chars <$> lines) ++ ["010"%char].
Proof.
  intros Hne. induction lines as [|l rest IH]; [done|].
  change (unlines (l :: rest)) with (l +:+ LF +:+ unlines rest).
  rewrite !chars_app. change (chars LF) with ["010"%char].
  destruct rest as [|l' rest]; [done|].
  rewrite IH by done. rewrite !fmap_cons, joined_cons.
  by rewrite <-!app_assoc.
Qed.

Lemma joined_first (l : list ascii) (rest : list (list ascii)) :
  ∃ post, joined (l :: rest) = l ++ post.
Proof.
  destruct rest as [|l' rest].
  - exists []. simpl. by rewrite app_nil_r.
  - eexists. apply joined_cons.
Qed.

Lemma joined_last (lines : list (list ascii)) (l : list ascii) :
  ∃ pre, joined (lines ++ [l]) = pre ++ l.
Proof.
  induction lines as [|l0 lines [pre IH]]; [by exists []|].
  rewrite <-app_comm_cons. destruct (lines ++ [l]) as [|x xs] eqn:Hxs.
  { by destruct lines. }
  rewrite joined_cons, IH. exists (l0 ++ ["010"%char] ++ pre).
  by rewrite <-!app_assoc.
Qed.

(** The lines of what a tool printed: non-empty lines without a line
    feed inside and without white space at either end come out of
    [stdout.trim().split('\n')] as they went in; the line feed after
    the last one gives no line of its own. *)
Lemma split_unlines (lines : list string) :
  lines ≠ [] →
  (∀ line, line ∈ lines →
     line ≠ EmptyString ∧ trim line = line ∧ includes line LF = false) →
  JS.split LF (trim (unlines lines)) = lines.
Proof.
  intros Hne Hlines.
  assert (∀ line, line ∈ lines →
            chars line ≠ [] ∧
            match chars line with [] => True | c :: _ => is_space c = false end ∧
            match rev (chars line) with [] => True | c :: _ => is_space c = false end ∧
            Forall (λ x, x ≠ "010"%char) (chars line)) as Hclean.
  { intros line (Hline & Htrim & Hlf)%Hlines.
    assert (trim_chars (chars line) = chars line) as [Hh Hl]%trim_chars_fixed.
    { unfold trim in Htrim. apply (f_equal chars) in Htrim.
      by rewrite chars_str in Htrim. }
    split_and!; [|done|done|by apply includes_single].
    intros Hnil. apply Hline. by rewrite <-(str_chars line), Hnil. }
  unfold trim, JS.split. rewrite chars_unlines by done.
  rewrite <-(app_nil_l (joined _ ++ _)).
  rewrite (trim_chars_tight [] (joined (chars <$> lines)) ["010"%char]); [|done|by constructor| |].
  - rewrite chars_str. change (chars LF) with ["010"%char].
    rewrite split_go_joined.
    + rewrite <-list_fmap_compose. rewrite <-(list_fmap_id lines) at 2.
      apply list_fmap_ext. intros _ line _. apply str_chars.
    + by destruct lines.
    + apply Forall_fmap, Forall_forall. intros line Hline. by apply Hclean.
  - destruct lines as [|l rest]; [done|].
    destruct (Hclean l) as (Hl & Hh & _); [left|].
    rewrite fmap_cons. destruct (joined_first (chars l) (chars <$> rest)) as [post ->].
    by destruct (chars l).
  - destruct (exists_last Hne) as (init & l & ->).
    destruct (Hclean l) as (Hl & _ & Hlast & _); [apply elem_of_app; right; left|].
    rewrite fmap_app. change (chars <$> [l]) with [chars l].
    destruct (joined_last (chars <$> init) (chars l)) as [pre ->].
    rewrite rev_app_distr. destruct (rev (chars l)) eqn:Hr; [|done].
    apply (f_equal (@length _)) in Hr. rewrite length_rev in Hr.
    by destruct (chars l).
Qed.

End LineFacts.

Section MoreAdapters.
Context `{Utils}.

(** X17.  Both GPU tools are read line by line: when the tool prints
    lines that are not empty and have no white space at either end,
    each ended by a line feed, the NVIDIA path gives one reading per
    line and the Tegra path the readings of the lines that hold the
    figures, in the order of the lines; the line feed after the last
    line gives no reading of its own. *)
Theorem gpu_tools_read_line_by_line (p : Platform) (lines : list string) :
  lines ≠ [] →
  (∀ line, line ∈ lines →
     line ≠ EmptyString ∧ trim line = line ∧ includes line LF = false) →
  (execPromise p
     "nvidia-smi --query-gpu=memory.total,memory.used,utilization.gpu --format=csv,noheader,nounits"
     = Ok {| stdout := unlines lines; stderr := EmptyString |} →
   getX86GpuInfo p = Ok (Some (x86Line <$> lines))) ∧
  (execPromise p "tegrastats" = Ok {| stdout := unlines lines; stderr := EmptyString |} →
   getTegraInfo p = Ok (Some (omap tegraLine lines))).
Proof.
  intros Hne Hlines. split; intros Hexec.
  - unfold getX86GpuInfo. rewrite Hexec. simpl. by rewrite split_unlines.
  - unfold getTegraInfo. rewrite Hexec. simpl. by rewrite split_unlines.
Qed.

(** X13.  A tool that prints nothing but white space: the NVIDIA path
    still gives one reading, with total memory 0 and the two other
    fields missing, which the formatter prints with NaN for the load and
    for the used memory; the Tegra path gives an empty list. *)
Theorem blank_tool_output (p : Platform) (setting : Setting) (out : string) :
  Forall (λ c, is_space c = true) (chars out) →
  let blank := {| totalMemory := Some (Num 0); usedMemory := None;
                  gpuUtilization := None |} in
  (execPromise p
     "nvidia-smi --query-gpu=memory.total,memory.used,utilization.gpu --format=csv,noheader,nounits"
     = Ok {| stdout := out; stderr := EmptyString |} →
   getX86GpuInfo p = Ok (Some [blank])) ∧
  (execPromise p "tegrastats" = Ok {| stdout := out; stderr := EmptyString |} →
   getTegraInfo p = Ok (Some [])) ∧
  formatGpuLoad setting (Some [blank]) =
    formatByDict (Format setting gpuLoad)
      {[ "percent" := VNum NaN; "unit" := VStr "GB";
         "used" := VStr "NaN"; "total" := VStr "0.00" ]}.
Proof.
  intros Hout blank.
  assert (trim out = EmptyString) as Htrim.
  { pose proof (trim_chars_tight (chars out) [] [] Hout) as Ht.
    cbn [app] in Ht. rewrite app_nil_r in Ht. unfold trim. by rewrite Ht. }
  split_and!.
  - intros Hexec. unfold getX86GpuInfo. rewrite Hexec. simpl. by rewrite Htrim.
  - intros Hexec. unfold getTegraInfo. rewrite Hexec. simpl. by rewrite Htrim.
  - done.
Qed.

(** X11.  The network adapter asks for the statistics of the default
    interface and reads the first entry of the answer, whatever follows
    it; an empty answer, like a failing call, gives no value. *)
Theorem getNetworkSpeed_first_entry (p : Platform) (defaultInterface : string) :
  si_networkInterfaceDefault p = Ok defaultInterface →
  (∀ cur rest, si_networkStats p defaultInterface = Ok (cur :: rest) →
     getNetworkSpeed p = Ok (Some {| up := tx_sec cur; down := rx_sec cur |})) ∧
  (si_networkStats p defaultInterface = Ok [] → getNetworkSpeed p = Ok None) ∧
  (∀ e, si_networkStats p defaultInterface = Throw e → getNetworkSpeed p = Ok None).
Proof.
  intros Hdef. unfold getNetworkSpeed. rewrite Hdef. simpl.
  split_and!; [intros cur rest Hres|intros Hres|intros e Hres]; by rewrite Hres.
Qed.

(** X12.  Memory off Darwin, from the call to the display: the
    reading has no pressure, so the [pressurePercent] placeholder is
    always 0, and the [used] placeholder is the active memory; the used
    memory the library reports is not shown. *)
Theorem memoUsage_off_darwin (p : Platform) (res : MemData) :
  isDarwin = false →
  si_mem p = Ok res →
  ∃ r, sysinfoData memoUsage p = Ok (Some r) ∧
    dictMemoUsage r !! "pressurePercent" = Some (VStr "0") ∧
    dictMemoUsage r !! "used" =
      Some (bytes_data (formatBytes (mem_active res) (Some 2%nat) (Some customSize))) ∧
    dictMemoUsage r !! "total" =
      Some (bytes_data (formatBytes (mem_total res) (Some 2%nat) (Some customSize))).
Proof.
  intros Hdarwin Hres. eexists. split.
  - simpl. unfold getMemoryUsage. rewrite Hdarwin, Hres. done.
  - unfold dictMemoUsage. rewrite Hdarwin. by split_and!.
Qed.

(** X18.  The GPU adapter gives no value when the machine is neither
    x86 nor a Tegra, and when the tool of the machine fails or writes to
    its error stream, whatever it has printed; on x86 the adapter is the
    NVIDIA path and on a Tegra the Tegra path. *)
Theorem gpuLoad_no_value (p : Platform) (r : ExecResult) :
  execPromise p "uname -m" = Ok r →
  let arch := trim (stdout r) in
  (arch ≠ "x86_64" → arch ≠ "i686" → includes arch "tegra" = false →
     getGpuLoad p = Ok None) ∧
  (arch = "x86_64" ∨ arch = "i686" →
     getGpuLoad p = getX86GpuInfo p ∧
     (∀ e, execPromise p
             "nvidia-smi --query-gpu=memory.total,memory.used,utilization.gpu --format=csv,noheader,nounits"
             = Throw e → getGpuLoad p = Ok None) ∧
     (∀ r', execPromise p
              "nvidia-smi --query-gpu=memory.total,memory.used,utilization.gpu --format=csv,noheader,nounits"
              = Ok r' → stderr r' ≠ EmptyString → getGpuLoad p = Ok None)) ∧
  (arch ≠ "x86_64" → arch ≠ "i686" → includes arch "tegra" = true →
     getGpuLoad p = getTegraInfo p ∧
     (∀ e, execPromise p "tegrastats" = Throw e → getGpuLoad p = Ok None) ∧
     (∀ r', execPromise p "tegrastats" = Ok r' → stderr r' ≠ EmptyString →
            getGpuLoad p = Ok None)).
Proof.
  intros Huname arch.
  assert (∀ m : exc (option (list GpuInfo)), returns m → try_catch m (λ _, Ok None) = m)
    as Hcatch.
  { by intros m [res ->]. }
  split_and!.
  - intros H64 H686 Htegra. unfold getGpuLoad, detectPlatform. rewrite Huname. simpl.
    fold arch. by rewrite !bool_decide_eq_false_2, Htegra.
  - intros Hx86.
    assert (getGpuLoad p = getX86GpuInfo p) as ->.
    { unfold getGpuLoad, detectPlatform. rewrite Huname. simpl. fold arch.
      destruct Hx86 as [-> | ->]; by apply Hcatch, getX86GpuInfo_returns. }
    split_and!; [done| |].
    + intros e He. unfold getX86GpuInfo. by rewrite He.
    + intros r' Hr' Herr. unfold getX86GpuInfo. rewrite Hr'. simpl.
      by rewrite decide_False.
  - intros H64 H686 Htegra.
    assert (getGpuLoad p = getTegraInfo p) as ->.
    { unfold getGpuLoad, detectPlatform. rewrite Huname. simpl. fold arch.
      rewrite !bool_decide_eq_false_2, Htegra by done.
      by apply Hcatch, getTegraInfo_returns. }
    split_and!; [done| |].
    + intros e He. unfold getTegraInfo. by rewrite He.
    + intros r' Hr' Herr. unfold getTegraInfo. rewrite Hr'. simpl.
      by rewrite decide_False.
Qed.

End MoreAdapters.

Section ExportedFacts.
Import Exported.

(** X19.  [getCpuSpeed] never throws: it gives the average speed the
    library reports, and no value when the call fails. *)
Theorem getCpuSpeed_never_throws (si_cpuCurrentSpeed : exc CpuCurrentSpeedData) :
  returns (getCpuSpeed si_cpuCurrentSpeed) ∧
  (∀ res, si_cpuCurrentSpeed = Ok res →
     getCpuSpeed si_cpuCurrentSpeed = Ok (Some (avg res))) ∧
  (∀ e, si_cpuCurrentSpeed = Throw e → getCpuSpeed si_cpuCurrentSpeed = Ok None).
Proof.
  split_and!.
  - apply try_catch_returns. intros _. by eexists.
  - by intros res ->.
  - by intros e ->.
Qed.

(** X20.  [getIP], unlike the adapters, lets a failing call through to
    its caller.  When both calls answer, it gives the address of the
    first interface that has the name of the default one, and no value
    when there is none; one interface is treated as an array of one. *)
Theorem getIP_first_default (p : Platform)
    (si_networkInterfaces : exc (NetworkInterfacesData + list NetworkInterfacesData)) :
  (∀ e, si_networkInterfaceDefault p = Throw e →
        getIP p si_networkInterfaces = Throw e) ∧
  (∀ name e, si_networkInterfaceDefault p = Ok name →
             si_networkInterfaces = Throw e →
             getIP p si_networkInterfaces = Throw e) ∧
  (∀ name res, si_networkInterfaceDefault p = Ok name →
     si_networkInterfaces = Ok res →
     ∃ ip, getIP p si_networkInterfaces = Ok ip ∧
       (∀ a, ip = Some a →
          ∃ i item, asArray res !! i = Some item ∧ iface item = name ∧ ip4 item = a ∧
            ∀ j other, j < i → asArray res !! j = Some other → iface other ≠ name) ∧
       (ip = None → ∀ item, item ∈ asArray res → iface item ≠ name) ∧
       (∀ one, res = inl one →
          ip = if decide (iface one = name) then Some (ip4 one) else None)).
Proof.
  split_and!.
  - intros e He. unfold getIP. by rewrite He.
  - intros name e Hname He. unfold getIP. by rewrite Hname, He.
  - intros name res Hname Hres. unfold getIP. rewrite Hname, Hres. simpl.
    eexists. split; [done|]. split_and!.
    + intros a Ha.
      destruct (list_find _ (asArray res)) as [[i item]|] eqn:Hfind; [|done].
      simpl in Ha. injection Ha as <-.
      apply list_find_Some in Hfind as (Hi & Hitem & Hfirst).
      exists i, item. split_and!; [done..|]. intros j other Hj Hother.
      by apply (Hfirst j).
    + intros Hnone item Hitem.
      destruct (list_find _ (asArray res)) as [[i item']|] eqn:Hfind; [done|].
      apply list_find_None in Hfind. by eapply Forall_forall in Hfind.
    + intros one ->. simpl. by case_decide.
Qed.

End ExportedFacts.

(** ** More of the tick, and instances *)

Section FailedAdapter.
Context `{Utils}.

(** X10.  A failing adapter does not disturb the display: in a tick of
    the running driver, the slot of a kind whose adapter gives no value
    is left exactly as it was, with what it showed before. *)
Theorem failed_adapter_keeps_slot (w : World) (probe : nat → Platform)
    (i : nat) (module : StatsModule) (id : nat) :
  reachable w →
  Running (state w) →
  curModules (setting w) !! i = Some module →
  slots (host (state w)) !! i = Some id →
  sysinfoData module (probe i) = Ok None →
  FormatedData.text (formatRes (setting w) module None) = "-" ∧
  items (host (getSysInfo (setting w) probe (state w)).2) !! id =
    items (host (state w)) !! id.
Proof.
  intros Hreach Hrun Hm Hid Hnone.
  assert (FormatedData.text (formatRes (setting w) module None) = "-") as Htext.
  { by destruct module. }
  split; [done|].
  destruct (running_tick w probe Hreach Hrun) as (st' & Htick & _ & Hin).
  rewrite Htick. simpl. rewrite (Hin i module id Hm Hid).
  assert (reading module (probe i) = None) as -> by (unfold reading; by rewrite Hnone).
  destruct (items (host (state w)) !! id) as [it|]; [|done]. simpl.
  unfold tickItem. by rewrite decide_True.
Qed.

End FailedAdapter.

Section MoreSamples.
#[local] Existing Instance Sample.utils.

Lemma armed_interval_witness :
  let w := Sample.started [cpuLoad; loadavg] in
  reachable w ∧
  (timers (host (state w)) = ∅ ∨
   ∃ t, timer (bar (state w)) = Some t ∧ timers (host (state w)) = {[ t := 1500%Z ]}).
Proof.
  intros w. split; [apply started_reachable|].
  apply (armed_interval w). apply started_reachable.
Defined.

Lemma slots_are_held_witness :
  let w := Sample.started [cpuLoad; loadavg] in
  reachable w ∧
  slots (host (state w)) ≠ [] ∧
  slots (host (state w)) = statusItems (bar (state w)).
Proof.
  intros w. split; [apply started_reachable|].
  assert (slots (host (state w)) ≠ []) as Hsome by (by vm_compute).
  split; [done|].
  by apply (slots_are_held w); [apply started_reachable|].
Defined.

Lemma restart_disposes_earlier_items_witness :
  let w := Sample.started [cpuLoad; loadavg] in
  let setting' := Sample.setting true [uptime] in
  reachable w ∧
  0 < length (items (host (state w))) ∧
  isLive (host (state w)) 0 = true ∧
  isLive (host (onSettingUpdate setting' (state w))) 0 = false.
Proof.
  intros w setting'. split; [apply started_reachable|].
  split; [vm_compute; lia|]. split; [reflexivity|].
  apply (restart_disposes_earlier_items w setting' 0);
    [apply started_reachable|vm_compute; lia].
Defined.

Lemma items_registered_witness :
  let w := Sample.started [cpuLoad; loadavg] in
  reachable w ∧
  1 < length (items (host (state w))) ∧
  ∃ context, _context (bar (state w)) = Some context ∧ 1 ∈ subscriptions context.
Proof.
  intros w. split; [apply started_reachable|].
  split; [vm_compute; lia|].
  apply (items_registered w 1); [apply started_reachable|vm_compute; lia].
Defined.

Lemma powerShell_session_witness :
  let w := Build_World (Sample.setting true [cpuLoad]) initial in
  reachable (H := Machine.win32) w ∧
  _context (bar (state w)) = None ∧
  powerShell (host (init (H := Machine.win32) (setting w) Sample.context (state w))) = true.
Proof.
  intros w.
  assert (reachable (H := Machine.win32) w) as Hreach.
  { exists (Sample.setting true [cpuLoad]). apply rtc_refl. }
  split; [done|]. split; [reflexivity|].
  by apply (powerShell_session (H := Machine.win32) w Hreach).
Defined.

Lemma deactivation_witness :
  let w := Sample.started [cpuLoad; loadavg] in
  reachable w ∧
  timers (host (state w)) ≠ ∅ ∧
  timers (host (cancelUpdate true (state w))) = ∅ ∧
  slots (host (cancelUpdate true (state w))) = [0; 1].
Proof.
  intros w. split; [apply started_reachable|].
  split; [by apply Running_armed, started_running|].
  split; [|reflexivity].
  apply (deactivation w). apply started_reachable.
Defined.

Lemma tick_beyond_items_witness :
  let st := state (Sample.started [cpuLoad]) in
  let setting := Sample.setting true [cpuLoad; loadavg] in
  let probe := λ _ : nat, Sample.busy in
  let data := formatRes setting loadavg (reading loadavg Sample.busy) in
  NoDup (statusItems (bar st)) ∧
  length (statusItems (bar st)) ≤ 1 ∧
  results setting probe !! 1 = Some data ∧
  FormatedData.text data ≠ "-" ∧
  ∃ st', getSysInfo setting probe st =
           (Throw "TypeError: curStatusItem is undefined", st').
Proof.
  intros st setting probe data.
  assert (NoDup (statusItems (bar st))) as Hnodup by apply NoDup_singleton.
  assert (length (statusItems (bar st)) ≤ 1) as Hlen by (vm_compute; lia).
  assert (results setting probe !! 1 = Some data) as Hdata by reflexivity.
  assert (FormatedData.text data ≠ "-") as Htext by (by vm_compute).
  split; [done|]. split; [done|]. split; [done|]. split; [done|].
  destruct (tick_beyond_items setting probe st 1 data Hnodup Hlen Hdata Htext)
    as (st' & Htick & _).
  - intros j d Hj. vm_compute in Hj. lia.
  - by exists st'.
Defined.

Lemma ticks_show_latest_witness :
  let w := Sample.started [cpuLoad; loadavg] in
  let probes := [λ _ : nat, Sample.busy; λ _ : nat, Sample.failing] in
  reachable w ∧
  Running (state w) ∧
  curModules (setting w) !! 0 = Some cpuLoad ∧
  slots (host (state w)) !! 0 = Some 0 ∧
  StatusBarItem.text <$> items (host (ticks (setting w) probes (state w))) !! 0 =
    Some "43%".
Proof.
  intros w probes.
  assert (reachable w) as Hreach by apply started_reachable.
  assert (Running (state w)) as Hrun by (by apply started_running).
  split; [done|]. split; [done|]. split; [reflexivity|]. split; [reflexivity|].
  by rewrite (ticks_show_latest w probes 0 cpuLoad 0 Hreach Hrun eq_refl eq_refl).
Defined.

Lemma failed_adapter_keeps_slot_witness :
  let w := Sample.started [cpuLoad; loadavg] in
  let probe := λ _ : nat, Sample.failing in
  reachable w ∧
  Running (state w) ∧
  sysinfoData cpuLoad (probe 0) = Ok None ∧
  items (host (getSysInfo (setting w) probe (state w)).2) !! 0 =
    items (host (state w)) !! 0.
Proof.
  intros w probe.
  assert (reachable w) as Hreach by apply started_reachable.
  assert (Running (state w)) as Hrun by (by apply started_running).
  split; [done|]. split; [done|]. split; [reflexivity|].
  by apply (failed_adapter_keeps_slot w probe 0 cpuLoad 0 Hreach Hrun).
Defined.

Lemma getNetworkSpeed_first_entry_witness :
  si_networkInterfaceDefault Sample.busy = Ok "eth0" ∧
  getNetworkSpeed Sample.busy = Ok (Some {| up := Num 2048; down := Num 512 |}).
Proof.
  split; [reflexivity|].
  destruct (getNetworkSpeed_first_entry Sample.busy "eth0" eq_refl) as (Hfirst & _).
  by apply (Hfirst {| tx_sec := Num 2048; rx_sec := Num 512 |} []).
Defined.

Lemma memoUsage_off_darwin_witness :
  isDarwin = false ∧
  ∃ r, sysinfoData memoUsage Sample.busy = Ok (Some r) ∧
       dictMemoUsage r !! "pressurePercent" = Some (VStr "0") ∧
       dictMemoUsage r !! "used" = Some (VStr "8.00").
Proof.
  assert (isDarwin = false) as Hdarwin by reflexivity.
  split; [done|].
  destruct (memoUsage_off_darwin Sample.busy
              {| mem_total := Num (16 * 1024 * 1024 * 1024);
                 mem_used := Num (9 * 1024 * 1024 * 1024);
                 mem_active := Num (8 * 1024 * 1024 * 1024) |} Hdarwin eq_refl)
    as (r & Hr & Hpressure & Hused & _).
  exists r. split_and!; [done..|]. rewrite Hused. by vm_compute.
Defined.

Lemma blank_tool_output_witness :
  let p := Machine.platform "x86_64" (Machine.prints LF) in
  Forall (λ c, is_space c = true) (chars LF) ∧
  getX86GpuInfo p =
    Ok (Some [{| totalMemory := Some (Num 0); usedMemory := None;
                 gpuUtilization := None |}]).
Proof.
  intros p.
  assert (Forall (λ c, is_space c = true) (chars LF)) as Hblank.
  { by repeat constructor. }
  split; [done|].
  by apply (blank_tool_output p (Sample.setting true [gpuLoad]) LF Hblank).
Defined.

Lemma tegraLine_sound_witness :
  let gpu := {| totalMemory := Some (Num 3964); usedMemory := Some (Num 1024);
                gpuUtilization := Some (Num 55) |} in
  tegraLine "RAM 1024/3964 MB  55% cpu" = Some gpu ∧
  ∃ m1 m2 m3,
    gpu = {| totalMemory := Some (ofLiteral (decimal_val m2));
             usedMemory := Some (ofLiteral (decimal_val m1));
             gpuUtilization := Some (ofLiteral (decimal_val m3)) |}.
Proof.
  intros gpu.
  assert (tegraLine "RAM 1024/3964 MB  55% cpu" = Some gpu) as Hline by (by vm_compute).
  split; [done|].
  destruct (tegraLine_sound _ _ Hline)
    as (pre & m1 & m2 & ws1 & ws2 & m3 & post & _ & _ & _ & _ & _ & _ & _ & _ & Hgpu & _).
  by exists m1, m2, m3.
Defined.

(** A numeral beyond 2^53 is read as the binary64 number next to it. *)
Lemma x86Line_reads_figures_witness :
  let a := chars "9007199254740993" in
  let b := chars "1024" in
  let c := chars "37" in
  x86Line (str a +:+ ", " +:+ str b +:+ ", " +:+ str c) =
    {| totalMemory := Some (Num 9007199254740992); usedMemory := Some (Num 1024);
       gpuUtilization := Some (Num 37) |} ∧
  x86Line (str b +:+ ", " +:+ str b +:+ ", " +:+ str c) =
    {| totalMemory := Some (ofZ 1024); usedMemory := Some (ofZ 1024);
       gpuUtilization := Some (ofZ 37) |}.
Proof.
  intros a b c.
  assert (Forall (λ x, is_digit x = true) a) as Da by (by repeat constructor).
  assert (Forall (λ x, is_digit x = true) b) as Db by (by repeat constructor).
  assert (Forall (λ x, is_digit x = true) c) as Dc by (by repeat constructor).
  assert (a ≠ [] ∧ b ≠ [] ∧ c ≠ []) as (Na & Nb & Nc) by done.
  split.
  - destruct (x86Line_reads_figures a b c Na Nb Nc Da Db Dc) as [Hline _].
    etrans; [exact Hline|]. by vm_compute.
  - destruct (x86Line_reads_figures b b c Nb Nb Nc Db Db Dc) as [_ Hsafe].
    by apply Hsafe.
Defined.

(** The white space between the figures may be a no-break space. *)
Lemma tegraLine_reads_figures_witness :
  let line :=
    str (chars "RAM " ++ chars "1024" ++ "/"%char :: chars "3964" ++ ["160"%char]
           ++ "M"%char :: "B"%char :: [" "; " "]%char ++ chars "55"
           ++ "%"%char :: chars " cpu") in
  tegraLine line =
  Some {| totalMemory := Some (ofZ 3964); usedMemory := Some (ofZ 1024);
          gpuUtilization := Some (ofZ 55) |}.
Proof.
  intros line.
  assert (Forall (λ c, is_digit c = false) (chars "RAM ")) as Hpre
    by (by repeat constructor).
  assert (Forall (λ c, is_digit c = true) (chars "1024")) as D1 by (by repeat constructor).
  assert (Forall (λ c, is_digit c = true) (chars "3964")) as D2 by (by repeat constructor).
  assert (Forall (λ c, is_digit c = true) (chars "55")) as D3 by (by repeat constructor).
  assert (Forall (λ c, is_space c = true) ["160"%char]) as W1 by (by repeat constructor).
  assert (Forall (λ c, is_space c = true) [" "; " "]%char) as W2
    by (by repeat constructor).
  destruct (tegraLine_reads_figures (chars "RAM ") (chars "1024") (chars "3964")
              ["160"%char] [" "; " "]%char (chars "55") (chars " cpu")
              Hpre ltac:(done) D1 ltac:(done) D2 ltac:(done) D3
              ltac:(done) W1 ltac:(done) W2)
    as [_ Hsafe].
  by apply Hsafe.
Defined.

Lemma gpu_tools_read_line_by_line_witness :
  let lines := ["8192, 1024, 37"; "4096, 512, 5"] in
  let p := Machine.platform "x86_64" (Machine.prints (unlines lines)) in
  lines ≠ [] ∧
  getX86GpuInfo p =
    Ok (Some [{| totalMemory := Some (Num 8192); usedMemory := Some (Num 1024);
                 gpuUtilization := Some (Num 37) |};
              {| totalMemory := Some (Num 4096); usedMemory := Some (Num 512);
                 gpuUtilization := Some (Num 5) |}]).
Proof.
  intros lines p. split; [done|].
  destruct (gpu_tools_read_line_by_line p lines) as [Hx86 _]; [done| |].
  - intros line Hline.
    repeat (apply elem_of_cons in Hline as [->|Hline]; [by vm_compute|]).
    by apply elem_of_nil in Hline.
  - by rewrite Hx86.
Defined.

Lemma gpuLoad_no_value_witness :
  let p := Machine.platform "armv7l" (Machine.prints "8192, 1024, 37") in
  execPromise p "uname -m" = Ok {| stdout := "armv7l" +:+ LF; stderr := EmptyString |} ∧
  getGpuLoad p = Ok None.
Proof.
  intros p. split; [reflexivity|].
  by apply (gpuLoad_no_value p _ eq_refl).
Defined.

End MoreSamples.

(** ** The guards of the formatter and of [start] *)

Section GuardFacts.
Context `{Utils}.

(** X21.  The cpuLoad formatter writes a load above 0 and below 10^21
    as the numeral of the nearest integer, so that a load below one half
    is shown as 0, whereas a load of exactly 0, like NaN, gives the
    placeholder.  From 10^21 on [toFixed] writes the exponent notation:
    10^21 is shown as 1e+21. *)
Theorem formatCpuLoad_percent (setting : Setting) (q : Q) :
  (0 < q)%Q →
  (q < inject_Z (pow10 21))%Q →
  ∃ n : Z,
    formatCpuLoad setting (Some (Num q)) =
      formatByDict (Format setting cpuLoad) {[ "percent" := VStr (pretty (Z.to_N n)) ]} ∧
    (0 <= n)%Z ∧
    (inject_Z n - (1 # 2) <= q)%Q ∧ (q < inject_Z n + (1 # 2))%Q ∧
    ((q < 1 # 2)%Q → n = 0%Z) ∧
    formatCpuLoad setting (Some NaN) = "-" ∧
    formatCpuLoad setting (Some (Num (inject_Z (pow10 21)))) =
      formatByDict (Format setting cpuLoad) {[ "percent" := VStr "1e+21" ]}.
Proof.
  intros Hq Hbelow.
  destruct (toFixed_integer_nearest q) as (n & Hn & Hlo & Hhi); [lra|done|].
  assert (0 <= n)%Z as Hpos.
  { destruct (decide (0 <= n)%Z) as [|Hneg]; [done|].
    assert (n + 1 <= 0)%Z as Hle by lia.
    rewrite Zle_Qle in Hle. rewrite inject_Z_plus in Hle.
    change (inject_Z 1) with 1%Q in Hle. change (inject_Z 0) with 0%Q in Hle.
    revert Hle Hhi Hq. generalize (inject_Z n). intros; lra. }
  assert (toFixed 0 (Num (inject_Z (pow10 21))) = "1e+21") as Hbig by (by vm_compute).
  exists n. split_and!; [|done|done|done| |done|].
  - unfold formatCpuLoad, truthy.
    destruct (Qeq_bool q 0) eqn:Hzero.
    + apply Qeq_bool_eq in Hzero. lra.
    + simpl. unfold dictCpuLoad. by rewrite Hn.
  - intros Hhalf.
    destruct (decide (n = 0)%Z) as [|Hne]; [done|].
    assert (1 <= n)%Z as Hle by lia.
    rewrite Zle_Qle in Hle. change (inject_Z 1) with 1%Q in Hle.
    revert Hle Hlo Hhalf. generalize (inject_Z n). intros; lra.
  - unfold formatCpuLoad, dictCpuLoad. by rewrite Hbig.
Qed.

(** X22.  Before [init] the driver has no extension context and a
    configuration change does nothing: [start] returns at once, no item
    exists and no interval is armed. *)
Theorem configuration_before_init (w : World) (setting' : Setting) :
  reachable w →
  _context (bar (state w)) = None →
  onSettingUpdate setting' (state w) = state w ∧
  items (host (state w)) = [] ∧
  timers (host (state w)) = ∅.
Proof.
  intros Hreach Hnone. pose proof (reachable_Inv _ Hreach) as Hinv.
  pose proof (reachable_Kept _ Hreach) as Hkept.
  destruct (inv_context _ Hinv Hnone) as [_ Hidle].
  pose proof (kept_items _ Hkept) as Hitems. rewrite Hnone in Hitems.
  split_and!; [|done..].
  unfold onSettingUpdate.
  assert (cancelUpdate false (state w) = state w) as ->.
  { unfold cancelUpdate. destruct (timer (bar (state w))) as [t|]; [|done].
    unfold clearInterval. rewrite Hidle, delete_empty, <-Hidle.
    by destruct (state w) as [b [its ts nt ps]]. }
  by apply start_no_context.
Qed.

End GuardFacts.

Section GuardSamples.
#[local] Existing Instance Sample.utils.

Lemma formatCpuLoad_percent_witness :
  (0 < 4321 # 100)%Q ∧
  (4321 # 100 < inject_Z (pow10 21))%Q ∧
  ∃ n : Z,
    formatCpuLoad (Sample.setting true [cpuLoad]) (Some (Num (4321 # 100))) =
      formatByDict (Format (Sample.setting true [cpuLoad]) cpuLoad)
        {[ "percent" := VStr (pretty (Z.to_N n)) ]} ∧
    (inject_Z n - (1 # 2) <= 4321 # 100)%Q ∧ (4321 # 100 < inject_Z n + (1 # 2))%Q.
Proof.
  assert (0 < 4321 # 100)%Q as Hq by reflexivity.
  assert (4321 # 100 < inject_Z (pow10 21))%Q as Hlt by reflexivity.
  split; [done|]. split; [done|].
  destruct (formatCpuLoad_percent (Sample.setting true [cpuLoad]) (4321 # 100) Hq Hlt)
    as (n & Htext & _ & Hlo & Hhi & _).
  by exists n.
Defined.

Lemma configuration_before_init_witness :
  let w := Build_World (Sample.setting true [cpuLoad]) initial in
  let setting' := Sample.setting true [uptime; cpuLoad] in
  reachable w ∧
  _context (bar (state w)) = None ∧
  onSettingUpdate setting' (state w) = state w.
Proof.
  intros w setting'.
  assert (reachable w) as Hreach.
  { exists (Sample.setting true [cpuLoad]). apply rtc_refl. }
  split; [done|]. split; [reflexivity|].
  by apply (configuration_before_init w setting' Hreach).
Defined.

End GuardSamples.
